(** * GopherDrive: the asynchronous job-processing pipeline

    A shallow embedding of [internal/worker/pool.go] (the bounded worker
    pool), of the [hasher] package (the streaming analyzer), of
    [handleResults] in the entry point (the results consumer), of the
    error mapping of the gRPC service and of the upload and lookup
    handlers of the REST gateway, with the properties of the pipeline
    proved over it.

    Go values are modelled as follows.
    - [int] and [int64] are [Z] with the 64-bit wrap-around written out.
    - [[]byte] is [list byte]; [string] is [string].
    - [map[string]interface{}] is a [gmap string value]; a nil map is [None].
    - [error] is an inductive type with [fmt.Errorf("...: %w", e)] as a
      constructor; a nil error is [None].
    - a buffered channel is a record with its buffer, capacity and closed
      flag; goroutines are the components of a labelled transition system
      whose labels are the atomic steps of the source. *)

From Stdlib Require Import ZArith Strings.Byte Ascii String List Lia.
From stdpp Require Import gmap strings list fin_maps.

Local Open Scope string_scope.
Local Open Scope list_scope.
Local Open Scope Z_scope.

(** ** The Go runtime and standard library, as far as the code uses them *)

Module Go.

(** [int] and [int64] on the 64-bit targets the program is built for. *)
Definition wrap64 (z : Z) : Z := (z + 2 ^ 63) mod 2 ^ 64 - 2 ^ 63.
Definition int_add (a b : Z) : Z := wrap64 (a + b).
Definition int_mul (a b : Z) : Z := wrap64 (a * b).

(** [error] values. [Errorf msg e] is [fmt.Errorf(msg + ": %w", e)]. *)
Inductive error : Type :=
| Canceled                      (* context.Canceled *)
| DeadlineExceeded              (* context.DeadlineExceeded *)
| EOF                           (* io.EOF *)
| ErrTooLong                    (* bufio.ErrTooLong *)
| Errno (op path msg : string)  (* *fs.PathError and other system errors *)
| Errorf (msg : string) (cause : error).


(** Logical instants at which shared state is read. *)
Definition Time : Type := nat.

(** [context.Context], through the one method the code calls: [Err()]
    answers [nil] until the context is cancelled or its deadline passes. *)
Record Context : Type := { Err : Time -> option error }.

(** [context.Background()]: never cancelled, no deadline. *)
Definition Background : Context := {| Err := fun _ => None |}.

(** A channel [make(chan A, cap)]: the buffered values in FIFO order. *)
Record chan (A : Type) : Type := mkChan {
  buf : list A;
  cap : Z;
  closed : bool
}.
Arguments mkChan {A} _ _ _.
Arguments buf {A} _.
Arguments cap {A} _.
Arguments closed {A} _.

(** [make(chan A, size)] panics on a negative size. *)
Definition make_chan {A : Type} (size : Z) : option (chan A) :=
  if size <? 0 then None else Some (mkChan [] size false).

Inductive send_result (A : Type) : Type :=
| SendOk (c : chan A)   (* the value is buffered *)
| SendBlocks            (* buffer full: the sender waits *)
| SendPanics.           (* send on closed channel *)
Arguments SendOk {A} _.
Arguments SendBlocks {A}.
Arguments SendPanics {A}.

(** [c <- x]. A closed channel makes the send proceed, by panicking, also
    inside a [select]. With capacity 0 a send needs a receiver waiting at
    the same moment; the pool only has such a channel when it has no
    worker at all, so the rendezvous is not modelled. *)
Definition chan_send {A : Type} (c : chan A) (x : A) : send_result A :=
  if closed c then SendPanics
  else if Z.of_nat (length (buf c)) <? cap c
       then SendOk (mkChan (buf c ++ [x]) (cap c) false)
       else SendBlocks.

Inductive recv_result (A : Type) : Type :=
| RecvOk (x : A) (c : chan A)  (* [x, true] *)
| RecvClosed                   (* [zero, false]: closed and drained *)
| RecvBlocks.
Arguments RecvOk {A} _ _.
Arguments RecvClosed {A}.
Arguments RecvBlocks {A}.

(** [x, ok := <-c]: buffered values are still delivered after [close]. *)
Definition chan_recv {A : Type} (c : chan A) : recv_result A :=
  match buf c with
  | x :: rest => RecvOk x (mkChan rest (cap c) (closed c))
  | [] => if closed c then RecvClosed else RecvBlocks
  end.

(** [close(c)] panics when [c] is closed already. *)
Definition chan_close {A : Type} (c : chan A) : option (chan A) :=
  if closed c then None else Some (mkChan (buf c) (cap c) true).

(** A fallible call [(T, error)]. *)
Inductive result (A : Type) : Type :=
| Ok (a : A)
| Fail (e : error).
Arguments Ok {A} _.
Arguments Fail {A} _.

Definition byteZ (b : byte) : Z := Z.of_N (Byte.to_N b).

(** The values stored in a metadata bundle ([interface{}]). *)
Inductive value : Type :=
| VString (s : string)
| VInt (n : Z).

(** *** [os]: files *)

(** What a path names: nothing that can be opened, a directory (it opens,
    and reading it fails), or a regular file with its bytes. *)
Inductive node : Type :=
| Missing (msg : string)
| Directory
| Regular (content : list byte).

Definition FS : Type := string -> node.

(** An open [*os.File]: [data] is [None] for a directory. *)
Record File : Type := mkFile {
  name : string;
  data : option (list byte);
  offset : nat
}.

Definition os_Open (fs : FS) (path : string) : result File :=
  match fs path with
  | Missing msg => Fail (Errno "open" path msg)
  | Directory => Ok (mkFile path None 0)
  | Regular content => Ok (mkFile path (Some content) 0)
  end.

(** [n, err := f.Read(b)] with [len(b) = len]: the bytes [b[:n]], the
    error and the file afterwards. At the end of the file [0, io.EOF]. *)
Definition File_Read (f : File) (len : nat) : list byte * option error * File :=
  match data f with
  | None => ([], Some (Errno "read" (name f) "is a directory"), f)
  | Some content =>
      let chunk := take len (drop (offset f) content) in
      match chunk with
      | [] => ([], if (len =? 0)%nat then None else Some EOF, f)
      | _ => (chunk, None, mkFile (name f) (data f) (offset f + length chunk))
      end
  end.

(** [f.Seek(off, whence)] with [whence] 0, 1, 2 for start, current, end. *)
Definition File_Seek (f : File) (off : Z) (whence : Z) : option error * File :=
  let size := match data f with Some content => Z.of_nat (length content) | None => 0 end in
  let target :=
    if whence =? 0 then off
    else if whence =? 1 then Z.of_nat (offset f) + off
    else size + off in
  if (target <? 0) || negb ((0 <=? whence) && (whence <=? 2))
  then (Some (Errno "seek" (name f) "invalid argument"), f)
  else (None, mkFile (name f) (data f) (Z.to_nat target)).

(** *** [crypto/sha256], [hash.Hash]: the incremental digest

    The state of a [hash.Hash] is what has been written to it; what
    [Sum] makes of it is the digest function, taken as given. *)
Definition Hash : Type := list byte.
Definition sha256_New : Hash := [].
Definition Hash_Write (h : Hash) (p : list byte) : Hash := h ++ p.

(** *** [io.Copy]

    The generic loop: read up to 32 KiB, write what was read, stop at the
    first error, which is not reported when it is [io.EOF]. Every round
    but the last reads at least one byte, so one round per remaining byte
    and one more is enough fuel. *)
Definition copy_buf : nat := Z.to_nat 32768.

Fixpoint copy_loop (fuel : nat) (h : Hash) (f : File) (written : Z)
  : Hash * Z * option error * File :=
  match fuel with
  | O => (h, written, Some (Errno "copy" (name f) "no progress"), f)
  | S fuel' =>
      let '(chunk, er, f') := File_Read f copy_buf in
      let '(h', written') :=
        match chunk with
        | [] => (h, written)
        | _ => (Hash_Write h chunk, int_add written (Z.of_nat (length chunk)))
        end in
      match er with
      | Some EOF => (h', written', None, f')
      | Some e => (h', written', Some e, f')
      | None => copy_loop fuel' h' f' written'
      end
  end.

Definition file_rest (f : File) : list byte :=
  match data f with
  | Some content => drop (offset f) content
  | None => []
  end.

Definition io_Copy (h : Hash) (f : File) : Hash * Z * option error * File :=
  copy_loop (S (length (file_rest f))) h f 0.

(** *** [encoding/hex] *)

Definition hexdigit (n : N) : ascii :=
  match n with
  | 0%N => "0" | 1%N => "1" | 2%N => "2" | 3%N => "3"
  | 4%N => "4" | 5%N => "5" | 6%N => "6" | 7%N => "7"
  | 8%N => "8" | 9%N => "9" | 10%N => "a" | 11%N => "b"
  | 12%N => "c" | 13%N => "d" | 14%N => "e" | _ => "f"
  end%char.

Fixpoint hex_EncodeToString (src : list byte) : string :=
  match src with
  | [] => EmptyString
  | v :: rest =>
      String (hexdigit (N.shiftr (Byte.to_N v) 4))
        (String (hexdigit (N.land (Byte.to_N v) 15)) (hex_EncodeToString rest))
  end.

(** *** [strings], [path/filepath] *)

Definition strings_HasPrefix (s pre : string) : bool := String.prefix pre s.

(** [filepath.Ext]: from the end of the path back to the last separator,
    the suffix that starts at the first dot met. *)
Fixpoint ext_scan (rev_path acc : list ascii) : string :=
  match rev_path with
  | [] => EmptyString
  | c :: before =>
      if Ascii.eqb c "/" then EmptyString
      else if Ascii.eqb c "." then string_of_list_ascii (c :: acc)
      else ext_scan before (c :: acc)
  end.

Definition filepath_Ext (path : string) : string :=
  ext_scan (rev (list_ascii_of_string path)) [].

(** *** [unicode/utf8], [unicode], [bytes] *)

Definition RuneError : Z := 65533.

(** [utf8.DecodeRune]: the rune at the head of [p] and its width; an
    invalid or truncated encoding is [RuneError] of width 1. *)
Definition DecodeRune (p : list byte) : Z * nat :=
  match p with
  | [] => (RuneError, O)
  | p0 :: t =>
      let b0 := byteZ p0 in
      if b0 <? 128 then (b0, 1%nat)
      else if (b0 <? 194) || (244 <? b0) then (RuneError, 1%nat)
      else
        let sz := if b0 <? 224 then 2%nat else if b0 <? 240 then 3%nat else 4%nat in
        let lo := if b0 =? 224 then 160 else if b0 =? 240 then 144 else 128 in
        let hi := if b0 =? 237 then 159 else if b0 =? 244 then 143 else 191 in
        if (length p <? sz)%nat then (RuneError, 1%nat)
        else
          match t with
          | [] => (RuneError, 1%nat)
          | c1 :: t1 =>
              let b1 := byteZ c1 in
              if (b1 <? lo) || (hi <? b1) then (RuneError, 1%nat)
              else if (sz <=? 2)%nat
              then (Z.lor (Z.shiftl (Z.land b0 31) 6) (Z.land b1 63), 2%nat)
              else
                match t1 with
                | [] => (RuneError, 1%nat)
                | c2 :: t2 =>
                    let b2 := byteZ c2 in
                    if (b2 <? 128) || (191 <? b2) then (RuneError, 1%nat)
                    else if (sz <=? 3)%nat
                    then (Z.lor (Z.lor (Z.shiftl (Z.land b0 15) 12)
                                       (Z.shiftl (Z.land b1 63) 6))
                                (Z.land b2 63), 3%nat)
                    else
                      match t2 with
                      | [] => (RuneError, 1%nat)
                      | c3 :: _ =>
                          let b3 := byteZ c3 in
                          if (b3 <? 128) || (191 <? b3) then (RuneError, 1%nat)
                          else (Z.lor (Z.lor (Z.lor (Z.shiftl (Z.land b0 7) 18)
                                                    (Z.shiftl (Z.land b1 63) 12))
                                             (Z.shiftl (Z.land b2 63) 6))
                                      (Z.land b3 63), 4%nat)
                      end
                end
          end
  end.

(** [unicode.IsSpace]: the Latin-1 cases, then the White_Space table. *)
Definition unicode_IsSpace (r : Z) : bool :=
  if r <=? 255
  then (9 <=? r) && (r <=? 13) || (r =? 32) || (r =? 133) || (r =? 160)
  else (r =? 5760) || (8192 <=? r) && (r <=? 8202) || (r =? 8232) || (r =? 8233)
       || (r =? 8239) || (r =? 8287) || (r =? 12288).

(** [asciiSpace]: tab, newline, vertical tab, form feed, return, space. *)
Definition asciiSpace (b : byte) : bool :=
  let z := byteZ b in (9 <=? z) && (z <=? 13) || (z =? 32).

(** The fields of a sequence of units, each a run of bytes that is or is
    not a separator; [cur] is the field being read, if any, last byte
    first. *)
Fixpoint split_fields (units : list (list byte * bool)) (cur : option (list byte))
  : list (list byte) :=
  match units with
  | [] => match cur with Some fld => [rev_append fld []] | None => [] end
  | (bs, true) :: rest =>
      match cur with
      | Some fld => rev_append fld [] :: split_fields rest None
      | None => split_fields rest None
      end
  | (bs, false) :: rest =>
      split_fields rest
        (Some (rev_append bs (match cur with Some fld => fld | None => [] end)))
  end.

(** The runes of [s] for [FieldsFunc]: a byte below [utf8.RuneSelf] is
    its own rune, anything else goes through [DecodeRune]; [skip] counts
    the bytes still to be passed over of the rune decoded last. *)
Fixpoint rune_units (f : Z -> bool) (s : list byte) (skip : nat) : list (list byte * bool) :=
  match s with
  | [] => []
  | b :: rest =>
      match skip with
      | S k => rune_units f rest k
      | O =>
          let '(r, size) := if byteZ b <? 128 then (byteZ b, 1%nat) else DecodeRune s in
          (take size s, f r) :: rune_units f rest (size - 1)
      end
  end.

Definition bytes_FieldsFunc (s : list byte) (f : Z -> bool) : list (list byte) :=
  split_fields (rune_units f s O) None.

(** [bytes.Fields]: the byte-wise split when every byte is ASCII,
    [FieldsFunc(s, unicode.IsSpace)] otherwise. *)
Definition bytes_Fields (s : list byte) : list (list byte) :=
  if forallb (fun b => byteZ b <? 128) s
  then split_fields (map (fun b => ([b], asciiSpace b)) s) None
  else bytes_FieldsFunc s unicode_IsSpace.

(** *** [bufio.Scanner] with the default split function and buffer *)

Fixpoint bytes_IndexByte (b : list byte) (c : byte) : option nat :=
  match b with
  | [] => None
  | x :: rest =>
      if Byte.eqb x c then Some O
      else match bytes_IndexByte rest c with Some i => Some (S i) | None => None end
  end.

Definition dropCR (data : list byte) : list byte :=
  match last data with
  | Some c => if Byte.eqb c x0d then removelast data else data
  | None => data
  end.

(** [bufio.ScanLines]: how far to advance and the token, if there is one. *)
Definition ScanLines (data : list byte) (atEOF : bool) : nat * option (list byte) :=
  if atEOF && (length data =? 0)%nat then (O, None)
  else match bytes_IndexByte data x0a with
       | Some i => (S i, Some (dropCR (take i data)))
       | None => if atEOF then (length data, Some (dropCR data)) else (O, None)
       end.

Definition MaxScanTokenSize : nat := Z.to_nat 65536.

(** A scanner: the input not yet consumed ([None] when reading fails),
    the last token and the first error that is not [io.EOF]. *)
Record Scanner : Type := mkScanner {
  input : option (list byte);
  tok : list byte;
  scan_err : option error
}.

Definition bufio_NewScanner (f : File) : Scanner :=
  mkScanner (match data f with Some _ => Some (file_rest f) | None => None end) [] None.

(** [s.Scan()]. The scanner buffers at most [MaxScanTokenSize] bytes of
    unconsumed input: the split function sees that window, and sees the
    end of the input only when all of it fits with room to spare. A
    window that is full and holds no token is [ErrTooLong]. *)
Definition Scan (s : Scanner) : bool * Scanner :=
  match input s with
  | None => (false, mkScanner None [] (Some (Errno "read" "" "is a directory")))
  | Some unread =>
      let atEOF := (length unread <? MaxScanTokenSize)%nat in
      match ScanLines (take MaxScanTokenSize unread) atEOF with
      | (advance, Some token) => (true, mkScanner (Some (drop advance unread)) token None)
      | (_, None) =>
          (false, mkScanner (Some unread) [] (if atEOF then None else Some ErrTooLong))
      end
  end.

(** *** More of [strings] and [path/filepath], for the REST gateway *)

(** [len(s)] and [s[i:j]] on strings; the slice is only taken where the
    code has made sure that [0 <= i <= j <= len(s)]. *)
Definition len (s : string) : Z := Z.of_nat (String.length s).

Definition slice (s : string) (i j : Z) : string :=
  substring (Z.to_nat i) (Z.to_nat (j - i)) s.

(** [strings.Split(path, "/")]: the runs of bytes between separators. *)
Fixpoint elements (path : string) : list string :=
  match path with
  | EmptyString => [EmptyString]
  | String c rest =>
      if Ascii.eqb c "/" then EmptyString :: elements rest
      else match elements rest with
           | e :: es => String c e :: es
           | [] => [String c EmptyString]
           end
  end.

(** [filepath.Clean], by its rules: empty elements and [.] go; [..]
    takes away the element before it, is dropped at the root, and stays
    at the head of a relative path. [out] holds the elements kept, the
    last one first. *)
Definition clean_step (rooted : bool) (out : list string) (elem : string) : list string :=
  if String.eqb elem "" || String.eqb elem "." then out
  else if String.eqb elem ".." then
    match out with
    | top :: below => if String.eqb top ".." then elem :: out else below
    | [] => if rooted then [] else [elem]
    end
  else elem :: out.

Definition is_rooted (path : string) : bool :=
  match path with
  | String c _ => Ascii.eqb c "/"
  | EmptyString => false
  end.

Definition filepath_Clean (path : string) : string :=
  let rooted := is_rooted path in
  let out := fold_left (clean_step rooted) (elements path) [] in
  if rooted then "/" +:+ String.concat "/" (rev out)
  else match out with
       | [] => "."
       | _ => String.concat "/" (rev out)
       end.

(** [filepath.Join(elem...)]: empty elements at the head are ignored, the
    rest is joined with separators and cleaned. *)
Fixpoint filepath_Join (elem : list string) : string :=
  match elem with
  | [] => ""
  | e :: rest =>
      if String.eqb e "" then filepath_Join rest
      else filepath_Clean (String.concat "/" elem)
  end.

End Go.

(** ** Package [hasher]: the analyzer *)

Module hasher.
Import Go.

(** The library functions the package calls whose results are taken as
    given: the SHA-256 digest of what was written to the hash, the MIME
    sniffer, and the image header decoder (width and height). *)
Class Codecs : Type := {
  sha256_Sum : Hash -> list byte;
  http_DetectContentType : list byte -> string;
  image_DecodeConfig : list byte -> result (Z * Z)
}.

Module Metadata.
Record t : Type := mk {
  Hash : string;
  Size : Z;
  Extension : string;
  Extra : gmap string value
}.
End Metadata.

(** The loop of [analyzeText]: one round per token. A round consumes at
    least one byte of input, so [fuel] above the input length is never
    used up. *)
Fixpoint scan_loop (fuel : nat) (scanner : Scanner) (lines words : Z) : Z * Z :=
  match fuel with
  | O => (lines, words)
  | S fuel' =>
      match Scan scanner with
      | (true, scanner') =>
          scan_loop fuel' scanner'
            (int_add lines 1)
            (int_add words (Z.of_nat (length (bytes_Fields (tok scanner')))))
      | (false, _) => (lines, words)
      end
  end.

Definition analyzeText (fs : FS) (path : string) : result (gmap string value) :=
  match os_Open fs path with
  | Fail err => Fail err
  | Ok f =>
      let scanner := bufio_NewScanner f in
      let '(lines, words) := scan_loop (S (length (file_rest f))) scanner 0 0 in
      Ok {[ "lines" := VInt lines; "words" := VInt words ]}
  end.

Section WithCodecs.
Context `{Codecs}.

(** [image.DecodeConfig(f)]: decodes what [f] still has to give. *)
Definition DecodeConfig (f : File) : result (Z * Z) :=
  match data f with
  | None => Fail (Errno "read" (name f) "is a directory")
  | Some _ => image_DecodeConfig (file_rest f)
  end.

Definition analyzeImage (fs : FS) (path : string) : result (gmap string value) :=
  match os_Open fs path with
  | Fail err => Fail err
  | Ok f =>
      match DecodeConfig f with
      | Fail err => Fail err
      | Ok (width, height) => Ok {[ "width" := VInt width; "height" := VInt height ]}
      end
  end.

(** [ComputeMetadata(filePath)]. [fs] is the file system when the file
    is opened for hashing; [fs'] is the file system when the category
    analyzer opens the path again. [args ∪ extra] is the loop
    [for k, v := range args { extra[k] = v }]. *)
Definition ComputeMetadata (fs fs' : FS) (filePath : string) : result Metadata.t :=
  match os_Open fs filePath with
  | Fail err => Fail (Errorf "hasher: open file" err)
  | Ok f =>
      let h := sha256_New in
      let '(head, err, f) := File_Read f 512 in
      match err with
      | Some EOF | None =>
          let mimeType := http_DetectContentType head in
          match File_Seek f 0 0 with
          | (Some err, _) => Fail (Errorf "hasher: seek" err)
          | (None, f) =>
              match io_Copy h f with
              | (_, _, Some err, _) => Fail (Errorf "hasher: copy" err)
              | (h, size, None, _) =>
                  let hash := hex_EncodeToString (sha256_Sum h) in
                  let extra : gmap string value := {[ "mime_type" := VString mimeType ]} in
                  let extra :=
                    if strings_HasPrefix mimeType "image/" then
                      match analyzeImage fs' filePath with
                      | Ok imgArgs => imgArgs ∪ extra
                      | Fail _ => extra
                      end
                    else if strings_HasPrefix mimeType "text/" then
                      match analyzeText fs' filePath with
                      | Ok txtArgs => txtArgs ∪ extra
                      | Fail _ => extra
                      end
                    else extra in
                  Ok (Metadata.mk hash size (filepath_Ext filePath) extra)
              end
          end
      | Some err => Fail (Errorf "hasher: read head" err)
      end
  end.

End WithCodecs.

End hasher.

(** ** Package [worker]: jobs, results and the pool *)

Module worker.
Import Go.

Module Job.
Record t : Type := mk {
  Ctx : option Context;   (* [None] is the nil interface *)
  FileID : string;
  FilePath : string
}.
End Job.

Module Result.
Record t : Type := mk {
  FileID : string;
  Hash : string;
  Size : Z;
  Extension : string;
  Metadata : option (gmap string value);
  Err : option error
}.
End Result.

(** The pool. [ctx_done] stands for [ctx]/[cancel]: whether [p.ctx.Done()]
    is closed. The logger is left out: it is taken to be one that works, as
    the one the entry point passes. *)
Record Pool : Type := mkPool {
  workers : Z;
  jobs : chan Job.t;
  results : chan Result.t;
  wg : Z;
  ctx_done : bool
}.

(** [NewPool(workers, logger)]: both queues get room for [workers*2]
    values; [None] is the panic of [make] on a negative size. *)
Definition NewPool (workers : Z) : option Pool :=
  match make_chan (int_mul workers 2), make_chan (int_mul workers 2) with
  | Some js, Some rs => Some (mkPool workers js rs 0 false)
  | _, _ => None
  end.

(** [Submit(job)]: the outcomes of the cases of its [select] that can
    proceed. The runtime picks one of them; with none the caller waits. *)
Inductive SubmitOutcome : Type :=
| Accepted (p : Pool)   (* [return true], the job is in the queue *)
| Refused               (* [return false] *)
| SubmitPanics.         (* send on closed channel *)

Definition Submit (p : Pool) (job : Job.t) : list SubmitOutcome :=
  match chan_send (jobs p) job with
  | SendOk js => [Accepted (mkPool (workers p) js (results p) (wg p) (ctx_done p))]
  | SendPanics => [SubmitPanics]
  | SendBlocks => []
  end
  ++ (if ctx_done p then [Refused] else []).

(** The [select] of the worker loop, in the same way. *)
Inductive SelectOutcome : Type :=
| Took (job : Job.t) (p : Pool)   (* [ok]: go on to [p.process(id, job)] *)
| Exits.                          (* [return], from either case *)

Definition worker_select (p : Pool) : list SelectOutcome :=
  match chan_recv (jobs p) with
  | RecvOk job js => [Took job (mkPool (workers p) js (results p) (wg p) (ctx_done p))]
  | RecvClosed => [Exits]
  | RecvBlocks => []
  end
  ++ (if ctx_done p then [Exits] else []).

(** What [process] does besides sending its result. *)
Inductive event : Type :=
| Log (level msg : string) (worker_id : Z) (file_id : string)
| Analyze (path : string).   (* the call [hasher.ComputeMetadata(path)] *)

(** What [process] reads from outside: the instants of its two
    [ctx.Err()] checks (the second stands for both calls after the pass,
    the answer of a context does not change once it is set) and the file
    system as [ComputeMetadata] finds it. *)
Record Env : Type := mkEnv {
  t_check : Time;
  t_done : Time;
  fs_hash : FS;
  fs_extra : FS
}.

(** Where a worker goroutine stands. *)
Inductive goroutine : Type :=
| WSelect                  (* at the [select] *)
| WProcess (job : Job.t)   (* entering [p.process(id, job)] *)
| WSend (r : Result.t)     (* at [p.results <- r] *)
| WExited.                 (* returned; [wg.Done()] has run *)

(** Where the call of [Shutdown] stands. *)
Inductive shutdown_state : Type :=
| NotCalled
| Waiting     (* [close(p.jobs)] done, in [p.wg.Wait()] *)
| Closing     (* [Wait] returned, before [close(p.results)] *)
| Returned.

(** The pool at run time: one goroutine per worker, the caller of
    [Shutdown], any number of callers of [Submit] and the consumer of
    [Results()] take atomic steps in any order. *)
Record System : Type := mkSystem {
  pool : Pool;
  goroutines : list goroutine;
  shutdown_pc : shutdown_state;
  panicked : bool;
  (* history, for the statements only *)
  accepted : list Job.t;      (* jobs for which [Submit] returned true *)
  emitted : list Result.t;    (* results sent on [p.results] *)
  observed : list Result.t;   (* results the consumer received *)
  consumer_done : bool        (* the consumer saw the channel closed *)
}.

Definition with_pool (s : System) (p : Pool) : System :=
  mkSystem p (goroutines s) (shutdown_pc s) (panicked s)
           (accepted s) (emitted s) (observed s) (consumer_done s).

Definition with_goroutine (s : System) (i : nat) (g : goroutine) : System :=
  mkSystem (pool s) (<[i := g]> (goroutines s)) (shutdown_pc s) (panicked s)
           (accepted s) (emitted s) (observed s) (consumer_done s).

Definition with_shutdown (s : System) (pc : shutdown_state) : System :=
  mkSystem (pool s) (goroutines s) pc (panicked s)
           (accepted s) (emitted s) (observed s) (consumer_done s).

Definition panic (s : System) : System :=
  mkSystem (pool s) (goroutines s) (shutdown_pc s) true
           (accepted s) (emitted s) (observed s) (consumer_done s).

Definition with_jobs (p : Pool) (js : chan Job.t) : Pool :=
  mkPool (workers p) js (results p) (wg p) (ctx_done p).

Definition with_results (p : Pool) (rs : chan Result.t) : Pool :=
  mkPool (workers p) (jobs p) rs (wg p) (ctx_done p).

Definition wg_Add (p : Pool) (delta : Z) : Pool :=
  mkPool (workers p) (jobs p) (results p) (wg p + delta) (ctx_done p).

(** One round of the loop of [Start]: [p.wg.Add(1); go p.worker(i)]. *)
Definition spawn (s : System) : System :=
  mkSystem (wg_Add (pool s) 1) (goroutines s ++ [WSelect]) (shutdown_pc s) (panicked s)
           (accepted s) (emitted s) (observed s) (consumer_done s).

(** [p.Start()]: [for i := 0; i < p.workers; i++]. *)
Definition Start (s : System) : System :=
  Nat.iter (Z.to_nat (workers (pool s))) spawn s.

(** [NewPool(workers, logger)] followed by [Start()]. *)
Definition boot (workers : Z) : option System :=
  match NewPool workers with
  | Some p => Some (Start (mkSystem p [] NotCalled false [] [] [] false))
  | None => None
  end.

(** The atomic steps: a call of [Submit] completes, a worker goroutine
    takes its next step, the caller of [Shutdown] takes its next step (the
    first is the call), the consumer's [range] receives. [pick] chooses
    among the cases of a [select] that can proceed; [env] is what
    [process] finds outside when the step enters it. *)
Inductive action : Type :=
| ASubmit (job : Job.t) (pick : nat)
| AWorker (id : nat) (pick : nat) (env : Env)
| AShutdown
| AConsume.

Definition is_submit (a : action) : bool :=
  match a with ASubmit _ _ => true | _ => false end.

Definition is_shutdown_call (a : action) : bool :=
  match a with AShutdown => true | _ => false end.

(** The caller's side of a graceful shutdown: no call of [Submit]
    completes once [Shutdown] has been called. *)
Fixpoint graceful (acts : list action) : bool :=
  match acts with
  | [] => true
  | a :: rest =>
      if is_shutdown_call a
      then forallb (fun b => negb (is_submit b)) rest
      else graceful rest
  end.

Section WithCodecs.
Context `{hasher.Codecs}.

(** [p.process(workerID, job)]: every path ends in one send on
    [p.results]; the function gives what happened before and the value
    sent. Fields left out of a composite literal are zero. *)
Definition process (workerID : Z) (env : Env) (job : Job.t) : list event * Result.t :=
  let ctx := match Job.Ctx job with Some c => c | None => Background end in
  match Err ctx (t_check env) with
  | Some err =>
      ([], Result.mk (Job.FileID job) "" 0 "" None
             (Some (Errorf "job cancelled before processing" err)))
  | None =>
      let started := Log "INFO" "processing started" workerID (Job.FileID job) in
      let r := hasher.ComputeMetadata (fs_hash env) (fs_extra env) (Job.FilePath job) in
      match Err ctx (t_done env) with
      | Some err =>
          ([started; Analyze (Job.FilePath job);
            Log "WARN" "job context cancelled during processing" workerID (Job.FileID job)],
           Result.mk (Job.FileID job) "" 0 "" None
             (Some (Errorf "job cancelled during processing" err)))
      | None =>
          match r with
          | Fail err =>
              ([started; Analyze (Job.FilePath job);
                Log "ERROR" "processing failed" workerID (Job.FileID job)],
               Result.mk (Job.FileID job) "" 0 "" None (Some err))
          | Ok meta =>
              ([started; Analyze (Job.FilePath job);
                Log "INFO" "processing completed" workerID (Job.FileID job)],
               Result.mk (Job.FileID job)
                 (hasher.Metadata.Hash meta)
                 (hasher.Metadata.Size meta)
                 (hasher.Metadata.Extension meta)
                 (Some (hasher.Metadata.Extra meta))
                 None)
          end
      end
  end.

(** [p.worker(id)], one step at a time: the [select], then
    [p.process(id, job)] up to its send, then the send, and back to the
    [select]; [return] runs the deferred [p.wg.Done()]. *)
Definition worker (id : nat) (pick : nat) (env : Env) (s : System) : option System :=
  match goroutines s !! id with
  | Some WSelect =>
      match worker_select (pool s) !! pick with
      | Some (Took job p) => Some (with_goroutine (with_pool s p) id (WProcess job))
      | Some Exits => Some (with_goroutine (with_pool s (wg_Add (pool s) (-1))) id WExited)
      | None => None
      end
  | Some (WProcess job) =>
      Some (with_goroutine s id (WSend (snd (process (Z.of_nat id) env job))))
  | Some (WSend r) =>
      match chan_send (results (pool s)) r with
      | SendOk rs =>
          Some (mkSystem (with_results (pool s) rs) (<[id := WSelect]> (goroutines s))
                  (shutdown_pc s) (panicked s)
                  (accepted s) (emitted s ++ [r]) (observed s) (consumer_done s))
      | SendPanics => Some (panic s)
      | SendBlocks => None
      end
  | Some WExited | None => None
  end.

(** [p.Shutdown()], one statement at a time: [close(p.jobs)], then
    [p.wg.Wait()], which returns when the counter is zero, then
    [close(p.results)]. The call is made once. *)
Definition Shutdown (s : System) : option System :=
  match shutdown_pc s with
  | NotCalled =>
      match chan_close (jobs (pool s)) with
      | Some js => Some (with_shutdown (with_pool s (with_jobs (pool s) js)) Waiting)
      | None => Some (panic s)
      end
  | Waiting => if wg (pool s) =? 0 then Some (with_shutdown s Closing) else None
  | Closing =>
      match chan_close (results (pool s)) with
      | Some rs => Some (with_shutdown (with_pool s (with_results (pool s) rs)) Returned)
      | None => Some (panic s)
      end
  | Returned => None
  end.

(** [exec a s]: the state after step [a], [None] when [a] cannot be
    taken in [s] (the goroutine is blocked or gone, or the process has
    died of a panic). *)
Definition exec (a : action) (s : System) : option System :=
  if panicked s then None else
  match a with
  | ASubmit job pick =>
      match Submit (pool s) job !! pick with
      | Some (Accepted p) =>
          Some (mkSystem p (goroutines s) (shutdown_pc s) (panicked s)
                  (accepted s ++ [job]) (emitted s) (observed s) (consumer_done s))
      | Some Refused => Some s
      | Some SubmitPanics => Some (panic s)
      | None => None
      end
  | AWorker id pick env => worker id pick env s
  | AShutdown => Shutdown s
  | AConsume =>
      if consumer_done s then None else
      match chan_recv (results (pool s)) with
      | RecvOk r rs =>
          Some (mkSystem (with_results (pool s) rs) (goroutines s)
                  (shutdown_pc s) (panicked s)
                  (accepted s) (emitted s) (observed s ++ [r]) (consumer_done s))
      | RecvClosed =>
          Some (mkSystem (pool s) (goroutines s) (shutdown_pc s) (panicked s)
                  (accepted s) (emitted s) (observed s) true)
      | RecvBlocks => None
      end
  end.

(** A schedule: the steps taken, in order. *)
Fixpoint run (acts : list action) (s : System) : option System :=
  match acts with
  | [] => Some s
  | a :: rest =>
      match exec a s with
      | Some s' => run rest s'
      | None => None
      end
  end.

End WithCodecs.

End worker.

(** ** Package [repository]: the persistence interface *)

Module repository.
Import Go.

Module FileRecord.
Record t : Type := mk {
  ID : string;
  Hash : string;
  Size : Z;
  Status : string;
  FilePath : string;
  CreatedAt : Time;
  Metadata : option (gmap string value)
}.
End FileRecord.

(** The interface [Repository]. [R] is the state of an implementation;
    a call gives the state afterwards and what it returns. The context
    argument (a deadline) is part of what makes a call fail or not. *)
Class Repository (R : Type) : Type := {
  Create : R -> FileRecord.t -> R * option error;
  GetByID : R -> string -> R * result FileRecord.t;
  ListAll : R -> R * result (list FileRecord.t);
  UpdateStatus : R -> string -> string -> R * option error;
  UpdateMetadata : R -> string -> string -> Z -> option (gmap string value) -> R * option error
}.

End repository.

(** ** Package [main]: the results consumer *)

Module main.
Import Go worker repository.

(** What the consumer does: log records and calls on the repository,
    each call with the error it returned. *)
Inductive event : Type :=
| Log (level msg : string) (file_id : string)
| CallUpdateStatus (id status : string) (err : option error)
| CallUpdateMetadata (id hash : string) (size : Z)
    (meta : option (gmap string value)) (err : option error).

Section WithRepository.
Context {R : Type} `{Repository R}.

(** The body of the loop of [handleResults] for one result. *)
Definition handle (res : Result.t) (repo : R) : list event * R :=
  match Result.Err res with
  | Some e =>
      let '(repo, err) := UpdateStatus repo (Result.FileID res) "failed" in
      (Log "ERROR" "processing failed for file" (Result.FileID res)
         :: CallUpdateStatus (Result.FileID res) "failed" err
         :: match err with
            | Some _ => [Log "ERROR" "update status to failed" ""]
            | None => []
            end,
       repo)
  | None =>
      let '(repo, err) :=
        UpdateMetadata repo (Result.FileID res) (Result.Hash res)
          (Result.Size res) (Result.Metadata res) in
      let call1 :=
        CallUpdateMetadata (Result.FileID res) (Result.Hash res)
          (Result.Size res) (Result.Metadata res) err in
      match err with
      | Some _ => ([call1; Log "ERROR" "update metadata" (Result.FileID res)], repo)
      | None =>
          let '(repo, err) := UpdateStatus repo (Result.FileID res) "completed" in
          ([call1;
            CallUpdateStatus (Result.FileID res) "completed" err;
            match err with
            | Some _ => Log "ERROR" "update status to completed" (Result.FileID res)
            | None => Log "INFO" "file processing completed" (Result.FileID res)
            end],
           repo)
      end
  end.

(** [handleResults(results, repo, logger)]: [results] is what the
    channel delivers until it is closed. *)
Fixpoint handleResults (results : list Result.t) (repo : R) : list event * R :=
  match results with
  | [] => ([], repo)
  | res :: rest =>
      let '(evs, repo) := handle res repo in
      let '(evs', repo) := handleResults rest repo in
      (evs ++ evs', repo)
  end.

End WithRepository.

(** The calls on the repository among the events. *)
Definition is_call (e : event) : bool :=
  match e with Log _ _ _ => false | _ => true end.

Definition calls (evs : list event) : list event := filter (fun e => is_call e = true) evs.

End main.

(** ** The errors of the database layer

    The errors that reach [mapDBError] and the HTTP handlers come from
    [database/sql], from the driver or from the context of the call.
    They are looked at through [Error()], [errors.Is] and [errors.As]
    only; the sentinels, the [%w] wrapper and any other error, by its
    message, are the constructors. *)

Module dberr.

Inductive error : Type :=
| ErrNoRows                            (* sql.ErrNoRows *)
| DeadlineExceeded                     (* context.DeadlineExceeded *)
| Canceled                             (* context.Canceled *)
| Other (number : bool) (msg : string)
    (* an error of another kind that wraps none, such as a
       [*mysql.MySQLError]: its message, and whether its type has a
       method [Number() uint16] *)
| Errorf (msg : string) (cause : error).   (* fmt.Errorf(msg + ": %w", cause) *)

#[export] Instance error_eq_dec : EqDecision error.
Proof. solve_decision. Defined.

(** [err.Error()]. *)
Fixpoint Error (err : error) : string :=
  match err with
  | ErrNoRows => "sql: no rows in result set"
  | DeadlineExceeded => "context deadline exceeded"
  | Canceled => "context canceled"
  | Other _ msg => msg
  | Errorf msg cause => msg +:+ ": " +:+ Error cause
  end.

(** [errors.Is(err, target)] for a sentinel [target]: the chain of [%w]
    wrappers is followed down to its root. *)
Fixpoint errors_Is (err target : error) : bool :=
  match err with
  | Errorf _ cause => errors_Is cause target
  | _ => bool_decide (err = target)
  end.

(** [errors.As(err, new(interface{ Number() uint16 }))]. *)
Fixpoint errors_As_Number (err : error) : bool :=
  match err with
  | Other number _ => number
  | Errorf _ cause => errors_As_Number cause
  | _ => false
  end.

End dberr.

(** ** Package [repository]: [MySQLRepo]

    Each method runs one prepared statement and wraps the error it
    gets; the outcome of the statement is the argument. *)

Module mysql.
Import Go repository.

(** [Create]: [stmtCreate.ExecContext]. *)
Definition Create (exec : option dberr.error) : option dberr.error :=
  match exec with
  | Some err => Some (dberr.Errorf "repo create" err)
  | None => None
  end.

(** [GetByID]: [stmtGetByID.QueryRowContext(ctx, id).Scan(...)]; the
    record is the row with its metadata column decoded, an error of the
    decoding being ignored. *)
Definition GetByID (scan : dberr.error + FileRecord.t) : dberr.error + FileRecord.t :=
  match scan with
  | inl err => inl (dberr.Errorf "repo getByID" err)
  | inr rec => inr rec
  end.

End mysql.

(** ** Package [grpcserver] *)

Module codes.
Inductive Code : Type :=
| OK | Canceled | Unknown | InvalidArgument | DeadlineExceeded | NotFound
| AlreadyExists | PermissionDenied | ResourceExhausted | FailedPrecondition
| Aborted | OutOfRange | Unimplemented | Internal | Unavailable | DataLoss
| Unauthenticated.
End codes.

Module grpcserver.
Import Go.

(** A gRPC status error: [status.Errorf(code, format, ...)]. *)
Record Status : Type := mkStatus {
  Code : codes.Code;
  Message : string
}.

Record RegisterFileRequest : Type := mkRegisterFileRequest {
  req_Id : string;
  req_FilePath : string;
  req_Status : string
}.

Record RegisterFileResponse : Type := mkRegisterFileResponse {
  resp_Id : string;
  resp_Status : string
}.

(** The loop of [stringContains]: [for i := ...; i <= len(s)-len(substr);
    i++]. It makes at most [len(s) + 1] rounds. *)
Fixpoint stringContains_from (rounds : nat) (i : Z) (s substr : string) : bool :=
  match rounds with
  | O => false
  | S rounds' =>
      if i <=? len s - len substr then
        if String.eqb (slice s i (i + len substr)) substr then true
        else stringContains_from rounds' (i + 1) s substr
      else false
  end.

Definition stringContains (s substr : string) : bool :=
  stringContains_from (S (String.length s)) 0 s substr.

Definition containsDuplicate (err : option dberr.error) : bool :=
  match err with
  | None => false
  | Some err =>
      (0 <? len (dberr.Error err)) &&
      (String.eqb (dberr.Error err) "Duplicate entry"
       || ((15 <? len (dberr.Error err))
           && String.eqb (slice (dberr.Error err) 0 15) "Duplicate entry")
       || stringContains (dberr.Error err) "Duplicate entry")
  end.

Definition isDuplicateEntry (err : option dberr.error) : bool :=
  match err with
  | None => false
  | Some e =>
      negb (String.eqb (dberr.Error e) "") &&
      (dberr.errors_As_Number e || containsDuplicate err)
  end.

Definition mapDBError (err : dberr.error) (method : string) : Status :=
  if dberr.errors_Is err dberr.ErrNoRows then
    mkStatus codes.NotFound (method +:+ ": file not found")
  else if isDuplicateEntry (Some err) then
    mkStatus codes.AlreadyExists (method +:+ ": file already exists")
  else if dberr.errors_Is err dberr.DeadlineExceeded then
    mkStatus codes.DeadlineExceeded (method +:+ ": database timeout")
  else mkStatus codes.Internal (method +:+ ": " +:+ dberr.Error err).

(** [RegisterFile]: [create] is [s.repo.Create], which gets the record
    built from the request. *)
Definition RegisterFile (create : repository.FileRecord.t -> option dberr.error)
    (req : RegisterFileRequest) : Status + RegisterFileResponse :=
  let rec := repository.FileRecord.mk (req_Id req) "" 0 (req_Status req)
               (req_FilePath req) 0%nat None in
  match create rec with
  | Some err => inl (mapDBError err "RegisterFile")
  | None => inr (mkRegisterFileResponse (req_Id req) (req_Status req))
  end.

End grpcserver.

(** ** Package [restapi]: the REST gateway *)

Module restapi.
Import Go worker.

Definition StatusOK : Z := 200.
Definition StatusAccepted : Z := 202.
Definition StatusBadRequest : Z := 400.
Definition StatusUnauthorized : Z := 401.
Definition StatusForbidden : Z := 403.
Definition StatusNotFound : Z := 404.
Definition StatusConflict : Z := 409.
Definition StatusInternalServerError : Z := 500.
Definition StatusServiceUnavailable : Z := 503.
Definition StatusGatewayTimeout : Z := 504.

(** The error of a call on [pb.GopherDriveServer]: one that carries a
    gRPC status, or any other. *)
Inductive rpc_error : Type :=
| StatusError (st : grpcserver.Status)
| PlainError (err : dberr.error).

(** [grpcToHTTPStatus(err)]: [status.FromError] answers [ok] for a status
    error only. *)
Definition grpcToHTTPStatus (err : rpc_error) : Z :=
  match err with
  | PlainError _ => StatusInternalServerError
  | StatusError st =>
      match grpcserver.Code st with
      | codes.NotFound => StatusNotFound
      | codes.AlreadyExists => StatusConflict
      | codes.InvalidArgument => StatusBadRequest
      | codes.DeadlineExceeded => StatusGatewayTimeout
      | codes.Unauthenticated => StatusUnauthorized
      | codes.PermissionDenied => StatusForbidden
      | codes.Unavailable => StatusServiceUnavailable
      | _ => StatusInternalServerError
      end
  end.

(** The name and the place [uploadFile] gives an upload, and its check
    of the place. *)
Definition safeFilename (fileID filename : string) : string :=
  fileID +:+ filepath_Ext filename.

Definition destPath (uploadDir fileID filename : string) : string :=
  filepath_Clean (filepath_Join [uploadDir; safeFilename fileID filename]).

Definition inside (uploadDir dest : string) : bool :=
  strings_HasPrefix dest (filepath_Clean uploadDir +:+ "/").

(** What [uploadFile] finds outside: the form of the request, the id
    [uuid.New().String()] gives the file, whether each step on the disk
    works, what [h.grpc.RegisterFile] answers, and which of the cases of
    the [select] of [Submit] that can proceed the runtime takes. *)
Record Upload : Type := mkUpload {
  form_file : option string;   (* [header.Filename]; [None]: [r.FormFile] failed *)
  new_id : string;
  create_temp : bool;
  copy : bool;
  flush : bool;
  rename : bool;
  register : grpcserver.RegisterFileRequest -> option rpc_error;
  pick : nat
}.

(** What [uploadFile] does outside, in order. *)
Inductive effect : Type :=
| CreateTemp                                      (* [os.CreateTemp] gave a file *)
| RemoveTemp                                      (* [os.Remove(tmpPath)] *)
| Rename (dest : string)                          (* the upload is at [dest] *)
| CallRegisterFile (req : grpcserver.RegisterFileRequest)
| CallSubmit (job : Job.t).                       (* [h.pool.Submit(job)] is called *)

(** How a call of a handler ends: with a response; with a panic, which
    the server recovers by dropping the connection, nothing written; or
    not yet, the goroutine waiting. *)
Inductive outcome : Type :=
| Responds (status : Z)
| Panics
| Blocks.

(** The case a [select] takes among those that can proceed: none when
    there is none. *)
Definition choose {A : Type} (ready : list A) (pick : nat) : option A :=
  ready !! (pick mod length ready)%nat.

(** [uploadFile], on the pool [p]: the effects, how the call ends and
    the pool afterwards. The status 202 is written after [Submit] has
    returned, whatever it returned. *)
Definition uploadFile (uploadDir : string) (p : Pool) (u : Upload)
  : list effect * outcome * Pool :=
  match form_file u with
  | None => ([], Responds StatusBadRequest, p)
  | Some filename =>
      let dest := destPath uploadDir (new_id u) filename in
      if negb (inside uploadDir dest) then ([], Responds StatusBadRequest, p)
      else if negb (create_temp u) then ([], Responds StatusInternalServerError, p)
      else if negb (copy u)
      then ([CreateTemp; RemoveTemp], Responds StatusInternalServerError, p)
      else if negb (flush u)
      then ([CreateTemp; RemoveTemp], Responds StatusInternalServerError, p)
      else if negb (rename u)
      then ([CreateTemp; RemoveTemp], Responds StatusInternalServerError, p)
      else
        let req := grpcserver.mkRegisterFileRequest (new_id u) dest "pending" in
        match register u req with
        | Some err =>
            ([CreateTemp; Rename dest; CallRegisterFile req],
             Responds (grpcToHTTPStatus err), p)
        | None =>
            let job := Job.mk (Some Background) (new_id u) dest in
            let effects := [CreateTemp; Rename dest; CallRegisterFile req; CallSubmit job] in
            match choose (Submit p job) (pick u) with
            | Some (Accepted p') => (effects, Responds StatusAccepted, p')
            | Some Refused => (effects, Responds StatusAccepted, p)
            | Some SubmitPanics => (effects, Panics, p)
            | None => (effects, Blocks, p)
            end
        end
  end.

(** [getFile]: the status of the response and the record it shows.
    [get] is [h.repo.GetByID]. *)
Definition getFile (get : string -> dberr.error + repository.FileRecord.t) (id : string)
  : Z * option repository.FileRecord.t :=
  if String.eqb id "" then (StatusBadRequest, None)
  else match get id with
       | inl err =>
           if dberr.errors_Is err dberr.ErrNoRows then (StatusNotFound, None)
           else (StatusInternalServerError, None)
       | inr rec => (StatusOK, Some rec)
       end.

End restapi.

(** ** The wiring of the entry point

    [main] hands the REST handler the gRPC service itself, and the
    service the [MySQLRepo]: a call of [h.grpc.RegisterFile] is a call
    of [grpcserver.RegisterFile] in process. [exec] is the outcome of
    the [INSERT] for a record. *)

Module entry.
Import restapi.

Definition numWorkers : Z := 5.
Definition uploadDir : string := "./data".

Definition RegisterFile (exec : repository.FileRecord.t -> option dberr.error)
    (req : grpcserver.RegisterFileRequest) : option rpc_error :=
  match grpcserver.RegisterFile (fun rec => mysql.Create (exec rec)) req with
  | inl st => Some (StatusError st)
  | inr _ => None
  end.

Definition GetByID (scan : string -> dberr.error + repository.FileRecord.t)
    (id : string) : dberr.error + repository.FileRecord.t :=
  mysql.GetByID (scan id).

End entry.


(** ** Notions used in the statements *)

Module notions.
Import Go hasher worker.

(** The number of lines of a text, in the claim's words: the lines that
    end in a newline, and a last line without one when it is not empty. *)
Fixpoint spec_lines (content : list byte) : Z :=
  match content with
  | [] => 0
  | b :: rest =>
      if Byte.eqb b x0a then 1 + spec_lines rest
      else match rest with
           | [] => 1
           | _ => spec_lines rest
           end
  end.

(** The number of whitespace-delimited tokens of a text: the fields of the
    whole text, white space being what [bytes.Fields] takes it to be. *)
Definition spec_words (content : list byte) : Z :=
  Z.of_nat (length (bytes_Fields content)).

(** The first line of a text, and what follows its newline when it has
    one. *)
Fixpoint cut_line (s : list byte) : list byte * option (list byte) :=
  match s with
  | [] => ([], None)
  | b :: rest =>
      if Byte.eqb b x0a then ([], Some rest)
      else let '(line, after) := cut_line rest in (b :: line, after)
  end.

(** Every line fits the scanner's buffer: fewer than [MaxScanTokenSize]
    bytes before its newline or the end of the text. [cur] is the length of
    the line so far. *)
Fixpoint short_lines_from (cur : nat) (s : list byte) : bool :=
  match s with
  | [] => true
  | b :: rest =>
      if Byte.eqb b x0a then short_lines_from 0 rest
      else (S cur <? MaxScanTokenSize)%nat && short_lines_from (S cur) rest
  end.

Definition short_lines (s : list byte) : bool := short_lines_from 0 s.

(** Every line of a text has its newline. *)
Definition whole_lines (s : list byte) : bool :=
  match last s with
  | Some c => Byte.eqb c x0a
  | None => true
  end.

(** The scanner as the loop of [analyzeText] leaves it, after the call
    of [Scan] that answers false: its [scan_err] is what [scanner.Err()]
    would say. *)
Fixpoint scan_rest (fuel : nat) (scanner : Scanner) : Scanner :=
  match fuel with
  | O => scanner
  | S fuel' =>
      match Scan scanner with
      | (true, scanner') => scan_rest fuel' scanner'
      | (false, scanner') => scanner'
      end
  end.

(** A result without analysis output, if it is a failure. *)
Definition bare (r : Result.t) : Prop :=
  Result.Err r <> None ->
  Result.Hash r = "" /\ Result.Size r = 0 /\ Result.Extension r = "" /\
  Result.Metadata r = None.

Definition all_bare (s : System) : Prop :=
  Forall bare (emitted s) /\
  Forall (fun g => match g with WSend r => bare r | _ => True end) (goroutines s).

(** Whether a goroutine still counts in the wait group. *)
Definition alive (g : goroutine) : nat :=
  match g with WExited => 0 | _ => 1 end%nat.

(** The job a goroutine holds, by the id of the job or of its result. *)
Definition inflight (g : goroutine) : list string :=
  match g with
  | WProcess job => [Job.FileID job]
  | WSend r => [Result.FileID r]
  | _ => []
  end.

Definition occ (x : string) (ids : list string) : nat := count_occ string_dec ids x.

Definition pending (x : string) (gs : list goroutine) : nat :=
  sum_list_with (fun g => occ x (inflight g)) gs.

(** The steps a goroutine still has to take once the queue is closed
    and empty: receive, process, send for a job, and the exit. *)
Definition weight (g : goroutine) : nat :=
  match g with
  | WSelect => 1
  | WProcess _ => 4
  | WSend _ => 3
  | WExited => 0
  end%nat.

Definition shutdown_weight (pc : shutdown_state) : nat :=
  match pc with
  | NotCalled => 3
  | Waiting => 2
  | Closing => 1
  | Returned => 0
  end%nat.

(** The number of steps left when no further job is submitted. *)
Definition measure (s : System) : nat :=
  (4 * length (buf (jobs (pool s)))
   + sum_list_with weight (goroutines s)
   + length (buf (results (pool s)))
   + shutdown_weight (shutdown_pc s)
   + (if consumer_done s then 0 else 1))%nat.

Definition not_called (pc : shutdown_state) : bool :=
  match pc with NotCalled => true | _ => false end.

Definition returned (pc : shutdown_state) : bool :=
  match pc with Returned => true | _ => false end.

(** What holds of the pool of [w] workers in every state it can reach
    while its callers keep to the rule of graceful shutdown. *)
Record Inv (w : Z) (s : System) : Prop := mkInv {
  inv_alive : panicked s = false;
  inv_ctx : ctx_done (pool s) = false;
  inv_workers : Z.of_nat (length (goroutines s)) = w;
  inv_cap_jobs : cap (jobs (pool s)) = 2 * w;
  inv_cap_results : cap (results (pool s)) = 2 * w;
  inv_wg : wg (pool s) = Z.of_nat (sum_list_with alive (goroutines s));
  inv_jobs_closed : closed (jobs (pool s)) = negb (not_called (shutdown_pc s));
  inv_results_closed : closed (results (pool s)) = returned (shutdown_pc s);
  inv_waited :
    shutdown_pc s = Closing \/ shutdown_pc s = Returned -> wg (pool s) = 0;
  inv_exit :
    wg (pool s) = w \/ (buf (jobs (pool s)) = [] /\ closed (jobs (pool s)) = true);
  inv_jobs_len : Z.of_nat (length (buf (jobs (pool s)))) <= 2 * w;
  inv_count : forall x,
    occ x (map Job.FileID (accepted s)) =
      (occ x (map Job.FileID (buf (jobs (pool s))))
       + pending x (goroutines s)
       + occ x (map Result.FileID (emitted s)))%nat;
  inv_stream : emitted s = observed s ++ buf (results (pool s));
  inv_done :
    consumer_done s = true ->
    closed (results (pool s)) = true /\ buf (results (pool s)) = []
}.

(** The rule a caller keeps to at a step: [Submit] only completes while
    [Shutdown] has not been called. *)
Definition allowed (s : System) (a : action) : Prop :=
  is_submit a = true -> shutdown_pc s = NotCalled.

(** The rule of graceful shutdown for what remains of a schedule. *)
Definition disciplined (s : System) (acts : list action) : Prop :=
  if not_called (shutdown_pc s)
  then graceful acts = true
  else forallb (fun b => negb (is_submit b)) acts = true.

(** The ids of the jobs the workers hold, worker by worker. *)
Definition held (gs : list goroutine) : list string := flat_map inflight gs.

(** What holds of the pool of [w] workers in every state it can reach,
    whatever its callers do. *)
Record Bounded (w : Z) (s : System) : Prop := mkBounded {
  bd_workers : Z.of_nat (length (goroutines s)) = w;
  bd_cap_jobs : cap (jobs (pool s)) = 2 * w;
  bd_cap_results : cap (results (pool s)) = 2 * w;
  bd_jobs : Z.of_nat (length (buf (jobs (pool s)))) <= 2 * w;
  bd_results : Z.of_nat (length (buf (results (pool s)))) <= 2 * w;
  bd_length :
    length (accepted s) =
      (length (buf (jobs (pool s))) + length (held (goroutines s))
       + length (emitted s))%nat;
  bd_stream : emitted s = observed s ++ buf (results (pool s))
}.

(** Jobs leave the pool in the order they came in. *)
Definition fifo (s : System) : Prop :=
  map Job.FileID (accepted s) =
    map Result.FileID (emitted s) ++ held (goroutines s)
    ++ map Job.FileID (buf (jobs (pool s))).

(** The order of the consumer's calls on the repository: a status
    "failed" stands alone, so does a metadata update that failed, and a
    metadata update that worked is followed by the status "completed" of
    the same file. *)
Fixpoint in_protocol (calls : list main.event) : bool :=
  match calls with
  | [] => true
  | main.CallUpdateStatus _ status _ :: rest =>
      String.eqb status "failed" && in_protocol rest
  | main.CallUpdateMetadata _ _ _ _ (Some _) :: rest => in_protocol rest
  | main.CallUpdateMetadata id _ _ _ None :: main.CallUpdateStatus id' status _ :: rest =>
      String.eqb id id' && String.eqb status "completed" && in_protocol rest
  | _ => false
  end.

(** A string without a separator. *)
Fixpoint no_slash (s : string) : bool :=
  match s with
  | EmptyString => true
  | String c rest => negb (Ascii.eqb c "/") && no_slash rest
  end.

(** A string without a separator and without a dot, as the text of a
    UUID is. *)
Fixpoint plain (s : string) : bool :=
  match s with
  | EmptyString => true
  | String c rest => negb (Ascii.eqb c "/") && negb (Ascii.eqb c ".") && plain rest
  end.

(** Bytes that can follow the dot of an extension. *)
Definition tail_ok (r : list ascii) : Prop :=
  Forall (fun c => Ascii.eqb c "/" = false /\ Ascii.eqb c "." = false) r.

(** A path element that names something: not empty, not [.] or [..]. *)
Definition real (e : string) : bool :=
  no_slash e && negb (String.eqb e "") && negb (String.eqb e ".")
  && negb (String.eqb e "..").

(** The elements [filepath.Clean] keeps, last one first: names, on top
    of the [..] that lead a relative path. *)
Definition kept (rooted : bool) (out : list string) : Prop :=
  exists (names : list string) (n : nat),
    out = names ++ replicate n ".." /\
    Forall (fun e => real e = true) names /\
    (rooted = true -> n = 0%nat).

(** The path made of the elements kept. *)
Definition render (rooted : bool) (out : list string) : string :=
  if rooted then "/" +:+ String.concat "/" (rev out)
  else match out with
       | [] => "."
       | _ => String.concat "/" (rev out)
       end.

Section WithCodecs.
Context `{Codecs}.

(** The metadata bundle after the category step, for a MIME type. *)
Definition enriched (fs' : FS) (path mime : string) : gmap string value :=
  let base : gmap string value := {[ "mime_type" := VString mime ]} in
  if strings_HasPrefix mime "image/" then
    match analyzeImage fs' path with Ok args => args ∪ base | Fail _ => base end
  else if strings_HasPrefix mime "text/" then
    match analyzeText fs' path with Ok args => args ∪ base | Fail _ => base end
  else base.

End WithCodecs.

End notions.

(** ** Examples to run the model on *)

Module fixtures.
Import Go hasher worker repository.

Definition bytes (s : string) : list byte := list_byte_of_string s.

(** Stand-ins for the library functions of [Codecs]: a sniffer that
    knows the PNG signature and printable text, a decoder that reads
    width and height from the two bytes after the signature, and a
    digest that keeps the first 32 bytes. *)
Definition printable (b : byte) : bool :=
  let z := byteZ b in ((9 <=? z) && (z <=? 13)) || ((32 <=? z) && (z <=? 126)).

Definition sniff (head : list byte) : string :=
  match head with
  | x89 :: x50 :: x4e :: x47 :: _ => "image/png"
  | _ => if forallb printable head then "text/plain; charset=utf-8"
         else "application/octet-stream"
  end.

Definition decode_header (img : list byte) : result (Z * Z) :=
  match img with
  | x89 :: x50 :: x4e :: x47 :: w :: h :: _ => Ok (byteZ w, byteZ h)
  | _ => Fail (Errno "decode" "" "image: unknown format")
  end.

#[export] Instance codecs : Codecs := {|
  sha256_Sum := fun h => take 32 h;
  http_DetectContentType := sniff;
  image_DecodeConfig := decode_header
|}.

(** Three lines, ten words. *)
Definition notes : list byte :=
  bytes "alpha beta gamma" ++ [x0a]
  ++ bytes "delta epsilon zeta eta" ++ [x0a]
  ++ bytes "theta iota kappa" ++ [x0a].

(** A line too long for the scanner's buffer, then two short lines. *)
Definition long_line : list byte :=
  repeat x61 (Z.to_nat 65536) ++ [x0a] ++ bytes "second line" ++ [x0a] ++ bytes "third" ++ [x0a].

Definition disk : FS := fun path =>
  if String.eqb path "/data/notes.txt" then Regular notes
  else if String.eqb path "/data/long.txt" then Regular long_line
  else if String.eqb path "/data/broken.png" then Regular [x89; x50; x4e; x47]
  else if String.eqb path "/data/blob.bin" then Regular [x00; x01; x02]
  else if String.eqb path "/data" then Directory
  else Missing "no such file or directory".

(** The disk after the uploads have been removed. *)
Definition wiped : FS := fun path =>
  if String.eqb path "/data" then Directory else Missing "no such file or directory".

Definition cancelled : Context := {| Err := fun _ => Some Canceled |}.

Definition job1 : Job.t := Job.mk (Some Background) "id-1" "/data/notes.txt".
Definition job2 : Job.t := Job.mk None "id-2" "/data/blob.bin".
Definition job3 : Job.t := Job.mk (Some cancelled) "id-3" "/data/notes.txt".
Definition job4 : Job.t := Job.mk None "id-4" "/data/gone.txt".

Definition env0 : Env := mkEnv 0%nat 1%nat disk disk.

(** Two jobs, [Shutdown], then one worker and the consumer to the end. *)
Definition schedule : list action :=
  [ASubmit job1 0; ASubmit job2 0; AShutdown;
   AWorker 0 0 env0; AWorker 0 0 env0; AWorker 0 0 env0; AConsume;
   AWorker 0 0 env0; AWorker 0 0 env0; AWorker 0 0 env0;
   AWorker 0 0 env0; AShutdown; AShutdown; AConsume; AConsume]%nat.

(** The pool of one worker after [Start], and after [schedule]. *)
Definition booted : System :=
  Start (mkSystem (mkPool 1 (mkChan [] 2 false) (mkChan [] 2 false) 0 false)
           [] NotCalled false [] [] [] false).

Definition drained : System :=
  Eval vm_compute in
    match run schedule booted with Some s => s | None => booted end.

(** The pool of the entry point, five workers, after [Start], and after
    [Shutdown] has closed the job queue. *)
Definition booted5 : System :=
  Start (mkSystem (mkPool 5 (mkChan [] 10 false) (mkChan [] 10 false) 0 false)
           [] NotCalled false [] [] [] false).

Definition closing5 : System :=
  Eval vm_compute in
    match run [AShutdown] booted5 with Some s => s | None => booted5 end.

(** A repository in memory whose calls fail by a script: the head of
    [outages] says whether the next call finds the store unavailable. *)
Record Store : Type := mkStore {
  records : gmap string FileRecord.t;
  outages : list bool
}.

Definition attempt (st : Store) (update : gmap string FileRecord.t -> gmap string FileRecord.t)
  : Store * option error :=
  match outages st with
  | true :: later => (mkStore (records st) later, Some (Errno "exec" "" "store unavailable"))
  | false :: later => (mkStore (update (records st)) later, None)
  | [] => (mkStore (update (records st)) [], None)
  end.

Definition set_status (status : string) (rec : FileRecord.t) : FileRecord.t :=
  FileRecord.mk (FileRecord.ID rec) (FileRecord.Hash rec) (FileRecord.Size rec) status
    (FileRecord.FilePath rec) (FileRecord.CreatedAt rec) (FileRecord.Metadata rec).

Definition set_metadata (hash : string) (size : Z) (meta : option (gmap string value))
    (rec : FileRecord.t) : FileRecord.t :=
  FileRecord.mk (FileRecord.ID rec) hash size (FileRecord.Status rec)
    (FileRecord.FilePath rec) (FileRecord.CreatedAt rec) meta.

#[export] Instance store_repository : Repository Store := {|
  Create := fun st rec => attempt st (fun m => <[FileRecord.ID rec := rec]> m);
  GetByID := fun st id =>
    (st, match records st !! id with
         | Some rec => Ok rec
         | None => Fail (Errno "query" id "sql: no rows in result set")
         end);
  ListAll := fun st => (st, Ok (map snd (map_to_list (records st))));
  UpdateStatus := fun st id status => attempt st (fun m => alter (set_status status) id m);
  UpdateMetadata := fun st id hash size meta =>
    attempt st (fun m => alter (set_metadata hash size meta) id m)
|}.

(** The store is down for the first call and back afterwards. *)
Definition outage : Store := mkStore ∅ [true; false; false].

Definition failed1 : Result.t :=
  Result.mk "id-3" "" 0 "" None (Some (Errorf "job cancelled before processing" Canceled)).

Definition done2 : Result.t :=
  Result.mk "id-2" "000102" 3 ".bin"
    (Some {[ "mime_type" := VString "application/octet-stream" ]}) None.

(** The pool of one worker with its job queue full. *)
Definition full1 : System :=
  Eval vm_compute in
    match run [ASubmit job1 0; ASubmit job2 0]%nat booted with
    | Some s => s
    | None => booted
    end.

(** One job, through the worker to the consumer; and the pool of one
    worker at rest after it, [Shutdown] not called. *)
Definition one_job : list action :=
  [ASubmit job1 0; AWorker 0 0 env0; AWorker 0 0 env0; AWorker 0 0 env0; AConsume]%nat.

Definition idle1 : System :=
  Eval vm_compute in
    match run one_job booted with
    | Some s => s
    | None => booted
    end.

(** The metadata of [notes] under the stand-in codecs. *)
Definition notes_meta : Metadata.t :=
  Metadata.mk (hex_EncodeToString (take 32 notes)) 57 ".txt"
    {[ "mime_type" := VString "text/plain; charset=utf-8";
       "lines" := VInt 3; "words" := VInt 10 ]}.

Definition uuid1 : string := "550e8400-e29b-41d4-a716-446655440000".

(** What the driver answers to an [INSERT] of a key that exists. *)
Definition duplicate_key : dberr.error :=
  dberr.Other false
    "Error 1062 (23000): Duplicate entry '550e8400' for key 'files.PRIMARY'".

(** An upload of [report.final.pdf] on a disk that works, registered
    in a database that has the id already; and the same in a database
    that takes it. *)
Definition upload1 : restapi.Upload :=
  restapi.mkUpload (Some "report.final.pdf") uuid1 true true true true
    (entry.RegisterFile (fun _ => Some duplicate_key)) 0.

Definition upload2 : restapi.Upload :=
  restapi.mkUpload (Some "report.final.pdf") uuid1 true true true true
    (entry.RegisterFile (fun _ => None)) 0.

End fixtures.

(** ** Properties *)

(** *** Library facts *)

Section GoFacts.
Import Go.

Lemma wrap64_small (z : Z) : - 2 ^ 63 <= z < 2 ^ 63 -> wrap64 z = z.
Proof. intros Hz. unfold wrap64. rewrite Z.mod_small; lia. Qed.

Lemma int_add_small (a b : Z) : - 2 ^ 63 <= a + b < 2 ^ 63 -> int_add a b = a + b.
Proof. apply wrap64_small. Qed.

Lemma copy_buf_pos : (0 < copy_buf)%nat.
Proof. unfold copy_buf. lia. Qed.

Lemma take_nil_inv {A : Type} (n : nat) (l : list A) :
  (0 < n)%nat -> take n l = [] -> l = [].
Proof. destruct n, l; simpl; intros; (lia || congruence). Qed.

Lemma take_drop_length {A : Type} (n : nat) (l : list A) :
  take n l ++ drop (length (take n l)) l = l.
Proof. revert l. induction n; intros [| x l]; simpl; f_equal; auto. Qed.

(** Reading a regular file: the next bytes, or [io.EOF] at the end. *)
Lemma File_Read_regular (nm : string) (content : list byte) (off len : nat) :
  (0 < len)%nat ->
  File_Read (mkFile nm (Some content) off) len =
    match drop off content with
    | [] => ([], Some EOF, mkFile nm (Some content) off)
    | _ => (take len (drop off content), None,
            mkFile nm (Some content) (off + length (take len (drop off content))))
    end.
Proof.
  intros Hlen. unfold File_Read. simpl.
  destruct (take len (drop off content)) as [| b chunk] eqn:E.
  - apply take_nil_inv in E; [| exact Hlen]. rewrite E.
    destruct len; [lia | reflexivity].
  - destruct (drop off content); [destruct len; discriminate | reflexivity].
Qed.

(** [io.Copy] from a regular file writes all that is left of it, counts
    it, and reports no error: the fuel of the loop is never used up. *)
Lemma copy_loop_regular (fuel : nat) :
  forall (nm : string) (content : list byte) (off : nat) (h : Hash) (written : Z),
    (length (drop off content) < fuel)%nat ->
    0 <= written ->
    written + Z.of_nat (length (drop off content)) < 2 ^ 63 ->
    copy_loop fuel h (mkFile nm (Some content) off) written =
      (h ++ drop off content,
       written + Z.of_nat (length (drop off content)),
       None,
       mkFile nm (Some content) (off + length (drop off content))).
Proof.
  induction fuel as [| fuel IH]; intros nm content off h written Hfuel Hw Hbound; [lia |].
  cbn [copy_loop]. rewrite File_Read_regular by apply copy_buf_pos.
  destruct (drop off content) as [| b rest] eqn:E.
  - simpl. rewrite app_nil_r, Z.add_0_r, Nat.add_0_r. reflexivity.
  - set (chunk := take copy_buf (b :: rest)).
    assert (chunk <> []) as Hne.
    { unfold chunk. pose proof copy_buf_pos. destruct copy_buf; [lia | discriminate]. }
    assert (drop (off + length chunk) content = drop (length chunk) (b :: rest)) as Hd.
    { rewrite <- E, drop_drop. reflexivity. }
    assert (length chunk + length (drop (length chunk) (b :: rest)) = length (b :: rest))%nat as Hl.
    { rewrite length_drop. unfold chunk. rewrite length_take. lia. }
    assert (0 < length chunk)%nat as Hpos by (destruct chunk; [congruence | simpl; lia]).
    destruct chunk as [| c0 chunk'] eqn:Ec; [congruence |]. rewrite <- Ec in *.
    rewrite int_add_small by lia.
    rewrite IH; rewrite ?Hd; try lia.
    assert (chunk ++ drop (length chunk) (b :: rest) = b :: rest) as Hcat
      by apply take_drop_length.
    unfold Hash_Write. rewrite <- app_assoc, Hcat.
    replace (written + Z.of_nat (length chunk)
             + Z.of_nat (length (drop (length chunk) (b :: rest))))
      with (written + Z.of_nat (length (b :: rest))) by lia.
    replace (off + length chunk + length (drop (length chunk) (b :: rest)))%nat
      with (off + length (b :: rest))%nat by lia.
    reflexivity.
Qed.

Lemma io_Copy_regular (nm : string) (content : list byte) (h : Hash) :
  Z.of_nat (length content) < 2 ^ 63 ->
  io_Copy h (mkFile nm (Some content) 0) =
    (h ++ content, Z.of_nat (length content), None,
     mkFile nm (Some content) (length content)).
Proof.
  intros Hb. unfold io_Copy, file_rest. cbn [data offset].
  rewrite copy_loop_regular; rewrite ?drop_0; try lia.
  reflexivity.
Qed.

(** The fuel of the copy loop is never used up: whatever the size of the
    file, [io.Copy] from a regular file ends without an error. *)
Lemma copy_loop_total (fuel : nat) :
  forall (nm : string) (content : list byte) (off : nat) (h : Hash) (written : Z),
    (length (drop off content) < fuel)%nat ->
    exists h' n f',
      copy_loop fuel h (mkFile nm (Some content) off) written = (h', n, None, f').
Proof.
  induction fuel as [| fuel IH]; intros nm content off h written Hfuel; [lia |].
  cbn [copy_loop]. rewrite File_Read_regular by apply copy_buf_pos.
  destruct (drop off content) as [| b rest] eqn:E.
  - eexists _, _, _. reflexivity.
  - set (chunk := take copy_buf (b :: rest)).
    assert (0 < length chunk)%nat as Hpos.
    { unfold chunk. rewrite length_take. pose proof copy_buf_pos. cbn [length]. lia. }
    assert (length (drop (off + length chunk) content) < fuel)%nat as Hlt.
    { rewrite <- drop_drop, E, length_drop. cbn [length] in Hfuel |- *. lia. }
    destruct chunk as [| c0 chunk'] eqn:Ec; [cbn [length] in Hpos; lia |]. rewrite <- Ec in *.
    apply IH. exact Hlt.
Qed.

Lemma io_Copy_total (nm : string) (content : list byte) (off : nat) (h : Hash) :
  exists h' n f', io_Copy h (mkFile nm (Some content) off) = (h', n, None, f').
Proof. unfold io_Copy, file_rest. cbn [data offset]. apply copy_loop_total. lia. Qed.

End GoFacts.

(** *** The analyzer *)

Section Analyzer.
Import Go hasher notions.
Context `{Codecs}.

(** On a regular file [ComputeMetadata] cannot fail, and this is what
    it returns. *)
Lemma ComputeMetadata_regular (fs fs' : FS) (path : string) (content : list byte) :
  fs path = Regular content ->
  Z.of_nat (length content) < 2 ^ 63 ->
  ComputeMetadata fs fs' path =
    Ok (Metadata.mk
          (hex_EncodeToString (sha256_Sum content))
          (Z.of_nat (length content))
          (filepath_Ext path)
          (enriched fs' path (http_DetectContentType (take 512 content)))).
Proof.
  intros Hfs Hlen. unfold ComputeMetadata, os_Open. rewrite Hfs.
  rewrite File_Read_regular by lia. rewrite drop_0.
  destruct content as [| b content'] eqn:Ec.
  - simpl. reflexivity.
  - rewrite <- Ec in *. unfold File_Seek.
    cbn [data name offset Z.eqb Z.ltb Z.leb Z.compare orb andb negb Z.to_nat].
    rewrite io_Copy_regular by exact Hlen.
    unfold sha256_New. rewrite app_nil_l. reflexivity.
Qed.

(** C3. The classification peek does not take bytes away from the
    hash: the leading window is the first 512 bytes, seeking back gives
    the file as it was opened, and for every readable source the result
    carries the hex-encoded SHA-256 of the whole content and its length. *)
Theorem ComputeMetadata_hashes_whole_content
    (fs fs' : FS) (path : string) (content : list byte) :
  fs path = Regular content ->
  Z.of_nat (length content) < 2 ^ 63 ->
  (exists f head err f1,
      os_Open fs path = Ok f /\
      File_Read f 512 = (head, err, f1) /\
      head = take 512 content /\
      File_Seek f1 0 0 = (None, f)) /\
  (exists meta,
      ComputeMetadata fs fs' path = Ok meta /\
      Metadata.Hash meta = hex_EncodeToString (sha256_Sum content) /\
      Metadata.Size meta = Z.of_nat (length content)).
Proof.
  intros Hfs Hlen. split.
  - unfold os_Open. rewrite Hfs.
    pose proof (File_Read_regular path content 0 512 ltac:(lia)) as Hr.
    rewrite drop_0 in Hr.
    destruct content as [| b content'];
      (eexists _, _, _, _; split; [reflexivity |]; split; [exact Hr |];
       split; reflexivity).
  - eexists. split; [apply ComputeMetadata_regular; eassumption |].
    split; reflexivity.
Qed.

(** Where the analyzer of the category returns an error, enrichment is
    best effort: on a readable source, when [analyzeImage] or
    [analyzeText] returns an error, and when the category is neither,
    the result is still a success, with the digest and size of the
    content and a bundle that holds the MIME type alone. [analyzeText]
    returns an error only when the path cannot be opened again. *)
Lemma enrichment_is_best_effort
    (fs fs' : FS) (path : string) (content : list byte) :
  fs path = Regular content ->
  Z.of_nat (length content) < 2 ^ 63 ->
  let mime := http_DetectContentType (take 512 content) in
  let base :=
    Metadata.mk (hex_EncodeToString (sha256_Sum content)) (Z.of_nat (length content))
      (filepath_Ext path) {[ "mime_type" := VString mime ]} in
  (strings_HasPrefix mime "image/" = true ->
   forall e, analyzeImage fs' path = Fail e -> ComputeMetadata fs fs' path = Ok base) /\
  (strings_HasPrefix mime "image/" = false ->
   strings_HasPrefix mime "text/" = true ->
   forall e, analyzeText fs' path = Fail e -> ComputeMetadata fs fs' path = Ok base) /\
  (strings_HasPrefix mime "image/" = false ->
   strings_HasPrefix mime "text/" = false ->
   ComputeMetadata fs fs' path = Ok base).
Proof.
  intros Hfs Hlen mime base.
  rewrite (ComputeMetadata_regular fs fs' path content Hfs Hlen).
  fold mime. unfold base, enriched.
  split; [| split].
  - intros Hi e He. rewrite Hi, He. reflexivity.
  - intros Hi Ht e He. rewrite Hi, Ht, He. reflexivity.
  - intros Hi Ht. rewrite Hi, Ht. reflexivity.
Qed.




End Analyzer.

(** *** Processing one job *)

Section Processing.
Import Go hasher worker notions.
Context `{Codecs}.



Lemma process_bare (workerID : Z) (env : Env) (job : Job.t) :
  bare (snd (process workerID env job)).
Proof.
  unfold bare, process.
  destruct (Err _ (t_check env)); [intros _; repeat split |].
  destruct (Err _ (t_done env)); [intros _; repeat split |].
  destruct (ComputeMetadata _ _ _); [| intros _; repeat split].
  intros Hne. exfalso. apply Hne. reflexivity.
Qed.

(** Every result is for the job it was computed from. *)
Lemma process_FileID (workerID : Z) (env : Env) (job : Job.t) :
  Result.FileID (snd (process workerID env job)) = Job.FileID job.
Proof.
  unfold process.
  destruct (Err _ (t_check env)); [reflexivity |].
  destruct (Err _ (t_done env)); [reflexivity |].
  destruct (ComputeMetadata _ _ _); reflexivity.
Qed.

(** C10. A result with an error carries the job's id and the error and
    nothing else: no digest, no size, no extension, a nil bundle. *)
Theorem failure_result_carries_no_output (workerID : Z) (env : Env) (job : Job.t) :
  Result.Err (snd (process workerID env job)) <> None ->
  Result.FileID (snd (process workerID env job)) = Job.FileID job /\
  Result.Hash (snd (process workerID env job)) = "" /\
  Result.Size (snd (process workerID env job)) = 0 /\
  Result.Extension (snd (process workerID env job)) = "" /\
  Result.Metadata (snd (process workerID env job)) = None.
Proof.
  intros Hne. split; [apply process_FileID |].
  exact (process_bare workerID env job Hne).
Qed.

End Processing.

(** *** Constructing the pool *)

Section PoolConstruction.
Import Go worker.

Lemma NewPool_Some (w : Z) (p : Pool) :
  0 <= w < 2 ^ 63 ->
  NewPool w = Some p ->
  w < 2 ^ 62 /\
  p = mkPool w (mkChan [] (2 * w) false) (mkChan [] (2 * w) false) 0 false.
Proof.
  intros Hw. unfold NewPool, make_chan, int_mul.
  destruct (wrap64 (w * 2) <? 0) eqn:E; [discriminate |].
  intros [= <-]. apply Z.ltb_ge in E.
  assert (w < 2 ^ 62) as Hr.
  { unfold wrap64 in E.
    destruct (Z_lt_dec w (2 ^ 62)) as [Hs | Hs]; [lia |].
    replace (w * 2 + 2 ^ 63) with ((w * 2 - 2 ^ 63) + 1 * 2 ^ 64) in E by lia.
    rewrite Z.mod_add in E by lia.
    rewrite Z.mod_small in E; lia. }
  split; [exact Hr |].
  rewrite wrap64_small by lia.
  replace (w * 2) with (2 * w) by lia. reflexivity.
Qed.

(** C5, as the code has it. [NewPool] takes the worker count alone: for
    every worker count from 0 up to 2^62 it gives a pool with that many
    workers whose job queue and result queue both have room for twice
    that many values. *)
Theorem NewPool_capacities_follow_workers (w : Z) :
  0 <= w < 2 ^ 62 ->
  NewPool w =
    Some (mkPool w (mkChan [] (2 * w) false) (mkChan [] (2 * w) false) 0 false).
Proof.
  intros Hw. unfold NewPool, make_chan, int_mul.
  rewrite wrap64_small by lia.
  destruct (w * 2 <? 0) eqn:E; [apply Z.ltb_lt in E; lia |].
  replace (w * 2) with (2 * w) by lia. reflexivity.
Qed.

Lemma NewPool_capacities_witness :
  NewPool 5 = Some (mkPool 5 (mkChan [] 10 false) (mkChan [] 10 false) 0 false).
Proof. apply (NewPool_capacities_follow_workers 5). lia. Defined.

(** C5, as the claim has it, fails: no call of [NewPool] gives one
    worker with queues of capacity 5. The capacities cannot be chosen
    apart from the worker count. *)
Lemma capacities_not_independent :
  ~ (forall workers jobCap resultCap : Z,
        0 < workers < 2 ^ 62 -> 0 <= jobCap -> 0 <= resultCap ->
        exists (n : Z) (p : Pool),
          NewPool n = Some p /\ worker.workers p = workers /\
          cap (jobs p) = jobCap /\ cap (results p) = resultCap).
Proof.
  intros Hall.
  destruct (Hall 1 5 5 ltac:(lia) ltac:(lia) ltac:(lia)) as (n & p & Hp & Hw & Hj & _).
  unfold NewPool, make_chan in Hp.
  destruct (int_mul n 2 <? 0); [discriminate |].
  injection Hp as <-. cbn in Hw, Hj. subst n. vm_compute in Hj. discriminate.
Qed.

End PoolConstruction.

(** *** The results consumer *)

Section Consumer.
Import Go worker repository main.
Context {R : Type} `{Repository R}.

Lemma handleResults_app (before after : list Result.t) (repo : R) :
  handleResults (before ++ after) repo =
    let '(evs1, repo1) := handleResults before repo in
    let '(evs2, repo2) := handleResults after repo1 in
    (evs1 ++ evs2, repo2).
Proof.
  revert repo. induction before as [| res before IH]; intros repo; cbn [handleResults app].
  - destruct (handleResults after repo). reflexivity.
  - destruct (handle res repo) as [evs0 repo0]. rewrite IH.
    destruct (handleResults before repo0) as [evs1 repo1].
    destruct (handleResults after repo1) as [evs2 repo2].
    rewrite app_assoc. reflexivity.
Qed.

(** C7. For a failure result the consumer calls the repository once,
    to set the status to "failed", whether or not that call succeeds; and
    whatever the calls for one result return, the results after it are
    handled in full: the events of a run are those of the results before,
    of the result itself and of the results after. Every result gets at
    least one call. *)
Theorem consumer_marks_failed_once_and_goes_on :
  (forall (res : Result.t) (repo : R) (e : error),
      Result.Err res = Some e ->
      calls (fst (handle res repo)) =
        [CallUpdateStatus (Result.FileID res) "failed"
           (snd (UpdateStatus repo (Result.FileID res) "failed"))] /\
      snd (handle res repo) = fst (UpdateStatus repo (Result.FileID res) "failed")) /\
  (forall (before after : list Result.t) (res : Result.t) (repo : R),
      handleResults (before ++ res :: after) repo =
        let '(evs1, repo1) := handleResults before repo in
        let '(evs2, repo2) := handle res repo1 in
        let '(evs3, repo3) := handleResults after repo2 in
        (evs1 ++ evs2 ++ evs3, repo3)) /\
  (forall (res : Result.t) (repo : R), calls (fst (handle res repo)) <> []).
Proof.
  split; [| split].
  - intros res repo e He. unfold handle. rewrite He.
    destruct (UpdateStatus repo (Result.FileID res) "failed") as [repo' [err |]];
      split; reflexivity.
  - intros before after res repo. rewrite handleResults_app.
    destruct (handleResults before repo) as [evs1 repo1]. cbn [handleResults].
    destruct (handle res repo1) as [evs2 repo2].
    destruct (handleResults after repo2) as [evs3 repo3]. reflexivity.
  - intros res repo. unfold handle.
    destruct (Result.Err res).
    + destruct (UpdateStatus _ _ _) as [repo' [err |]]; discriminate.
    + destruct (UpdateMetadata _ _ _ _ _) as [repo' [err |]]; [discriminate |].
      destruct (UpdateStatus _ _ _) as [repo'' [err |]]; discriminate.
Qed.

End Consumer.

(** *** The pool at run time *)

Section Accounting.
Import Go worker notions.

Lemma occ_app (x : string) (l k : list string) :
  occ x (l ++ k) = (occ x l + occ x k)%nat.
Proof. apply count_occ_app. Qed.

Lemma sum_list_with_insert {A : Type} (f : A -> nat) (l : list A) (i : nat) (x y : A) :
  l !! i = Some x ->
  (sum_list_with f (<[i := y]> l) + f x = sum_list_with f l + f y)%nat.
Proof.
  revert i. induction l as [| a l IH]; intros [| i] Hi; simpl in *; try discriminate.
  - injection Hi as ->. lia.
  - specialize (IH i Hi). lia.
Qed.

Lemma sum_list_with_lookup {A : Type} (f : A -> nat) (l : list A) (i : nat) (x : A) :
  l !! i = Some x -> (f x <= sum_list_with f l)%nat.
Proof. intros Hi. apply sum_list_with_in. eapply list_elem_of_lookup_2. exact Hi. Qed.

Lemma none_alive (gs : list goroutine) (f : goroutine -> nat) :
  sum_list_with alive gs = 0%nat -> f WExited = 0%nat -> sum_list_with f gs = 0%nat.
Proof.
  intros Hs Hf. induction gs as [| g gs IH]; [reflexivity |].
  simpl in *. destruct g; simpl in Hs; lia.
Qed.

Lemma some_alive (gs : list goroutine) :
  (0 < sum_list_with alive gs)%nat ->
  exists i g, gs !! i = Some g /\ g <> WExited.
Proof.
  induction gs as [| g gs IH]; simpl; [lia |]. intros Hs.
  destruct g; try (exists 0%nat; eexists; split; [reflexivity | discriminate]).
  destruct IH as (i & g & Hi & Hg); [simpl in Hs; lia |].
  exists (S i), g. split; assumption.
Qed.

(** After [Start] the pool has its workers, all at their [select]. *)
Lemma iter_spawn (n : nat) (s : System) :
  Nat.iter n spawn s =
    mkSystem (wg_Add (pool s) (Z.of_nat n)) (goroutines s ++ replicate n WSelect)
      (shutdown_pc s) (panicked s) (accepted s) (emitted s) (observed s)
      (consumer_done s).
Proof.
  induction n as [| n IH].
  - destruct s as [[ws js rs g c] gs pc pk acc em ob cd]. unfold wg_Add. cbn.
    rewrite app_nil_r, Z.add_0_r. reflexivity.
  - rewrite Nat.iter_succ, IH. unfold spawn, wg_Add. cbn [pool goroutines shutdown_pc
      panicked accepted emitted observed consumer_done workers jobs results wg ctx_done].
    rewrite replicate_S_end, app_assoc.
    replace (wg (pool s) + Z.of_nat n + 1) with (wg (pool s) + Z.of_nat (S n)) by lia.
    reflexivity.
Qed.

Lemma sum_list_with_replicate {A : Type} (f : A -> nat) (n : nat) (x : A) :
  sum_list_with f (replicate n x) = (n * f x)%nat.
Proof. induction n as [| n IH]; simpl; [reflexivity | rewrite IH; lia]. Qed.

Lemma boot_Inv (w : Z) (s0 : System) :
  0 <= w < 2 ^ 63 -> boot w = Some s0 ->
  Inv w s0 /\ shutdown_pc s0 = NotCalled /\ accepted s0 = [] /\ consumer_done s0 = false.
Proof.
  intros Hw. unfold boot. destruct (NewPool w) as [p |] eqn:Hp; [| discriminate].
  apply NewPool_Some in Hp as [Hw' ->]; [| exact Hw].
  intros [= <-]. unfold Start. rewrite iter_spawn. cbn.
  split; [| repeat split].
  constructor; cbn; try reflexivity.
  - rewrite length_replicate. lia.
  - rewrite sum_list_with_replicate. simpl. lia.
  - intros [|]; discriminate.
  - left. lia.
  - lia.
  - intros x. unfold pending. rewrite sum_list_with_replicate. simpl. lia.
  - discriminate.
Qed.

End Accounting.

Section Shutdown.
Import Go hasher worker notions.
Context `{Codecs}.

Ltac fields :=
  cbn [pool goroutines shutdown_pc panicked accepted emitted observed consumer_done
       workers jobs results wg ctx_done buf cap closed
       with_pool with_goroutine with_shutdown panic with_jobs with_results wg_Add] in *.

Ltac open_state s HI :=
  destruct s as [[ws [jb jc jcl] [rb rc rcl] g c] gs pc pk acc em ob cd];
  destruct HI as [Hpk Hctx Hlen Hcj Hcr Hwg Hjc Hrc Hwait Hexit Hjl Hcount Hstream Hdone];
  fields; subst pk c jc rc.

(** Every step a caller is allowed to take keeps the invariant. *)
Lemma exec_Inv (w : Z) (s s' : System) (a : action) :
  Inv w s -> allowed s a -> exec a s = Some s' -> Inv w s'.
Proof.
  intros HI Hal Hex. unfold allowed in Hal. open_state s HI.
  unfold exec in Hex. fields.
  destruct a as [job pick | i pick env | |]; cbn [is_submit] in Hal.
  - (* Submit *)
    specialize (Hal eq_refl). subst pc. cbn in Hjc. subst jcl.
    unfold Submit, chan_send in Hex. fields.
    destruct (Z.of_nat (length jb) <? 2 * w) eqn:Hroom; cbn in Hex;
      [| destruct pick; discriminate].
    destruct pick as [| pick]; cbn in Hex; [| destruct pick; discriminate].
    injection Hex as <-. apply Z.ltb_lt in Hroom.
    constructor; fields; try assumption; try reflexivity.
    + destruct Hexit as [Hx | [_ Hx]]; [left; exact Hx | discriminate].
    + rewrite length_app. simpl. lia.
    + intros x. rewrite !map_app, !occ_app. rewrite (Hcount x). lia.
  - (* a worker *)
    unfold worker in Hex. fields.
    destruct (gs !! i) as [[| job | r |] |] eqn:Hi; try discriminate.
    { (* at the select *)
      unfold worker_select, chan_recv in Hex. fields.
      destruct jb as [| job jb'].
      + (* nothing buffered *)
        destruct jcl; cbn in Hex; [| destruct pick; discriminate].
        destruct pick as [| pick]; cbn in Hex; [| destruct pick; discriminate].
        injection Hex as <-.
        pose proof (sum_list_with_insert alive gs i WSelect WExited Hi) as Ha.
        pose proof (sum_list_with_lookup alive gs i WSelect Hi) as Hb.
        constructor; fields; try assumption; try reflexivity.
        * rewrite length_insert. exact Hlen.
        * simpl in Ha, Hb. lia.
        * intros Hpc. specialize (Hwait Hpc). simpl in Hb. lia.
        * right. split; reflexivity.
        * intros x. rewrite (Hcount x). unfold pending.
          pose proof (sum_list_with_insert (fun g => occ x (inflight g)) gs i
                        WSelect WExited Hi) as Hp.
          simpl in Hp. lia.
      + (* a job is taken *)
        destruct pick as [| pick]; cbn in Hex; [| destruct pick; discriminate].
        injection Hex as <-.
        pose proof (sum_list_with_insert alive gs i WSelect (WProcess job) Hi) as Ha.
        constructor; fields; try assumption; try reflexivity.
        * rewrite length_insert. exact Hlen.
        * simpl in Ha. lia.
        * destruct Hexit as [Hx | [Hx _]]; [left; exact Hx | discriminate].
        * simpl in Hjl. lia.
        * intros x. specialize (Hcount x). unfold pending in *.
          pose proof (sum_list_with_insert (fun g => occ x (inflight g)) gs i
                        WSelect (WProcess job) Hi) as Hp.
          cbn [map inflight] in *. change (Job.FileID job :: map Job.FileID jb')
            with ([Job.FileID job] ++ map Job.FileID jb') in Hcount.
          rewrite occ_app in Hcount. change (occ x []) with 0%nat in Hp. lia.
    }
    { (* entering process *)
      injection Hex as <-.
      pose proof (sum_list_with_insert alive gs i (WProcess job)
                    (WSend (snd (process (Z.of_nat i) env job))) Hi) as Ha.
      constructor; fields; try assumption; try reflexivity.
      + rewrite length_insert. exact Hlen.
      + simpl in Ha. lia.
      + intros x. specialize (Hcount x). unfold pending in *.
        pose proof (sum_list_with_insert (fun g => occ x (inflight g)) gs i
                      (WProcess job) (WSend (snd (process (Z.of_nat i) env job))) Hi) as Hp.
        cbn [inflight] in Hp. rewrite process_FileID in Hp. lia.
    }
    { (* at the send *)
      pose proof (sum_list_with_lookup alive gs i (WSend r) Hi) as Hb. simpl in Hb.
      unfold chan_send in Hex. fields.
      destruct rcl.
      { (* the results channel cannot be closed while a worker sends *)
        exfalso. destruct pc; try discriminate. specialize (Hwait (or_intror eq_refl)). lia. }
      destruct (Z.of_nat (length rb) <? 2 * w) eqn:Hroom; [| discriminate].
      injection Hex as <-.
      pose proof (sum_list_with_insert alive gs i (WSend r) WSelect Hi) as Ha.
      constructor; fields; try assumption; try reflexivity.
      + rewrite length_insert. exact Hlen.
      + simpl in Ha. lia.
      + intros x. specialize (Hcount x). unfold pending in *.
        pose proof (sum_list_with_insert (fun g => occ x (inflight g)) gs i
                      (WSend r) WSelect Hi) as Hp.
        cbn [inflight] in Hp. rewrite map_app, occ_app. cbn [map].
        change (occ x []) with 0%nat in Hp. lia.
      + rewrite Hstream, app_assoc. reflexivity.
      + intros Hcd. destruct (Hdone Hcd) as [Hx _]. discriminate.
    }
  - (* Shutdown *)
    unfold Shutdown in Hex. fields.
    destruct pc; try discriminate.
    { (* close(p.jobs) *)
      cbn in Hjc. subst jcl.
      unfold chan_close in Hex. fields. injection Hex as <-.
      constructor; fields; try assumption; try reflexivity.
      + intros [|]; discriminate.
      + destruct Hexit as [Hx | [_ Hx]]; [left; exact Hx | discriminate].
    }
    { (* Wait returns *)
      destruct (g =? 0) eqn:Hg; [| discriminate]. apply Z.eqb_eq in Hg.
      injection Hex as <-.
      constructor; fields; try assumption; try reflexivity.
      intros _. exact Hg.
    }
    { (* close(p.results) *)
      cbn in Hrc. subst rcl.
      unfold chan_close in Hex. fields. injection Hex as <-.
      constructor; fields; try assumption; try reflexivity.
      + intros _. apply Hwait. left. reflexivity.
      + intros Hcd. destruct (Hdone Hcd) as [Hx _]. discriminate.
    }
  - (* the consumer *)
    destruct cd; [discriminate |].
    unfold chan_recv in Hex. fields.
    destruct rb as [| r rb'].
    + destruct rcl; [| discriminate]. injection Hex as <-.
      constructor; fields; try assumption; try reflexivity.
      intros _. split; reflexivity.
    + injection Hex as <-.
      constructor; fields; try assumption; try reflexivity.
      * rewrite Hstream, <- app_assoc. reflexivity.
      * discriminate.
Qed.

(** How a step moves the call of [Shutdown]. *)
Lemma exec_pc (s s' : System) (a : action) :
  exec a s = Some s' -> panicked s' = false ->
  if is_shutdown_call a
  then shutdown_pc s' <> NotCalled
  else shutdown_pc s' = shutdown_pc s.
Proof.
  unfold exec. destruct (panicked s) eqn:Hpk; [discriminate |].
  destruct a as [job pick | i pick env | |]; cbn [is_shutdown_call].
  - destruct (Submit (pool s) job !! pick) as [[p | |] |]; intros [= <-]; reflexivity.
  - unfold worker. destruct (goroutines s !! i) as [[| job | r |] |]; try discriminate.
    + destruct (worker_select (pool s) !! pick) as [[job p |] |]; intros [= <-]; reflexivity.
    + intros [= <-]. reflexivity.
    + destruct (chan_send _ _); intros [= <-]; reflexivity.
  - unfold Shutdown. destruct (shutdown_pc s) eqn:Hpc; try discriminate.
    + destruct (chan_close _); intros [= <-]; fields; intros Hp; discriminate.
    + destruct (_ =? 0); intros [= <-]. discriminate.
    + destruct (chan_close _); intros [= <-]; fields; intros Hp; discriminate.
  - destruct (consumer_done s); [discriminate |].
    destruct (chan_recv _); intros [= <-]; reflexivity.
Qed.

Lemma run_Inv (w : Z) (acts : list action) :
  forall s s', Inv w s -> disciplined s acts -> run acts s = Some s' -> Inv w s'.
Proof.
  induction acts as [| a rest IH]; intros s s' HI Hd; cbn [run].
  - intros [= <-]. exact HI.
  - destruct (exec a s) as [s1 |] eqn:Hex; [| discriminate]. intros Hrun.
    assert (allowed s a) as Hal.
    { unfold allowed. intros Hsub. unfold disciplined in Hd.
      destruct (shutdown_pc s); try reflexivity;
        cbn [not_called forallb] in Hd; rewrite Hsub in Hd; discriminate. }
    pose proof (exec_Inv w s s1 a HI Hal Hex) as HI1.
    apply (IH s1 s' HI1); [| exact Hrun].
    pose proof (exec_pc s s1 a Hex (inv_alive w s1 HI1)) as Hpc.
    unfold disciplined in *. cbn [graceful forallb] in Hd.
    destruct (is_shutdown_call a) eqn:Ea.
    + destruct (shutdown_pc s1); [congruence | ..]; cbn [not_called];
        (destruct (not_called (shutdown_pc s)); [exact Hd |];
         apply andb_true_iff in Hd as [_ Hd]; exact Hd).
    + rewrite Hpc. destruct (not_called (shutdown_pc s)); [exact Hd |].
      apply andb_true_iff in Hd as [_ Hd]. exact Hd.
Qed.

(** Without a new job every step uses up one unit of [measure]. *)
Lemma exec_measure (w : Z) (s s' : System) (a : action) :
  Inv w s -> is_submit a = false -> exec a s = Some s' ->
  (measure s' + 1 = measure s)%nat.
Proof.
  intros HI Hns Hex. open_state s HI.
  unfold exec in Hex. unfold measure. fields.
  destruct a as [job pick | i pick env | |]; cbn [is_submit] in Hns;
    try discriminate.
  - unfold worker in Hex. fields.
    destruct (gs !! i) as [[| job | r |] |] eqn:Hi; try discriminate.
    {
      unfold worker_select, chan_recv in Hex. fields.
      destruct jb as [| job jb'].
      + destruct jcl; cbn in Hex; [| destruct pick; discriminate].
        destruct pick as [| pick]; cbn in Hex; [| destruct pick; discriminate].
        injection Hex as <-. fields.
        pose proof (sum_list_with_insert weight gs i WSelect WExited Hi) as Hm.
        simpl in Hm |- *. lia.
      + destruct pick as [| pick]; cbn in Hex; [| destruct pick; discriminate].
        injection Hex as <-. fields.
        pose proof (sum_list_with_insert weight gs i WSelect (WProcess job) Hi) as Hm.
        simpl in Hm |- *. lia.
    }
    {
      injection Hex as <-. fields.
      pose proof (sum_list_with_insert weight gs i (WProcess job)
                    (WSend (snd (process (Z.of_nat i) env job))) Hi) as Hm.
      simpl in Hm |- *. lia.
    }
    {
      pose proof (sum_list_with_lookup alive gs i (WSend r) Hi) as Hb. simpl in Hb.
      unfold chan_send in Hex. fields.
      destruct rcl.
      { exfalso. destruct pc; try discriminate. specialize (Hwait (or_intror eq_refl)). lia. }
      destruct (Z.of_nat (length rb) <? 2 * w); [| discriminate].
      injection Hex as <-. fields.
      pose proof (sum_list_with_insert weight gs i (WSend r) WSelect Hi) as Hm.
      rewrite length_app. simpl in Hm |- *. lia.
    }
  - unfold Shutdown in Hex. fields. destruct pc; try discriminate.
    {
      cbn in Hjc. subst jcl.
      unfold chan_close in Hex. fields. injection Hex as <-. simpl. lia.
    }
    {
      destruct (g =? 0); [| discriminate]. injection Hex as <-. simpl. lia.
    }
    {
      cbn in Hrc. subst rcl.
      unfold chan_close in Hex. fields. injection Hex as <-. simpl. lia.
    }
  - destruct cd; [discriminate |].
    unfold chan_recv in Hex. fields.
    destruct rb as [| r rb'].
    + destruct rcl; [| discriminate]. injection Hex as <-. simpl. lia.
    + injection Hex as <-. simpl. lia.
Qed.

(** Once [Shutdown] has been called, and until the consumer has seen
    the channel closed, some goroutine can take a step. *)
Lemma exec_progress (w : Z) (s : System) :
  Inv w s -> shutdown_pc s <> NotCalled -> consumer_done s = false ->
  exists a s', is_submit a = false /\ exec a s = Some s'.
Proof.
  intros HI Hpc Hcd. open_state s HI. subst cd.
  set (idle := mkEnv 0%nat 0%nat (fun _ => Directory) (fun _ => Directory)).
  destruct rb as [| r rb'].
  2:{ exists AConsume. eexists. split; [reflexivity |]. reflexivity. }
  destruct pc; try congruence; cbn in Hjc, Hrc; subst jcl rcl.
  - (* in Wait *)
    destruct (sum_list_with alive gs) as [| n] eqn:Hn.
    + exists AShutdown. eexists. split; [reflexivity |].
      unfold exec, Shutdown. fields. subst g. reflexivity.
    + destruct (some_alive gs) as (i & g0 & Hi & Hg0); [lia |].
      destruct g0 as [| job | r |]; [| | | congruence].
      * destruct jb as [| job jb'];
          (exists (AWorker i 0 idle); eexists; split; [reflexivity |];
           unfold exec, worker; fields; rewrite Hi; reflexivity).
      * exists (AWorker i 0 idle).
        eexists. split; [reflexivity |].
        unfold exec, worker. fields. rewrite Hi. reflexivity.
      * exists (AWorker i 0 idle). eexists. split; [reflexivity |].
        unfold exec, worker. fields. rewrite Hi. unfold chan_send. fields.
        assert (0 < w) as Hw.
        { pose proof (lookup_lt_Some gs i _ Hi). lia. }
        destruct (Z.of_nat (length []) <? 2 * w) eqn:E; [reflexivity |].
        apply Z.ltb_ge in E. simpl in E. lia.
  - exists AShutdown. eexists. split; [reflexivity |]. reflexivity.
  - exists AConsume. eexists. split; [reflexivity |]. reflexivity.
Qed.

(** Nothing is sent on a closed results channel. *)
Lemma exec_emitted (s s' : System) (a : action) :
  closed (results (pool s)) = true -> exec a s = Some s' -> emitted s' = emitted s.
Proof.
  intros Hcl. unfold exec. destruct (panicked s); [discriminate |].
  destruct a as [job pick | i pick env | |].
  - destruct (Submit (pool s) job !! pick) as [[p | |] |]; intros [= <-]; reflexivity.
  - unfold worker. destruct (goroutines s !! i) as [[| job | r |] |]; try discriminate.
    + destruct (worker_select (pool s) !! pick) as [[job p |] |]; intros [= <-]; reflexivity.
    + intros [= <-]. reflexivity.
    + unfold chan_send. rewrite Hcl. intros [= <-]. reflexivity.
  - unfold Shutdown. destruct (shutdown_pc s); try discriminate.
    + destruct (chan_close _); intros [= <-]; reflexivity.
    + destruct (_ =? 0); intros [= <-]. reflexivity.
    + destruct (chan_close _); intros [= <-]; reflexivity.
  - destruct (consumer_done s); [discriminate |].
    destruct (chan_recv _); intros [= <-]; reflexivity.
Qed.

(** When the results channel is closed, the results sent are those of
    the jobs accepted. *)
Lemma closed_means_drained (w : Z) (s : System) :
  Inv w s -> closed (results (pool s)) = true ->
  map Result.FileID (emitted s) ≡ₚ map Job.FileID (accepted s).
Proof.
  intros HI Hcl. open_state s HI. subst rcl.
  destruct pc; try discriminate.
  specialize (Hwait (or_intror eq_refl)). subst g.
  assert (sum_list_with alive gs = 0%nat) as Hnone by lia.
  assert (jb = []) as ->.
  { destruct Hexit as [Hx | [Hx _]]; [| exact Hx].
    destruct jb; [reflexivity | simpl in Hjl; lia]. }
  apply (Permutation_count_occ string_dec). intros x.
  specialize (Hcount x). unfold occ, pending in Hcount.
  rewrite (none_alive gs _ Hnone eq_refl) in Hcount. simpl in Hcount. lia.
Qed.

(** C1. Graceful shutdown loses nothing. Take a pool of [w] workers,
    started, and any schedule in which no [Submit] completes after
    [Shutdown] is called. Then in the state reached: no goroutine has
    panicked; the results sent are what the consumer has received
    followed by what is still buffered, in order; once the results
    channel is closed, the results sent are one per accepted job (the ids
    agree as multisets) and no later step sends another; a consumer that
    has seen the channel closed has received every result sent, as many
    as jobs were accepted. From the call of [Shutdown] until the consumer
    is done some step can always be taken, and each step that is not a
    new [Submit] brings [measure] down, so every such run ends there. *)
Theorem graceful_shutdown_delivers_every_result
    (w : Z) (s0 : System) (acts : list action) (s : System) :
  0 <= w < 2 ^ 63 ->
  boot w = Some s0 ->
  graceful acts = true ->
  run acts s0 = Some s ->
  panicked s = false /\
  emitted s = observed s ++ buf (results (pool s)) /\
  (closed (results (pool s)) = true ->
     map Result.FileID (emitted s) ≡ₚ map Job.FileID (accepted s) /\
     length (emitted s) = length (accepted s) /\
     forall a s', exec a s = Some s' -> emitted s' = emitted s) /\
  (consumer_done s = true ->
     observed s = emitted s /\ length (observed s) = length (accepted s)) /\
  (shutdown_pc s <> NotCalled -> consumer_done s = false ->
     exists a s', is_submit a = false /\ exec a s = Some s') /\
  (forall a s', is_submit a = false -> exec a s = Some s' ->
     (measure s' < measure s)%nat).
Proof.
  intros Hw Hboot Hg Hrun.
  destruct (boot_Inv w s0 Hw Hboot) as (HI0 & Hpc0 & _ & _).
  assert (Inv w s) as HI.
  { apply (run_Inv w acts s0 s HI0); [| exact Hrun].
    unfold disciplined. rewrite Hpc0. exact Hg. }
  assert (closed (results (pool s)) = true ->
          length (emitted s) = length (accepted s)) as Hlen.
  { intros Hcl. pose proof (closed_means_drained w s HI Hcl) as Hp.
    apply Permutation_length in Hp. rewrite !length_map in Hp. exact Hp. }
  split; [exact (inv_alive w s HI) |].
  split; [exact (inv_stream w s HI) |].
  split; [| split; [| split]].
  - intros Hcl. split; [exact (closed_means_drained w s HI Hcl) |].
    split; [exact (Hlen Hcl) |].
    intros a s'. apply exec_emitted. exact Hcl.
  - intros Hcd. destruct (inv_done w s HI Hcd) as [Hcl Hbuf].
    assert (observed s = emitted s) as Hobs.
    { rewrite (inv_stream w s HI), Hbuf, app_nil_r. reflexivity. }
    split; [exact Hobs |]. rewrite Hobs. exact (Hlen Hcl).
  - apply (exec_progress w s HI).
  - intros a s' Hns Hex. pose proof (exec_measure w s s' a HI Hns Hex). lia.
Qed.

(** C2, as the code has it. Once [Shutdown] has been called, a call of
    [Submit] does not return false: the send on the closed jobs channel
    is the only case of its [select] that can proceed, and it panics.
    [Shutdown] never cancels the pool's context. *)
Theorem Submit_after_Shutdown_panics
    (w : Z) (s0 : System) (acts : list action) (s : System) (job : Job.t) :
  0 <= w < 2 ^ 63 ->
  boot w = Some s0 ->
  graceful acts = true ->
  run acts s0 = Some s ->
  shutdown_pc s <> NotCalled ->
  Submit (pool s) job = [SubmitPanics] /\
  (forall pick s', exec (ASubmit job pick) s = Some s' -> panicked s' = true).
Proof.
  intros Hw Hboot Hg Hrun Hpc.
  destruct (boot_Inv w s0 Hw Hboot) as (HI0 & Hpc0 & _ & _).
  assert (Inv w s) as HI.
  { apply (run_Inv w acts s0 s HI0); [| exact Hrun].
    unfold disciplined. rewrite Hpc0. exact Hg. }
  assert (Submit (pool s) job = [SubmitPanics]) as Hsub.
  { unfold Submit, chan_send.
    rewrite (inv_jobs_closed w s HI), (inv_ctx w s HI).
    destruct (shutdown_pc s); [congruence | reflexivity ..]. }
  split; [exact Hsub |].
  intros pick s'. unfold exec. rewrite (inv_alive w s HI), Hsub.
  destruct pick as [| pick]; cbn; [| destruct pick; discriminate].
  intros [= <-]. reflexivity.
Qed.

(** Every result on its way to the channel or sent on it comes from
    [process], so the failures among them are bare as well. *)
Lemma exec_bare (s s' : System) (a : action) :
  all_bare s -> exec a s = Some s' -> all_bare s'.
Proof.
  intros [He Hg]. unfold exec, all_bare. destruct (panicked s); [discriminate |].
  destruct a as [job pick | i pick env | |].
  - destruct (Submit (pool s) job !! pick) as [[p | |] |]; intros [= <-]; split; assumption.
  - unfold worker.
    destruct (goroutines s !! i) as [[| job | r |] |] eqn:Hi; try discriminate.
    + destruct (worker_select (pool s) !! pick) as [[job p |] |]; intros [= <-];
        (split; [exact He | apply Forall_insert; [exact Hg | exact I]]).
    + intros [= <-]. split; [exact He |].
      apply Forall_insert; [exact Hg |]. apply process_bare.
    + destruct (chan_send _ _); intros [= <-]; try (split; assumption).
      cbn [emitted goroutines]. split.
      * apply Forall_app. split; [exact He |]. constructor; [| constructor].
        exact (Forall_lookup_1 _ _ _ _ Hg Hi).
      * apply Forall_insert; [exact Hg | exact I].
  - unfold Shutdown. destruct (shutdown_pc s); try discriminate.
    + destruct (chan_close _); intros [= <-]; split; assumption.
    + destruct (_ =? 0); intros [= <-]. split; assumption.
    + destruct (chan_close _); intros [= <-]; split; assumption.
  - destruct (consumer_done s); [discriminate |].
    destruct (chan_recv _); intros [= <-]; split; assumption.
Qed.

Lemma run_bare (acts : list action) :
  forall s s', all_bare s -> run acts s = Some s' -> all_bare s'.
Proof.
  induction acts as [| a rest IH]; intros s s' Hs; cbn [run].
  - intros [= <-]. exact Hs.
  - destruct (exec a s) as [s1 |] eqn:Hex; [| discriminate].
    apply IH. eapply exec_bare; eassumption.
Qed.

Lemma emitted_results_bare (w : Z) (s0 : System) (acts : list action) (s : System) :
  boot w = Some s0 -> run acts s0 = Some s -> Forall bare (emitted s).
Proof.
  intros Hboot Hrun. refine (proj1 (run_bare acts s0 s _ Hrun)).
  unfold boot in Hboot. destruct (NewPool w) as [p |]; [| discriminate].
  injection Hboot as <-. unfold Start, all_bare. rewrite iter_spawn. cbn.
  split; [constructor |].
  apply Forall_forall. intros g Hg. apply elem_of_replicate in Hg as [-> _]. exact I.
Qed.

End Shutdown.

(** *** The text analyzer *)

Section TextAnalyzer.
Import Go hasher notions fixtures.

(** A rune is at least one byte wide and never wider than the text. *)
Lemma DecodeRune_size (p : list byte) :
  p <> [] -> (1 <= snd (DecodeRune p) <= length p)%nat.
Proof.
  intros Hp. destruct p as [| b0 t]; [congruence |].
  unfold DecodeRune.
  repeat match goal with
         | |- context [if ?c then _ else _] => destruct c eqn:?
         | |- context [match ?l with [] => _ | _ :: _ => _ end] => destruct l
         end; cbn [snd length] in *; try lia.
Qed.

(** What follows a text does not change its first rune when it starts with
    an ASCII byte. *)
Lemma DecodeRune_app (p r : list byte) (c : byte) :
  p <> [] -> byteZ c < 128 -> DecodeRune (p ++ c :: r) = DecodeRune p.
Proof.
  intros Hp Hc. destruct p as [| b0 t]; [congruence |].
  unfold DecodeRune. cbn [app].
  destruct (byteZ b0 <? 128); [reflexivity |].
  destruct ((byteZ b0 <? 194) || (244 <? byteZ b0)); [reflexivity |].
  set (sz := if byteZ b0 <? 224 then 2%nat else if byteZ b0 <? 240 then 3%nat else 4%nat).
  set (lo := if byteZ b0 =? 224 then 160 else if byteZ b0 =? 240 then 144 else 128).
  set (hi := if byteZ b0 =? 237 then 159 else if byteZ b0 =? 244 then 143 else 191).
  assert (128 <= lo) as Hlo by (unfold lo; repeat destruct (_ =? _); lia).
  assert (sz = 2 \/ sz = 3 \/ sz = 4)%nat as Hsz
    by (unfold sz; repeat destruct (_ <? _); lia).
  clearbody sz lo hi.
  assert ((byteZ c <? lo) = true) as Hclo by (apply Z.ltb_lt; lia).
  assert ((byteZ c <? 128) = true) as Hc128 by (apply Z.ltb_lt; lia).
  destruct t as [| b1 [| b2 [| b3 t']]]; cbn [app length].
  all: destruct Hsz as [-> | [-> | ->]]; cbn [Nat.ltb Nat.leb]; rewrite ?Hclo, ?Hc128; cbn [orb];
    try reflexivity.
  all: repeat match goal with
         | |- context [if ?c then _ else _] => destruct c eqn:?
         end; try reflexivity.
Qed.

(** The runes of a text followed by an ASCII byte: those of the text, then
    the byte. *)
Lemma rune_units_app (f : Z -> bool) (r : list byte) (c : byte) :
  byteZ c < 128 ->
  forall (l : list byte) (skip : nat),
    (skip <= length l)%nat ->
    rune_units f (l ++ c :: r) skip =
      rune_units f l skip ++ ([c], f (byteZ c)) :: rune_units f r 0.
Proof.
  intros Hc. induction l as [| b l IH]; intros skip Hskip.
  - destruct skip; [| simpl in Hskip; lia].
    cbn [app rune_units]. apply Z.ltb_lt in Hc. rewrite Hc. reflexivity.
  - cbn [app rune_units]. destruct skip as [| k].
    + rewrite app_comm_cons.
      rewrite (DecodeRune_app (b :: l) r c) by (congruence || lia).
      pose proof (DecodeRune_size (b :: l) ltac:(congruence)) as Hsz.
      destruct (if byteZ b <? 128 then (byteZ b, 1%nat) else DecodeRune (b :: l))
        as [r0 size] eqn:E.
      assert (1 <= size <= length (b :: l))%nat as Hs.
      { destruct (byteZ b <? 128); [injection E as <- <-; simpl; lia |].
        rewrite E in Hsz. exact Hsz. }
      rewrite take_app_le by lia.
      rewrite IH by (simpl in Hs; lia). reflexivity.
    + apply IH. simpl in Hskip. lia.
Qed.

Lemma split_fields_sep (u1 u2 : list (list byte * bool)) (bs : list byte) :
  forall cur,
    length (split_fields (u1 ++ (bs, true) :: u2) cur) =
      (length (split_fields u1 cur) + length (split_fields u2 None))%nat.
Proof.
  induction u1 as [| [bs1 [|]] u1 IH]; intros cur; cbn [app split_fields].
  - destruct cur; reflexivity.
  - destruct cur; cbn [length]; rewrite IH; reflexivity.
  - apply IH.
Qed.

Lemma unicode_IsSpace_ascii (b : byte) :
  byteZ b < 128 -> unicode_IsSpace (byteZ b) = asciiSpace b.
Proof.
  intros Hb. unfold unicode_IsSpace, asciiSpace.
  destruct (byteZ b <=? 255) eqn:E; [| apply Z.leb_gt in E; lia].
  destruct (byteZ b =? 133) eqn:E1; [apply Z.eqb_eq in E1; lia |].
  destruct (byteZ b =? 160) eqn:E2; [apply Z.eqb_eq in E2; lia |].
  rewrite !orb_false_r. reflexivity.
Qed.

Lemma rune_units_ascii (s : list byte) :
  forallb (fun b => byteZ b <? 128) s = true ->
  rune_units unicode_IsSpace s 0 = map (fun b => ([b], asciiSpace b)) s.
Proof.
  induction s as [| b s IH]; [reflexivity |].
  cbn [forallb]. intros Hs. apply andb_true_iff in Hs as [Hb Hs].
  cbn [rune_units map]. rewrite Hb. cbn [take Nat.sub].
  rewrite IH by exact Hs. rewrite unicode_IsSpace_ascii by (apply Z.ltb_lt; exact Hb).
  reflexivity.
Qed.

(** Both paths of [bytes.Fields] split the runes of the text. *)
Lemma bytes_Fields_units (s : list byte) :
  bytes_Fields s = split_fields (rune_units unicode_IsSpace s 0) None.
Proof.
  unfold bytes_Fields, bytes_FieldsFunc.
  destruct (forallb _ s) eqn:E; [| reflexivity].
  rewrite rune_units_ascii by exact E. reflexivity.
Qed.

(** An ASCII white space byte ends a field: the fields before it and the
    fields after it are counted apart. *)
Lemma Fields_split (l r : list byte) (c : byte) :
  asciiSpace c = true -> byteZ c < 128 ->
  length (bytes_Fields (l ++ c :: r)) =
    (length (bytes_Fields l) + length (bytes_Fields r))%nat.
Proof.
  intros Hsp Hc. rewrite !bytes_Fields_units.
  rewrite rune_units_app by (exact Hc || lia).
  rewrite unicode_IsSpace_ascii, Hsp by exact Hc.
  apply split_fields_sep.
Qed.

Lemma split_fields_length (u : list (list byte * bool)) :
  forall cur,
    (length (split_fields u cur) <= length u + match cur with Some _ => 1 | None => 0 end)%nat.
Proof.
  induction u as [| [bs [|]] u IH]; intros cur; cbn [split_fields length].
  - destruct cur; simpl; lia.
  - destruct cur; cbn [length]; specialize (IH None); simpl in IH; lia.
  - specialize (IH (Some (rev_append bs match cur with Some fld => fld | None => [] end))).
    simpl in IH. destruct cur; lia.
Qed.

Lemma rune_units_length (f : Z -> bool) (s : list byte) :
  forall skip, (length (rune_units f s skip) <= length s)%nat.
Proof.
  induction s as [| b s IH]; intros skip; cbn [rune_units length]; [lia |].
  destruct skip as [| k]; [| specialize (IH k); lia].
  destruct (if byteZ b <? 128 then _ else _) as [r0 size].
  cbn [length]. specialize (IH (size - 1)%nat). lia.
Qed.

Lemma Fields_length (s : list byte) : (length (bytes_Fields s) <= length s)%nat.
Proof.
  rewrite bytes_Fields_units.
  pose proof (split_fields_length (rune_units unicode_IsSpace s 0) None) as H1.
  pose proof (rune_units_length unicode_IsSpace s 0) as H2. simpl in H1. lia.
Qed.

Lemma cut_line_spec (s : list byte) :
  s = fst (cut_line s) ++ match snd (cut_line s) with Some rest => x0a :: rest | None => [] end /\
  bytes_IndexByte (fst (cut_line s)) x0a = None.
Proof.
  induction s as [| b s [IH1 IH2]]; [split; reflexivity |].
  cbn [cut_line]. destruct (Byte.eqb b x0a) eqn:E.
  - apply Byte.byte_dec_bl in E. subst b. split; reflexivity.
  - destruct (cut_line s) as [line after]. cbn [fst snd] in *. split.
    + cbn [app]. f_equal. exact IH1.
    + cbn [bytes_IndexByte]. rewrite E, IH2. reflexivity.
Qed.

Lemma short_lines_cut (s : list byte) :
  forall cur,
    short_lines_from cur s = true ->
    (fst (cut_line s) = [] \/ (cur + length (fst (cut_line s)) < MaxScanTokenSize)%nat) /\
    match snd (cut_line s) with
    | Some rest => short_lines_from 0 rest = true
    | None => True
    end.
Proof.
  induction s as [| b s IH]; intros cur; cbn [short_lines_from cut_line].
  - intros _. split; [left; reflexivity | exact I].
  - destruct (Byte.eqb b x0a).
    + intros Hs. split; [left; reflexivity | exact Hs].
    + intros Hs. apply andb_true_iff in Hs as [Hc Hs]. apply Nat.ltb_lt in Hc.
      destruct (IH (S cur) Hs) as [Hl Ha].
      destruct (cut_line s) as [line after]. cbn [fst snd] in *.
      split; [right | exact Ha].
      destruct Hl as [-> | Hl]; simpl; lia.
Qed.

Lemma IndexByte_app (line k : list byte) (c : byte) :
  bytes_IndexByte line c = None ->
  bytes_IndexByte (line ++ c :: k) c = Some (length line).
Proof.
  induction line as [| b line IH]; cbn [app bytes_IndexByte length].
  - intros _. replace (Byte.eqb c c) with true; [reflexivity |].
    symmetry. apply Byte.byte_dec_lb. reflexivity.
  - destruct (Byte.eqb b c); [discriminate |].
    destruct (bytes_IndexByte line c); [discriminate |].
    intros _. rewrite IH by reflexivity. reflexivity.
Qed.

Lemma MaxScanTokenSize_pos : (0 < MaxScanTokenSize)%nat.
Proof. unfold MaxScanTokenSize. lia. Qed.

Local Opaque MaxScanTokenSize.

(** [Scan] on a text whose first line fits the buffer. *)
Lemma Scan_line (line rest tok : list byte) (err : option error) :
  bytes_IndexByte line x0a = None ->
  (length line < MaxScanTokenSize)%nat ->
  Scan (mkScanner (Some (line ++ x0a :: rest)) tok err) =
    (true, mkScanner (Some rest) (dropCR line) None).
Proof.
  intros Hnl Hlen. unfold Scan. cbn [input].
  rewrite take_app_ge by lia.
  destruct (MaxScanTokenSize - length line)%nat as [| m] eqn:Em; [lia |].
  cbn [take]. unfold ScanLines.
  replace (length (line ++ x0a :: take m rest) =? 0)%nat with false
    by (symmetry; apply Nat.eqb_neq; rewrite length_app; simpl; lia).
  rewrite andb_false_r, IndexByte_app by exact Hnl.
  rewrite take_app_length.
  replace (drop (S (length line)) (line ++ x0a :: rest)) with rest; [reflexivity |].
  rewrite (cons_middle x0a line rest), app_assoc.
  rewrite drop_app_length'; [reflexivity |].
  rewrite length_app. simpl. lia.
Qed.

Lemma Scan_last_line (line tok : list byte) (err : option error) :
  line <> [] ->
  bytes_IndexByte line x0a = None ->
  (length line < MaxScanTokenSize)%nat ->
  Scan (mkScanner (Some line) tok err) =
    (true, mkScanner (Some []) (dropCR line) None).
Proof.
  intros Hne Hnl Hlen. unfold Scan. cbn [input].
  rewrite take_ge by lia.
  replace (length line <? MaxScanTokenSize)%nat with true
    by (symmetry; apply Nat.ltb_lt; exact Hlen).
  unfold ScanLines.
  replace (length line =? 0)%nat with false
    by (symmetry; apply Nat.eqb_neq; destruct line; [congruence | simpl; lia]).
  cbn [andb]. rewrite Hnl, drop_all. reflexivity.
Qed.

Lemma Scan_end (tok : list byte) (err : option error) :
  Scan (mkScanner (Some []) tok err) = (false, mkScanner (Some []) [] None).
Proof.
  unfold Scan. cbn [input length take].
  replace (0 <? MaxScanTokenSize)%nat with true
    by (symmetry; apply Nat.ltb_lt; apply MaxScanTokenSize_pos).
  reflexivity.
Qed.

Lemma spec_lines_line (line rest : list byte) :
  bytes_IndexByte line x0a = None ->
  spec_lines (line ++ x0a :: rest) = 1 + spec_lines rest.
Proof.
  induction line as [| b line IH]; cbn [app bytes_IndexByte].
  - intros _. reflexivity.
  - destruct (Byte.eqb b x0a) eqn:E; [discriminate |].
    destruct (bytes_IndexByte line x0a) eqn:E2; [discriminate |].
    intros _. cbn [spec_lines]. rewrite E.
    rewrite <- IH by reflexivity.
    destruct line; reflexivity.
Qed.

Lemma spec_lines_last_line (line : list byte) :
  line <> [] ->
  bytes_IndexByte line x0a = None ->
  spec_lines line = 1.
Proof.
  induction line as [| b line IH]; [congruence |].
  intros _. cbn [bytes_IndexByte spec_lines].
  destruct (Byte.eqb b x0a) eqn:E; [discriminate |].
  destruct (bytes_IndexByte line x0a) eqn:E2; [discriminate |].
  intros _. destruct line as [| b' line']; [reflexivity |].
  apply IH; [congruence | reflexivity].
Qed.

Lemma Fields_dropCR (line : list byte) :
  length (bytes_Fields (dropCR line)) = length (bytes_Fields line).
Proof.
  unfold dropCR. destruct (last line) as [c |] eqn:El; [| reflexivity].
  destruct (Byte.eqb c x0d) eqn:E; [| reflexivity].
  apply Byte.byte_dec_bl in E. subst c.
  apply last_Some in El as [l' ->].
  rewrite removelast_last.
  rewrite (Fields_split l' [] x0d) by (reflexivity || (vm_compute; reflexivity)).
  change (length (bytes_Fields [])) with 0%nat. lia.
Qed.

Lemma spec_words_line (line rest : list byte) :
  spec_words (line ++ x0a :: rest) =
    Z.of_nat (length (bytes_Fields (dropCR line))) + spec_words rest.
Proof.
  unfold spec_words.
  rewrite (Fields_split line rest x0a) by (reflexivity || (vm_compute; reflexivity)).
  rewrite Fields_dropCR. lia.
Qed.

(** The loop of [analyzeText] on a text whose lines all fit the buffer. *)
Lemma scan_loop_short (fuel : nat) :
  forall (unread tk : list byte) (err : option error) (lines words : Z),
    (length unread < fuel)%nat ->
    short_lines unread = true ->
    0 <= lines -> 0 <= words ->
    lines + Z.of_nat (length unread) < 2 ^ 63 ->
    words + Z.of_nat (length unread) < 2 ^ 63 ->
    scan_loop fuel (mkScanner (Some unread) tk err) lines words =
      (lines + spec_lines unread, words + spec_words unread).
Proof.
  induction fuel as [| fuel IH]; intros unread tk err lines words Hf Hs Hl Hw Hbl Hbw; [lia |].
  cbn [scan_loop].
  destruct (cut_line_spec unread) as [Hcat Hnl].
  destruct (short_lines_cut unread 0 Hs) as [Hlen Hrest].
  destruct (cut_line unread) as [line after]. cbn [fst snd] in *.
  assert (length line < MaxScanTokenSize)%nat as Hlen'.
  { destruct Hlen as [-> | Hlen]; [apply MaxScanTokenSize_pos | lia]. }
  pose proof (Fields_length line) as Hfl.
  destruct after as [rest |].
  - subst unread. rewrite Scan_line by assumption. cbn [Go.tok].
    rewrite length_app in *. cbn [length] in *.
    rewrite !int_add_small by (rewrite ?Fields_dropCR; lia).
    rewrite IH; try (rewrite ?Fields_dropCR; lia); [| exact Hrest].
    rewrite spec_lines_line by exact Hnl.
    rewrite spec_words_line. f_equal; lia.
  - rewrite app_nil_r in Hcat. subst line.
    destruct unread as [| b0 unread'] eqn:Eu.
    { rewrite Scan_end. unfold spec_words. simpl. rewrite !Z.add_0_r. reflexivity. }
    rewrite <- Eu in *.
    assert (unread <> []) as Hne by (rewrite Eu; congruence).
    assert (0 < length unread)%nat as Hpos by (rewrite Eu; simpl; lia).
    rewrite Scan_last_line by assumption. cbn [Go.tok].
    rewrite !int_add_small by (rewrite ?Fields_dropCR; lia).
    rewrite IH; try (rewrite ?Fields_dropCR; simpl; lia); [| reflexivity].
    rewrite (spec_lines_last_line unread) by assumption.
    unfold spec_words. rewrite Fields_dropCR. simpl. f_equal; lia.
Qed.

(** Where every line fits the scanner's buffer, [analyzeText] counts the
    lines and the white-space-delimited tokens of the whole text. *)
Lemma analyzeText_counts_short_lines (fs : FS) (path : string) (content : list byte) :
  fs path = Regular content ->
  short_lines content = true ->
  Z.of_nat (length content) < 2 ^ 63 ->
  analyzeText fs path =
    Ok {[ "lines" := VInt (spec_lines content); "words" := VInt (spec_words content) ]}.
Proof.
  intros Hfs Hs Hb. unfold analyzeText, os_Open. rewrite Hfs.
  unfold bufio_NewScanner, file_rest. cbn [data offset]. rewrite drop_0.
  rewrite scan_loop_short by (assumption || lia). reflexivity.
Qed.

(** A successful [Scan] consumes input, so the loop of [analyzeText] ends
    before its fuel does: more fuel gives the same counts. *)
Lemma Scan_consumes (s s' : Scanner) :
  Scan s = (true, s') ->
  exists unread unread',
    input s = Some unread /\ input s' = Some unread' /\
    (length unread' < length unread)%nat.
Proof.
  unfold Scan. destruct (input s) as [unread |]; [| discriminate].
  destruct (ScanLines _ _) as [advance [token |]] eqn:E; [| discriminate].
  intros [= <-]. exists unread, (drop advance unread).
  split; [reflexivity |]. split; [reflexivity |].
  assert ((1 <= advance)%nat /\ unread <> []) as [Ha Hu].
  { unfold ScanLines in E.
    destruct ((length unread <? MaxScanTokenSize)%nat
              && (length (take MaxScanTokenSize unread) =? 0)%nat) eqn:E0; [discriminate |].
    assert (unread <> []) as Hu.
    { intros ->. cbn in E0.
      replace (0 <? MaxScanTokenSize)%nat with true in E0; [discriminate |].
      symmetry. apply Nat.ltb_lt. apply MaxScanTokenSize_pos. }
    split; [| exact Hu].
    destruct (bytes_IndexByte _ _); [injection E as <- _; lia |].
    destruct (length unread <? MaxScanTokenSize)%nat; [| discriminate].
    injection E as <- _. rewrite length_take.
    pose proof MaxScanTokenSize_pos. destruct unread; [congruence | simpl; lia]. }
  rewrite length_drop. destruct unread; [congruence | simpl; lia].
Qed.

Lemma scan_loop_fuel (fuel1 : nat) :
  forall (fuel2 : nat) (s : Scanner) (lines words : Z),
    (match input s with Some unread => length unread | None => 0 end < fuel1)%nat ->
    (match input s with Some unread => length unread | None => 0 end < fuel2)%nat ->
    scan_loop fuel1 s lines words = scan_loop fuel2 s lines words.
Proof.
  induction fuel1 as [| fuel1 IH]; intros fuel2 s lines words H1 H2; [lia |].
  destruct fuel2 as [| fuel2]; [lia |]. cbn [scan_loop].
  destruct (Scan s) as [[|] s'] eqn:E; [| reflexivity].
  destruct (Scan_consumes s s' E) as (unread & unread' & Hi & Hi' & Hlt).
  rewrite Hi in H1, H2. apply IH; rewrite Hi'; lia.
Qed.

(** The three-line, ten-word fixture is counted as the claim says. *)
Example analyzeText_notes :
  analyzeText disk "/data/notes.txt" = Ok {[ "lines" := VInt 3; "words" := VInt 10 ]} /\
  spec_lines notes = 3 /\ spec_words notes = 10.
Proof. repeat apply conj; vm_compute; reflexivity. Qed.

Example ComputeMetadata_notes :
  Metadata.Extra <$>
    (match ComputeMetadata disk disk "/data/notes.txt" with
     | Ok meta => Some meta
     | Fail _ => None
     end) =
  Some {[ "mime_type" := VString "text/plain; charset=utf-8";
          "lines" := VInt 3; "words" := VInt 10 ]}.
Proof. vm_compute. reflexivity. Qed.

(** C8 fails on the code. A text of three lines and four words whose
    first line is 65536 bytes long: the scanner stops with [ErrTooLong]
    at once, [analyzeText] never looks at [scanner.Err()], and the counts
    it reports, without an error, are 0 and 0. *)
Theorem analyzeText_long_line_miscounts :
  spec_lines long_line = 3 /\
  spec_words long_line = 4 /\
  fst (Scan (bufio_NewScanner (mkFile "/data/long.txt" (Some long_line) 0))) = false /\
  scan_err (snd (Scan (bufio_NewScanner (mkFile "/data/long.txt" (Some long_line) 0))))
    = Some ErrTooLong /\
  analyzeText disk "/data/long.txt" = Ok {[ "lines" := VInt 0; "words" := VInt 0 ]} /\
  Metadata.Extra <$>
    (match ComputeMetadata disk disk "/data/long.txt" with
     | Ok meta => Some meta
     | Fail _ => None
     end) =
  Some {[ "mime_type" := VString "text/plain; charset=utf-8";
          "lines" := VInt 0; "words" := VInt 0 ]}.
Proof. repeat apply conj; vm_compute; reflexivity. Qed.

End TextAnalyzer.

Section TextBundle.
Import Go hasher notions.
Context `{Codecs}.

(** The bundle of a text whose lines all fit the scanner's buffer: the
    MIME type, the number of lines and the number of words. *)
Lemma ComputeMetadata_text_short_lines (fs : FS) (path : string) (content : list byte) :
  fs path = Regular content ->
  short_lines content = true ->
  Z.of_nat (length content) < 2 ^ 63 ->
  let mime := http_DetectContentType (take 512 content) in
  strings_HasPrefix mime "image/" = false ->
  strings_HasPrefix mime "text/" = true ->
  ComputeMetadata fs fs path =
    Ok (Metadata.mk (hex_EncodeToString (sha256_Sum content)) (Z.of_nat (length content))
          (filepath_Ext path)
          {[ "mime_type" := VString mime;
             "lines" := VInt (spec_lines content);
             "words" := VInt (spec_words content) ]}).
Proof.
  intros Hfs Hs Hb mime Hi Ht.
  rewrite (ComputeMetadata_regular fs fs path content Hfs Hb).
  fold mime. unfold enriched. rewrite Hi, Ht.
  rewrite (analyzeText_counts_short_lines fs path content Hfs Hs Hb).
  reflexivity.
Qed.

End TextBundle.

(** *** The theorems at work on the examples *)

Section Witnesses.
Import Go hasher worker repository main notions fixtures.

Lemma graceful_shutdown_witness :
  boot 1 = Some booted /\ run schedule booted = Some drained /\
  consumer_done drained = true /\
  map Result.FileID (observed drained) = ["id-1"; "id-2"] /\
  observed drained = emitted drained /\
  length (observed drained) = length (accepted drained).
Proof.
  assert (run schedule booted = Some drained) as Hrun by (vm_compute; reflexivity).
  destruct (graceful_shutdown_delivers_every_result 1 booted schedule drained
              ltac:(lia) eq_refl eq_refl Hrun) as (_ & _ & _ & Hdone & _).
  split; [reflexivity |]. split; [exact Hrun |]. split; [reflexivity |].
  split; [reflexivity |]. exact (Hdone eq_refl).
Defined.

Lemma Submit_after_Shutdown_witness :
  boot 5 = Some booted5 /\ run [AShutdown] booted5 = Some closing5 /\
  Submit (pool closing5) job1 = [SubmitPanics] /\
  exec (ASubmit job1 0) closing5 = Some (panic closing5).
Proof.
  assert (run [AShutdown] booted5 = Some closing5) as Hrun by (vm_compute; reflexivity).
  destruct (Submit_after_Shutdown_panics 5 booted5 [AShutdown] closing5 job1
              ltac:(lia) eq_refl eq_refl Hrun ltac:(discriminate)) as [Hsub _].
  split; [reflexivity |]. split; [exact Hrun |]. split; [exact Hsub |]. reflexivity.
Defined.

Lemma ComputeMetadata_hashes_witness :
  exists meta,
    ComputeMetadata disk wiped "/data/notes.txt" = Ok meta /\
    Metadata.Hash meta = hex_EncodeToString (sha256_Sum notes) /\
    Metadata.Size meta = 57.
Proof.
  destruct (ComputeMetadata_hashes_whole_content disk wiped "/data/notes.txt" notes
              eq_refl ltac:(vm_compute; reflexivity)) as [_ (meta & Hm & Hh & Hs)].
  exists meta. split; [exact Hm |]. split; [exact Hh |]. exact Hs.
Defined.


Lemma enrichment_witness :
  ComputeMetadata disk disk "/data/broken.png" =
    Ok (Metadata.mk "89504e47" 4 ".png" {[ "mime_type" := VString "image/png" ]}) /\
  ComputeMetadata disk wiped "/data/notes.txt" =
    Ok (Metadata.mk (hex_EncodeToString (sha256_Sum notes)) 57 ".txt"
          {[ "mime_type" := VString "text/plain; charset=utf-8" ]}) /\
  ComputeMetadata disk disk "/data/blob.bin" =
    Ok (Metadata.mk "000102" 3 ".bin"
          {[ "mime_type" := VString "application/octet-stream" ]}).
Proof.
  split; [| split].
  - exact (proj1 (enrichment_is_best_effort disk disk "/data/broken.png"
                    [x89; x50; x4e; x47] eq_refl ltac:(vm_compute; reflexivity))
             eq_refl (Errno "decode" "" "image: unknown format") eq_refl).
  - exact (proj1 (proj2 (enrichment_is_best_effort disk wiped "/data/notes.txt"
                           notes eq_refl ltac:(vm_compute; reflexivity)))
             eq_refl eq_refl
             (Errno "open" "/data/notes.txt" "no such file or directory") eq_refl).
  - exact (proj2 (proj2 (enrichment_is_best_effort disk disk "/data/blob.bin"
                           [x00; x01; x02] eq_refl ltac:(vm_compute; reflexivity)))
             eq_refl eq_refl).
Defined.


Lemma failure_result_witness :
  Result.Hash (snd (process 0 env0 job4)) = "" /\
  Result.Metadata (snd (process 0 env0 job4)) = None.
Proof.
  destruct (failure_result_carries_no_output 0 env0 job4 ltac:(discriminate))
    as (_ & Hh & _ & _ & Hm).
  split; [exact Hh | exact Hm].
Defined.

Lemma consumer_witness :
  calls (fst (handleResults [failed1; done2] outage)) =
    [CallUpdateStatus "id-3" "failed" (Some (Errno "exec" "" "store unavailable"));
     CallUpdateMetadata "id-2" "000102" 3
       (Some {[ "mime_type" := VString "application/octet-stream" ]}) None;
     CallUpdateStatus "id-2" "completed" None].
Proof.
  destruct (@consumer_marks_failed_once_and_goes_on Store store_repository)
    as (Hone & Hsplit & _).
  pose proof (Hsplit [] [done2] failed1 outage) as Hs.
  cbn [app] in Hs. rewrite Hs. cbn [handleResults app].
  destruct (handle failed1 outage) as [evs2 repo2] eqn:Hh.
  pose proof (Hone failed1 outage (Errorf "job cancelled before processing" Canceled)
                eq_refl) as [Hc Hr].
  rewrite Hh in Hc, Hr. cbn [fst snd] in Hc, Hr. subst repo2.
  destruct (handle done2 _) as [evs3 repo3] eqn:Hd.
  cbn [fst]. unfold calls in *. rewrite filter_app, Hc, app_nil_r.
  vm_compute in Hd. injection Hd as <- <-. reflexivity.
Defined.

(** Why the worker count is taken from 0 up: [NewPool] accepts a count
    whose double wraps around to a small capacity, [Start] then launches no
    worker, and a job the queue has accepted is never processed. *)
Example wrapped_worker_count_loses_jobs :
  exists s0 s,
    boot (- 2 ^ 63 + 1) = Some s0 /\
    run [ASubmit job1 0; AShutdown; AShutdown; AShutdown; AConsume] s0
      = Some s /\
    length (accepted s) = 1%nat /\ emitted s = [] /\ consumer_done s = true.
Proof.
  eexists. eexists. split; [vm_compute; reflexivity |].
  split; [vm_compute; reflexivity |]. repeat split.
Qed.

End Witnesses.

(** *** Backpressure and the life of the workers *)

Section Backpressure.
Import Go hasher worker notions.
Context `{Codecs}.

Ltac fields :=
  cbn [pool goroutines shutdown_pc panicked accepted emitted observed consumer_done
       workers jobs results wg ctx_done buf cap closed
       with_pool with_goroutine with_shutdown panic with_jobs with_results wg_Add] in *.

Lemma held_insert (gs : list goroutine) (i : nat) (g g' : goroutine) :
  gs !! i = Some g ->
  (length (held (<[i := g']> gs)) + length (inflight g)
   = length (held gs) + length (inflight g'))%nat.
Proof.
  revert i. induction gs as [| a gs IH]; intros [| i] Hi; simpl in *; try discriminate.
  - injection Hi as ->. unfold held. cbn [flat_map]. rewrite !length_app. lia.
  - specialize (IH i Hi). unfold held in *. cbn [flat_map]. rewrite !length_app. lia.
Qed.

Lemma held_length (gs : list goroutine) : (length (held gs) <= length gs)%nat.
Proof.
  induction gs as [| g gs IH]; [reflexivity |].
  unfold held in *. cbn [flat_map]. rewrite length_app. destruct g; simpl; lia.
Qed.

Lemma exec_Bounded (w : Z) (s s' : System) (a : action) :
  Bounded w s -> exec a s = Some s' -> Bounded w s'.
Proof.
  intros [Hlen Hcj Hcr Hjl Hrl Hacc Hstream] Hex.
  destruct s as [[ws [jb jc jcl] [rb rc rcl] g c] gs pc pk acc em ob cd].
  fields. subst jc rc. unfold exec in Hex. fields.
  destruct pk; [discriminate |].
  destruct a as [job pick | i pick env | |].
  - unfold Submit, chan_send in Hex. fields.
    destruct jcl.
    { destruct pick as [| pick]; cbn in Hex.
      - injection Hex as <-. constructor; fields; first [assumption | reflexivity].
      - destruct c; destruct pick; cbn in Hex; try discriminate.
        injection Hex as <-. constructor; fields; first [assumption | reflexivity]. }
    destruct (Z.of_nat (length jb) <? 2 * w) eqn:Hroom; cbn in Hex.
    + apply Z.ltb_lt in Hroom. destruct pick as [| pick]; cbn in Hex.
      * injection Hex as <-. constructor; fields; try first [assumption | reflexivity].
        -- rewrite length_app. simpl. lia.
        -- rewrite !length_app. simpl. lia.
      * destruct c; destruct pick; cbn in Hex; try discriminate.
        injection Hex as <-. constructor; fields; first [assumption | reflexivity].
    + destruct c; destruct pick; cbn in Hex; try discriminate.
      injection Hex as <-. constructor; fields; first [assumption | reflexivity].
  - unfold worker in Hex. fields.
    destruct (gs !! i) as [[| job | r |] |] eqn:Hi; try discriminate.
    + pose proof (held_insert gs i WSelect) as Hh.
      unfold worker_select, chan_recv in Hex. fields.
      destruct jb as [| job jb'].
      * destruct jcl; destruct c; destruct pick as [| [| pick]]; cbn in Hex;
          try discriminate; injection Hex as <-;
          (constructor; fields; try first [assumption | reflexivity];
           [rewrite length_insert; assumption
           | specialize (Hh WExited Hi); simpl in *; lia]).
      * destruct pick as [| pick]; cbn in Hex.
        -- injection Hex as <-. constructor; fields; try first [assumption | reflexivity].
           ++ rewrite length_insert. assumption.
           ++ simpl in Hjl. lia.
           ++ specialize (Hh (WProcess job) Hi). simpl in *. lia.
        -- destruct c; destruct pick; cbn in Hex; try discriminate.
           injection Hex as <-. constructor; fields; try first [assumption | reflexivity].
           ++ rewrite length_insert. assumption.
           ++ specialize (Hh WExited Hi). simpl in *. lia.
    + injection Hex as <-. constructor; fields; try first [assumption | reflexivity].
      * rewrite length_insert. assumption.
      * pose proof (held_insert gs i (WProcess job)
                      (WSend (snd (process (Z.of_nat i) env job))) Hi) as Hh.
        simpl in Hh. lia.
    + unfold chan_send in Hex. fields.
      destruct rcl; [injection Hex as <-; constructor; fields; first [assumption | reflexivity] |].
      destruct (Z.of_nat (length rb) <? 2 * w) eqn:Hroom; [| discriminate].
      apply Z.ltb_lt in Hroom. injection Hex as <-.
      constructor; fields; try first [assumption | reflexivity].
      * rewrite length_insert. assumption.
      * rewrite length_app. simpl. lia.
      * pose proof (held_insert gs i (WSend r) WSelect Hi) as Hh.
        rewrite length_app. simpl in *. lia.
      * rewrite Hstream, app_assoc. reflexivity.
  - unfold Shutdown, chan_close in Hex. fields.
    destruct pc; try discriminate.
    + destruct jcl; injection Hex as <-; constructor; fields; first [assumption | reflexivity].
    + destruct (g =? 0); [| discriminate]. injection Hex as <-.
      constructor; fields; first [assumption | reflexivity].
    + destruct rcl; injection Hex as <-; constructor; fields; first [assumption | reflexivity].
  - destruct cd; [discriminate |]. unfold chan_recv in Hex. fields.
    destruct rb as [| r rb'].
    + destruct rcl; [| discriminate]. injection Hex as <-.
      constructor; fields; first [assumption | reflexivity].
    + injection Hex as <-. constructor; fields; try first [assumption | reflexivity].
      * simpl in Hrl. lia.
      * rewrite Hstream, <- app_assoc. reflexivity.
Qed.

Lemma run_Bounded (w : Z) (acts : list action) :
  forall s s', Bounded w s -> run acts s = Some s' -> Bounded w s'.
Proof.
  induction acts as [| a rest IH]; intros s s' Hs; cbn [run].
  - intros [= <-]. exact Hs.
  - destruct (exec a s) as [s1 |] eqn:Hex; [| discriminate].
    apply IH. eapply exec_Bounded; eassumption.
Qed.

Lemma boot_Bounded (w : Z) (s0 : System) :
  0 <= w < 2 ^ 63 -> boot w = Some s0 -> Bounded w s0 /\ fifo s0.
Proof.
  intros Hw. unfold boot. destruct (NewPool w) as [p |] eqn:Hp; [| discriminate].
  apply NewPool_Some in Hp as [Hw' ->]; [| exact Hw].
  intros [= <-]. unfold Start. rewrite iter_spawn.
  assert (held (replicate (Z.to_nat w) WSelect) = []) as Hh.
  { induction (Z.to_nat w) as [| n IH]; [reflexivity | exact IH]. }
  split.
  - constructor; fields; cbn [app]; rewrite ?Hh; try reflexivity; try (simpl; lia).
    rewrite length_replicate. lia.
  - unfold fifo. fields. cbn [app]. rewrite Hh. reflexivity.
Qed.

(** X1. The pool holds a bounded amount of work, whatever its callers
    do: at most [2 * w] jobs wait in the queue, at most [w] are with the
    workers, at most [2 * w] results wait for the consumer; so the jobs
    accepted are never more than [5 * w] ahead of the results consumed. *)
Theorem pool_holds_bounded_work
    (w : Z) (s0 : System) (acts : list action) (s : System) :
  0 <= w < 2 ^ 63 ->
  boot w = Some s0 ->
  run acts s0 = Some s ->
  Z.of_nat (length (buf (jobs (pool s)))) <= 2 * w /\
  Z.of_nat (length (held (goroutines s))) <= w /\
  Z.of_nat (length (buf (results (pool s)))) <= 2 * w /\
  Z.of_nat (length (accepted s)) <= Z.of_nat (length (observed s)) + 5 * w.
Proof.
  intros Hw Hboot Hrun.
  destruct (boot_Bounded w s0 Hw Hboot) as [HB0 _].
  destruct (run_Bounded w acts s0 s HB0 Hrun)
    as [Hlen Hcj Hcr Hjl Hrl Hacc Hstream].
  pose proof (held_length (goroutines s)) as Hh.
  split; [exact Hjl |]. split; [lia |]. split; [exact Hrl |].
  rewrite Hacc, Hstream, length_app. lia.
Qed.


Lemma exec_fifo (s s' : System) (a : action) :
  length (goroutines s) = 1%nat -> fifo s -> exec a s = Some s' ->
  length (goroutines s') = 1%nat /\ fifo s'.
Proof.
  intros Hlen Hf Hex. unfold fifo in *.
  destruct s as [[ws [jb jc jcl] [rb rc rcl] g c] gs pc pk acc em ob cd]. fields.
  destruct gs as [| g0 [| g1 gs]]; try discriminate. clear Hlen.
  unfold held in *. cbn [flat_map] in Hf. rewrite app_nil_r in Hf.
  unfold exec in Hex. fields. destruct pk; [discriminate |].
  destruct a as [job pick | i pick env | |].
  - unfold Submit, chan_send in Hex. fields.
    assert (map Job.FileID (acc ++ [job]) =
            map Result.FileID em ++ flat_map inflight [g0] ++ map Job.FileID (jb ++ [job]))
      as Hnew.
    { cbn [flat_map]. rewrite !map_app, Hf, app_nil_r, <- !app_assoc. reflexivity. }
    assert (map Job.FileID acc =
            map Result.FileID em ++ flat_map inflight [g0] ++ map Job.FileID jb) as Hold.
    { cbn [flat_map]. rewrite app_nil_r. exact Hf. }
    destruct jcl; [| destruct (Z.of_nat (length jb) <? jc)]; destruct c;
      destruct pick as [| [| pick]]; cbn in Hex; try discriminate;
      injection Hex as <-; fields; (split; [reflexivity |]);
      first [exact Hnew | exact Hold].
  - unfold worker in Hex. fields.
    destruct i as [| i]; [| destruct i; discriminate].
    cbn [lookup list_lookup] in Hex.
    destruct g0 as [| job | r |]; try discriminate; cbn [inflight] in Hf.
    + unfold worker_select, chan_recv in Hex. fields.
      destruct jb as [| job jb'].
      * destruct jcl; destruct c; destruct pick as [| [| pick]]; cbn in Hex;
          try discriminate; injection Hex as <-; fields;
          (split; [reflexivity |]); cbn; exact Hf.
      * destruct c; destruct pick as [| [| pick]]; cbn in Hex;
          try discriminate; injection Hex as <-; fields;
          (split; [reflexivity |]); cbn; exact Hf.
    + injection Hex as <-. fields. split; [reflexivity |].
      cbn [insert list_insert flat_map inflight]. rewrite process_FileID, app_nil_r.
      exact Hf.
    + unfold chan_send in Hex. fields.
      destruct rcl; [injection Hex as <-; fields; split; [reflexivity |]; cbn;
                     rewrite ?app_nil_r; exact Hf |].
      destruct (Z.of_nat (length rb) <? rc); [| discriminate].
      injection Hex as <-. fields. split; [reflexivity |]. cbn.
      rewrite map_app, Hf, <- !app_assoc. reflexivity.
  - unfold Shutdown, chan_close in Hex. fields.
    destruct pc; try discriminate.
    + destruct jcl; injection Hex as <-; fields; (split; [reflexivity |]); cbn;
        rewrite ?app_nil_r; exact Hf.
    + destruct (g =? 0); [| discriminate]. injection Hex as <-. fields.
      split; [reflexivity |]. cbn. rewrite ?app_nil_r. exact Hf.
    + destruct rcl; injection Hex as <-; fields; (split; [reflexivity |]); cbn;
        rewrite ?app_nil_r; exact Hf.
  - destruct cd; [discriminate |]. unfold chan_recv in Hex. fields.
    destruct rb as [| r rb'].
    + destruct rcl; [| discriminate]. injection Hex as <-. fields.
      split; [reflexivity |]. cbn. rewrite ?app_nil_r. exact Hf.
    + injection Hex as <-. fields. split; [reflexivity |]. cbn.
      rewrite ?app_nil_r. exact Hf.
Qed.

Lemma run_fifo (acts : list action) :
  forall s s', length (goroutines s) = 1%nat -> fifo s -> run acts s = Some s' -> fifo s'.
Proof.
  induction acts as [| a rest IH]; intros s s' Hl Hs; cbn [run].
  - intros [= <-]. exact Hs.
  - destruct (exec a s) as [s1 |] eqn:Hex; [| discriminate].
    destruct (exec_fifo s s1 a Hl Hs Hex) as [Hl1 Hs1]. apply IH; assumption.
Qed.

(** X2. With one worker the pool is a queue: the ids of the jobs
    accepted are, in order, those of the results sent, then the job the
    worker holds, then the jobs waiting; so the consumer sees the results
    in the order the jobs were submitted. *)
Theorem single_worker_keeps_submission_order
    (s0 : System) (acts : list action) (s : System) :
  boot 1 = Some s0 ->
  run acts s0 = Some s ->
  map Job.FileID (accepted s) =
    map Result.FileID (emitted s) ++ held (goroutines s)
    ++ map Job.FileID (buf (jobs (pool s))) /\
  map Result.FileID (observed s) `prefix_of` map Job.FileID (accepted s).
Proof.
  intros Hboot Hrun.
  destruct (boot_Bounded 1 s0 ltac:(lia) Hboot) as [HB0 Hf0].
  pose proof (run_Bounded 1 acts s0 s HB0 Hrun) as HB.
  assert (fifo s) as Hf.
  { apply (run_fifo acts s0 s); [| exact Hf0 | exact Hrun].
    pose proof (bd_workers 1 s0 HB0). lia. }
  split; [exact Hf |].
  unfold fifo in Hf. rewrite Hf, (bd_stream 1 s HB), map_app, <- app_assoc.
  eexists. reflexivity.
Qed.

End Backpressure.

Section Lifecycle.
Import Go hasher worker notions.
Context `{Codecs}.

Ltac fields :=
  cbn [pool goroutines shutdown_pc panicked accepted emitted observed consumer_done
       workers jobs results wg ctx_done buf cap closed
       with_pool with_goroutine with_shutdown panic with_jobs with_results wg_Add] in *.

Lemma graceful_run_Inv (w : Z) (s0 : System) (acts : list action) (s : System) :
  0 <= w < 2 ^ 63 -> boot w = Some s0 -> graceful acts = true ->
  run acts s0 = Some s -> Inv w s.
Proof.
  intros Hw Hboot Hg Hrun.
  destruct (boot_Inv w s0 Hw Hboot) as (HI0 & Hpc0 & _ & _).
  apply (run_Inv w acts s0 s HI0); [| exact Hrun].
  unfold disciplined. rewrite Hpc0. exact Hg.
Qed.

(** X3. [Submit] never returns false: the pool's context is never
    cancelled. Until [Shutdown] is called it accepts the job at the end
    of the queue when the queue has room, and blocks when the queue holds
    [2 * w] jobs. *)
Theorem Submit_accepts_or_blocks
    (w : Z) (s0 : System) (acts : list action) (s : System) (job : Job.t) :
  0 <= w < 2 ^ 63 ->
  boot w = Some s0 ->
  graceful acts = true ->
  run acts s0 = Some s ->
  ~ In Refused (Submit (pool s) job) /\
  (shutdown_pc s = NotCalled ->
   Submit (pool s) job =
     if Z.of_nat (length (buf (jobs (pool s)))) <? 2 * w
     then [Accepted (with_jobs (pool s)
                       (mkChan (buf (jobs (pool s)) ++ [job]) (2 * w) false))]
     else []).
Proof.
  intros Hw Hboot Hg Hrun.
  pose proof (graceful_run_Inv w s0 acts s Hw Hboot Hg Hrun) as HI.
  pose proof (inv_ctx w s HI) as Hctx.
  pose proof (inv_cap_jobs w s HI) as Hcap.
  pose proof (inv_jobs_closed w s HI) as Hcl.
  unfold Submit, chan_send. rewrite Hctx, Hcap, app_nil_r. split.
  - destruct (closed _); [intros [Hin | []]; discriminate |].
    destruct (_ <? _); [intros [Hin | []]; discriminate | intros []].
  - intros Hpc. rewrite Hpc in Hcl. cbn in Hcl. rewrite Hcl.
    unfold with_jobs. rewrite Hctx. destruct (_ <? _); reflexivity.
Qed.

Lemma all_alive (gs : list goroutine) :
  sum_list_with alive gs = length gs -> Forall (fun g => g <> WExited) gs.
Proof.
  induction gs as [| g gs IH]; intros Hs; constructor.
  - intros ->. simpl in Hs.
    assert (sum_list_with alive gs <= length gs)%nat; [| lia].
    clear. induction gs as [| g gs IH]; simpl; [lia | destruct g; simpl; lia].
  - apply IH.
    assert (sum_list_with alive gs <= length gs)%nat.
    { clear. induction gs as [| g gs IH]; simpl; [lia | destruct g; simpl; lia]. }
    simpl in Hs. destruct g; simpl in Hs; lia.
Qed.

Lemma all_exited (gs : list goroutine) :
  sum_list_with alive gs = 0%nat -> Forall (fun g => g = WExited) gs.
Proof.
  induction gs as [| g gs IH]; intros Hs; constructor.
  - destruct g; simpl in Hs; try lia. reflexivity.
  - apply IH. simpl in Hs. lia.
Qed.

(** X4. Workers are neither lost nor left behind. The pool has its
    [w] goroutines; until [Shutdown] is called none of them has returned
    and none can leave its [select] by returning; once [Wait] has
    returned all of them have returned, the job queue is empty and the
    wait group is at zero. *)
Theorem workers_exit_at_shutdown_only
    (w : Z) (s0 : System) (acts : list action) (s : System) :
  0 <= w < 2 ^ 63 ->
  boot w = Some s0 ->
  graceful acts = true ->
  run acts s0 = Some s ->
  Z.of_nat (length (goroutines s)) = w /\
  (shutdown_pc s = NotCalled ->
   Forall (fun g => g <> WExited) (goroutines s) /\
   ~ In Exits (worker_select (pool s))) /\
  (shutdown_pc s = Closing \/ shutdown_pc s = Returned ->
   Forall (fun g => g = WExited) (goroutines s) /\
   buf (jobs (pool s)) = [] /\ wg (pool s) = 0).
Proof.
  intros Hw Hboot Hg Hrun.
  pose proof (graceful_run_Inv w s0 acts s Hw Hboot Hg Hrun) as HI.
  split; [exact (inv_workers w s HI) |]. split.
  - intros Hpc. pose proof (inv_jobs_closed w s HI) as Hcl.
    rewrite Hpc in Hcl. cbn in Hcl. split.
    + apply all_alive.
      destruct (inv_exit w s HI) as [Hx | [_ Hx]]; [| congruence].
      pose proof (inv_wg w s HI). pose proof (inv_workers w s HI). lia.
    + unfold worker_select, chan_recv. rewrite Hcl, (inv_ctx w s HI), app_nil_r.
      destruct (buf _); [intros [] | intros [Hin | []]; discriminate].
  - intros Hpc. pose proof (inv_waited w s HI Hpc) as Hwg.
    pose proof (inv_wg w s HI) as Hsum.
    split; [apply all_exited; lia |]. split; [| exact Hwg].
    destruct (inv_exit w s HI) as [Hx | [Hx _]]; [| exact Hx].
    pose proof (inv_jobs_len w s HI).
    destruct (buf (jobs (pool s))); [reflexivity | simpl in *; lia].
Qed.

(** X5. [Shutdown] can be called once only: a second call finds the
    jobs channel closed and panics at its first statement. *)
Theorem second_Shutdown_panics
    (w : Z) (s0 : System) (acts : list action) (s : System) :
  0 <= w < 2 ^ 63 ->
  boot w = Some s0 ->
  graceful acts = true ->
  run acts s0 = Some s ->
  shutdown_pc s <> NotCalled ->
  Shutdown (with_shutdown s NotCalled) = Some (panic (with_shutdown s NotCalled)).
Proof.
  intros Hw Hboot Hg Hrun Hpc.
  pose proof (graceful_run_Inv w s0 acts s Hw Hboot Hg Hrun) as HI.
  pose proof (inv_jobs_closed w s HI) as Hcl.
  unfold Shutdown, chan_close. fields. rewrite Hcl.
  destruct (shutdown_pc s); [congruence | reflexivity ..].
Qed.

(** X6. At every moment each accepted job is in exactly one place:
    waiting in the queue, with a worker, or answered by a result that was
    sent. So every result sent is for an accepted job, and if the ids of
    the jobs are distinct no id gets two results. *)
Theorem every_result_answers_an_accepted_job
    (w : Z) (s0 : System) (acts : list action) (s : System) :
  0 <= w < 2 ^ 63 ->
  boot w = Some s0 ->
  graceful acts = true ->
  run acts s0 = Some s ->
  (forall x,
     occ x (map Job.FileID (accepted s)) =
       (occ x (map Job.FileID (buf (jobs (pool s))))
        + occ x (held (goroutines s))
        + occ x (map Result.FileID (emitted s)))%nat) /\
  (forall r, In r (emitted s) ->
     exists job, In job (accepted s) /\ Job.FileID job = Result.FileID r) /\
  (NoDup (map Job.FileID (accepted s)) -> NoDup (map Result.FileID (emitted s))).
Proof.
  intros Hw Hboot Hg Hrun.
  pose proof (graceful_run_Inv w s0 acts s Hw Hboot Hg Hrun) as HI.
  pose proof (inv_count w s HI) as Hcount.
  assert (forall gs x, pending x gs = occ x (held gs)) as Hheld.
  { intros gs x. unfold pending, held.
    induction gs as [| g gs IH]; [reflexivity |].
    cbn [sum_list_with flat_map]. rewrite occ_app, IH. reflexivity. }
  split; [intros x; rewrite (Hcount x), Hheld; reflexivity |]. split.
  - intros r Hr.
    assert (0 < occ (Result.FileID r) (map Job.FileID (accepted s)))%nat as Hpos.
    { rewrite (Hcount (Result.FileID r)).
      assert (0 < occ (Result.FileID r) (map Result.FileID (emitted s)))%nat; [| lia].
      unfold occ. apply count_occ_In. apply in_map. exact Hr. }
    unfold occ in Hpos. apply count_occ_In in Hpos.
    apply in_map_iff in Hpos as (job & Hid & Hin). exists job. split; assumption.
  - intros Hnd. apply NoDup_ListNoDup, (NoDup_count_occ string_dec). intros x.
    apply NoDup_ListNoDup in Hnd.
    apply (proj1 (NoDup_count_occ string_dec _)) with (x := x) in Hnd.
    specialize (Hcount x). unfold occ in Hcount. lia.
Qed.

(** A worker that cannot take a step is at its [select], with nothing
    to receive, or has returned. *)
Lemma worker_at_rest (w : Z) (s : System) (id : nat) (g : goroutine) :
  Inv w s ->
  buf (results (pool s)) = [] ->
  goroutines s !! id = Some g ->
  (forall pick env, exec (AWorker id pick env) s = None) ->
  g = WExited \/ (g = WSelect /\ buf (jobs (pool s)) = []).
Proof.
  intros HI Hres Hg Hrest.
  pose proof (Hrest 0%nat (mkEnv 0%nat 0%nat (fun _ => Directory) (fun _ => Directory)))
    as Hex.
  unfold exec in Hex. rewrite (inv_alive w s HI) in Hex. unfold worker in Hex.
  rewrite Hg in Hex. destruct g as [| job | r |].
  - right. split; [reflexivity |].
    unfold worker_select, chan_recv in Hex.
    destruct (buf (jobs (pool s))); [reflexivity | discriminate].
  - discriminate.
  - exfalso. unfold chan_send in Hex. rewrite Hres, (inv_cap_results w s HI) in Hex.
    destruct (closed (results (pool s))); [discriminate |].
    assert (0 < w) as Hw.
    { pose proof (inv_workers w s HI) as Hl.
      apply lookup_lt_Some in Hg. lia. }
    cbn [length] in Hex.
    destruct (Z.of_nat 0 <? 2 * w) eqn:E; [discriminate |].
    apply Z.ltb_ge in E. lia.
  - left. reflexivity.
Qed.

Lemma idle_workers_hold_nothing (gs : list goroutine) (x : string) :
  Forall (fun g => g = WExited \/ g = WSelect) gs ->
  pending x gs = 0%nat /\ held gs = [].
Proof.
  unfold pending, held. induction gs as [| g gs IH]; intros Hall; [split; reflexivity |].
  apply Forall_cons in Hall as [Hg Hall]. destruct (IH Hall) as [IH1 IH2].
  cbn [sum_list_with flat_map]. rewrite IH1, IH2.
  destruct Hg as [-> | ->]; split; reflexivity.
Qed.

(** X7. The pool answers every job it accepts, with or without
    [Shutdown]. Each step of a worker, of the consumer or of [Shutdown]
    brings [measure] down, so when no further job is submitted the
    workers and the consumer come to rest after at most [measure s]
    steps; and when no worker and no consumer step can be taken, no job
    is queued or held, the results sent are one per accepted job, and the
    consumer has received them all. *)
Theorem idle_pool_has_answered_every_job
    (w : Z) (s0 : System) (acts : list action) (s : System) :
  0 <= w < 2 ^ 63 ->
  boot w = Some s0 ->
  graceful acts = true ->
  run acts s0 = Some s ->
  (forall a s', is_submit a = false -> exec a s = Some s' ->
     (measure s' < measure s)%nat) /\
  ((forall id pick env, exec (AWorker id pick env) s = None) ->
   exec AConsume s = None ->
   buf (jobs (pool s)) = [] /\
  held (goroutines s) = [] /\
  map Result.FileID (emitted s) ≡ₚ map Job.FileID (accepted s) /\
   observed s = emitted s).
Proof.
  intros Hw Hboot Hg Hrun.
  pose proof (graceful_run_Inv w s0 acts s Hw Hboot Hg Hrun) as HI.
  split.
  { intros a s' Hns Hex. pose proof (exec_measure w s s' a HI Hns Hex). lia. }
  intros Hworkers Hconsumer.
  assert (buf (results (pool s)) = []) as Hres.
  { unfold exec in Hconsumer. rewrite (inv_alive w s HI) in Hconsumer.
    destruct (consumer_done s) eqn:Hcd; [exact (proj2 (inv_done w s HI Hcd)) |].
    unfold chan_recv in Hconsumer.
    destruct (buf (results (pool s))); [reflexivity | discriminate]. }
  assert (forall id g, goroutines s !! id = Some g ->
            g = WExited \/ (g = WSelect /\ buf (jobs (pool s)) = [])) as Hgs.
  { intros id g Hg'. apply (worker_at_rest w s id g HI Hres Hg'). apply Hworkers. }
  assert (forall x, pending x (goroutines s) = 0%nat /\ held (goroutines s) = []) as Hidle.
  { intros x. apply idle_workers_hold_nothing.
    apply Forall_lookup. intros id g Hg'. destruct (Hgs id g Hg') as [-> | [-> _]]; auto. }
  assert (buf (jobs (pool s)) = []) as Hjobs.
  { destruct (inv_exit w s HI) as [Hx | [Hx _]]; [| exact Hx].
    pose proof (inv_wg w s HI) as Hwg. pose proof (inv_jobs_len w s HI) as Hjl.
    destruct (Z.eq_dec w 0) as [-> | Hpos].
    - destruct (buf (jobs (pool s))); [reflexivity | cbn [length] in Hjl; lia].
    - destruct (some_alive (goroutines s)) as (i & g & Hi & Hne); [lia |].
      destruct (Hgs i g Hi) as [-> | [_ Hb]]; [congruence | exact Hb]. }
  split; [exact Hjobs |]. split; [exact (proj2 (Hidle "")) |]. split.
  - apply (Permutation_count_occ string_dec). intros x.
    pose proof (inv_count w s HI x) as Hc. rewrite Hjobs, (proj1 (Hidle x)) in Hc.
    unfold occ in Hc. cbn in Hc. lia.
  - rewrite (inv_stream w s HI), Hres, app_nil_r. reflexivity.
Qed.

End Lifecycle.

(** *** What the analyzer and [process] answer *)

Section AnalyzerOutcomes.
Import Go hasher notions.
Context `{Codecs}.

(** Whatever its size, a regular file is analysed without an error. *)
Lemma ComputeMetadata_regular_any (fs fs' : FS) (path : string) (content : list byte) :
  fs path = Regular content ->
  exists hash size,
    ComputeMetadata fs fs' path =
      Ok (Metadata.mk hash size (filepath_Ext path)
            (enriched fs' path (http_DetectContentType (take 512 content)))).
Proof.
  intros Hfs. unfold ComputeMetadata, os_Open. rewrite Hfs.
  rewrite File_Read_regular by lia. rewrite drop_0.
  destruct content as [| b content'] eqn:Ec.
  - eexists _, _. simpl. reflexivity.
  - rewrite <- Ec in *. unfold File_Seek.
    cbn [data name offset Z.eqb Z.ltb Z.leb Z.compare orb andb negb Z.to_nat].
    destruct (io_Copy_total path content 0 sha256_New) as (h' & n & f' & Hc).
    change (Z.to_nat 0) with 0%nat. rewrite Hc. eexists _, _. reflexivity.
Qed.

Lemma ComputeMetadata_missing (fs fs' : FS) (path msg : string) :
  fs path = Missing msg ->
  ComputeMetadata fs fs' path =
    Fail (Errorf "hasher: open file" (Errno "open" path msg)).
Proof. intros Hfs. unfold ComputeMetadata, os_Open. rewrite Hfs. reflexivity. Qed.

Lemma ComputeMetadata_directory (fs fs' : FS) (path : string) :
  fs path = Directory ->
  ComputeMetadata fs fs' path =
    Fail (Errorf "hasher: read head" (Errno "read" path "is a directory")).
Proof. intros Hfs. unfold ComputeMetadata, os_Open. rewrite Hfs. reflexivity. Qed.

Lemma ComputeMetadata_Ok_regular (fs fs' : FS) (path : string) (meta : Metadata.t) :
  ComputeMetadata fs fs' path = Ok meta -> exists content, fs path = Regular content.
Proof.
  intros Hm. destruct (fs path) as [msg | | content] eqn:Hfs.
  - rewrite (ComputeMetadata_missing fs fs' path msg Hfs) in Hm. discriminate.
  - rewrite (ComputeMetadata_directory fs fs' path Hfs) in Hm. discriminate.
  - exists content. reflexivity.
Qed.

(** The extension reported is that of the path. *)
Lemma ComputeMetadata_Extension (fs fs' : FS) (path : string) (meta : Metadata.t) :
  ComputeMetadata fs fs' path = Ok meta -> Metadata.Extension meta = filepath_Ext path.
Proof.
  intros Hm. destruct (ComputeMetadata_Ok_regular fs fs' path meta Hm) as [content Hfs].
  destruct (ComputeMetadata_regular_any fs fs' path content Hfs) as (h & n & Hm').
  rewrite Hm' in Hm. injection Hm as <-. reflexivity.
Qed.

Lemma wrap64_add (a b : Z) : wrap64 (wrap64 a + b) = wrap64 (a + b).
Proof.
  unfold wrap64. f_equal.
  replace ((a + 2 ^ 63) mod 2 ^ 64 - 2 ^ 63 + b + 2 ^ 63)
    with ((a + 2 ^ 63) mod 2 ^ 64 + b) by lia.
  rewrite Z.add_mod_idemp_l by lia. f_equal. lia.
Qed.

(** [io.Copy] from a regular file of any size writes all that is left
    of it; its count is the length on 64 bits. *)
Lemma copy_loop_any (fuel : nat) :
  forall (nm : string) (content : list byte) (off : nat) (h : Hash) (written : Z),
    (length (drop off content) < fuel)%nat ->
    copy_loop fuel h (mkFile nm (Some content) off) (wrap64 written) =
      (h ++ drop off content,
       wrap64 (written + Z.of_nat (length (drop off content))),
       None,
       mkFile nm (Some content) (off + length (drop off content))).
Proof.
  induction fuel as [| fuel IH]; intros nm content off h written Hfuel; [lia |].
  cbn [copy_loop]. rewrite File_Read_regular by apply copy_buf_pos.
  destruct (drop off content) as [| b rest] eqn:E.
  - cbn [length]. rewrite app_nil_r, Z.add_0_r, Nat.add_0_r. reflexivity.
  - set (chunk := take copy_buf (b :: rest)).
    assert (drop (off + length chunk) content = drop (length chunk) (b :: rest)) as Hd.
    { rewrite <- E, drop_drop. reflexivity. }
    assert (length chunk + length (drop (length chunk) (b :: rest))
            = length (b :: rest))%nat as Hl.
    { rewrite length_drop. unfold chunk. rewrite length_take. lia. }
    assert (0 < length chunk)%nat as Hpos.
    { unfold chunk. rewrite length_take. pose proof copy_buf_pos. cbn [length]. lia. }
    destruct chunk as [| c0 chunk'] eqn:Ec; [cbn [length] in Hpos; lia |].
    rewrite <- Ec in *.
    unfold int_add. rewrite wrap64_add.
    rewrite IH by (rewrite Hd; cbn [length] in *; lia). rewrite Hd.
    assert (chunk ++ drop (length chunk) (b :: rest) = b :: rest) as Hcat
      by apply take_drop_length.
    unfold Hash_Write. rewrite <- app_assoc, Hcat.
    replace (written + Z.of_nat (length chunk)
             + Z.of_nat (length (drop (length chunk) (b :: rest))))
      with (written + Z.of_nat (length (b :: rest))) by lia.
    replace (off + length chunk + length (drop (length chunk) (b :: rest)))%nat
      with (off + length (b :: rest))%nat by lia.
    reflexivity.
Qed.

(** X8. What [ComputeMetadata] answers, by what the path names. On a
    regular file of any size it succeeds, with the digest of the whole
    content, the length of the content as an [int64], the extension of
    the path and the bundle of the category step. A path that cannot be
    opened fails with "hasher: open file", a directory with "hasher: read
    head", each wrapping the system's error. *)
Theorem ComputeMetadata_by_what_the_path_names (fs fs' : FS) (path : string) :
  (forall content, fs path = Regular content ->
     ComputeMetadata fs fs' path =
       Ok (Metadata.mk
             (hex_EncodeToString (sha256_Sum content))
             (wrap64 (Z.of_nat (length content)))
             (filepath_Ext path)
             (enriched fs' path (http_DetectContentType (take 512 content))))) /\
  (forall msg, fs path = Missing msg ->
     ComputeMetadata fs fs' path =
       Fail (Errorf "hasher: open file" (Errno "open" path msg))) /\
  (fs path = Directory ->
     ComputeMetadata fs fs' path =
       Fail (Errorf "hasher: read head" (Errno "read" path "is a directory"))).
Proof.
  split; [| split].
  - intros content Hfs. unfold ComputeMetadata, os_Open. rewrite Hfs.
    rewrite File_Read_regular by lia. rewrite drop_0.
    destruct content as [| b content'] eqn:Ec.
    + simpl. reflexivity.
    + rewrite <- Ec in *. unfold File_Seek.
      cbn [data name offset Z.eqb Z.ltb Z.leb Z.compare orb andb negb Z.to_nat].
      change (Z.to_nat 0) with 0%nat. unfold io_Copy, file_rest. cbn [data offset].
      change 0 with (wrap64 0) at 1.
      rewrite copy_loop_any by (rewrite drop_0; lia).
      rewrite drop_0. unfold sha256_New. rewrite app_nil_l, Z.add_0_l. reflexivity.
  - apply ComputeMetadata_missing.
  - apply ComputeMetadata_directory.
Qed.

(** X9. A bundle always has the MIME type sniffed from the first 512
    bytes, under "mime_type", and at most one block besides: width and
    height for an image, lines and words for a text. No analyzer
    overwrites the MIME type. The extension is that of the path. *)
Theorem bundle_has_mime_type_and_one_block
    (fs fs' : FS) (path : string) (meta : Metadata.t) :
  ComputeMetadata fs fs' path = Ok meta ->
  exists content,
    fs path = Regular content /\
    Metadata.Extension meta = filepath_Ext path /\
    let mime := http_DetectContentType (take 512 content) in
    Metadata.Extra meta !! "mime_type" = Some (VString mime) /\
    (Metadata.Extra meta = {[ "mime_type" := VString mime ]} \/
     (strings_HasPrefix mime "image/" = true /\
      exists width height,
        Metadata.Extra meta =
          {[ "mime_type" := VString mime;
             "width" := VInt width; "height" := VInt height ]}) \/
     (strings_HasPrefix mime "image/" = false /\
      strings_HasPrefix mime "text/" = true /\
      exists lines words,
        Metadata.Extra meta =
          {[ "mime_type" := VString mime;
             "lines" := VInt lines; "words" := VInt words ]})).
Proof.
  intros Hm.
  destruct (ComputeMetadata_Ok_regular fs fs' path meta Hm) as [content Hfs].
  exists content. split; [exact Hfs |].
  destruct (ComputeMetadata_regular_any fs fs' path content Hfs) as (h & n & Hm').
  rewrite Hm' in Hm. injection Hm as <-. cbn [Metadata.Extension Metadata.Extra].
  split; [reflexivity |]. cbv zeta. unfold enriched.
  set (mime := http_DetectContentType (take 512 content)).
  destruct (strings_HasPrefix mime "image/") eqn:Hi.
  - unfold analyzeImage. destruct (os_Open fs' path) as [f | e].
    + destruct (DecodeConfig f) as [[width height] | e].
      * split; [reflexivity |]. right. left. split; [reflexivity |].
        exists width, height. apply map_eq. intros k.
        rewrite lookup_union.
        destruct (decide (k = "mime_type")) as [-> | Hk1]; [reflexivity |].
        destruct (decide (k = "width")) as [-> | Hk2]; [reflexivity |].
        destruct (decide (k = "height")) as [-> | Hk3]; [reflexivity |].
        rewrite !lookup_insert_ne, !lookup_singleton_ne by congruence. reflexivity.
      * split; [reflexivity |]. left. reflexivity.
    + split; [reflexivity |]. left. reflexivity.
  - destruct (strings_HasPrefix mime "text/") eqn:Ht.
    + unfold analyzeText. destruct (os_Open fs' path) as [f | e].
      * destruct (scan_loop _ _ _ _) as [lines words].
        split; [reflexivity |]. right. right. split; [reflexivity |].
        split; [reflexivity |].
        exists lines, words. apply map_eq. intros k.
        rewrite lookup_union.
        destruct (decide (k = "mime_type")) as [-> | Hk1]; [reflexivity |].
        destruct (decide (k = "lines")) as [-> | Hk2]; [reflexivity |].
        destruct (decide (k = "words")) as [-> | Hk3]; [reflexivity |].
        rewrite !lookup_insert_ne, !lookup_singleton_ne by congruence. reflexivity.
      * split; [reflexivity |]. left. reflexivity.
    + split; [reflexivity |]. left. reflexivity.
Qed.

(** X10. The counts of a text are those of the file as the text
    analyzer finds it when it opens the path again, while the digest, the
    size and the MIME type are those of the file that was hashed. Where
    every line of the reopened file is shorter than 64 KiB the bundle
    holds its number of lines and of words. *)
Theorem text_counts_are_of_the_reopened_file
    (fs fs' : FS) (path : string) (content content' : list byte) :
  fs path = Regular content ->
  fs' path = Regular content' ->
  Z.of_nat (length content) < 2 ^ 63 ->
  Z.of_nat (length content') < 2 ^ 63 ->
  short_lines content' = true ->
  let mime := http_DetectContentType (take 512 content) in
  strings_HasPrefix mime "image/" = false ->
  strings_HasPrefix mime "text/" = true ->
  ComputeMetadata fs fs' path =
    Ok (Metadata.mk (hex_EncodeToString (sha256_Sum content)) (Z.of_nat (length content))
          (filepath_Ext path)
          {[ "mime_type" := VString mime;
             "lines" := VInt (spec_lines content');
             "words" := VInt (spec_words content') ]}).
Proof.
  intros Hfs Hfs' Hb Hb' Hs mime Hi Ht.
  rewrite (ComputeMetadata_regular fs fs' path content Hfs Hb).
  fold mime. unfold enriched. rewrite Hi, Ht.
  rewrite (analyzeText_counts_short_lines fs' path content' Hfs' Hs Hb').
  reflexivity.
Qed.

End AnalyzerOutcomes.

Section ProcessOutcomes.
Import Go hasher worker notions.
Context `{Codecs}.

(** X11. [process] reports success exactly when the context is live at
    both checks and the analysis succeeds, and then the result is the
    analysis. A context that is cancelled while the analysis runs gives a
    failure whatever the analysis found. The analysis is started exactly
    when the context is live at the first check. *)
Theorem process_reports_success_iff (workerID : Z) (env : Env) (job : Job.t) :
  let ctx := match Job.Ctx job with Some c => c | None => Background end in
  let pass := ComputeMetadata (fs_hash env) (fs_extra env) (Job.FilePath job) in
  let r := snd (process workerID env job) in
  (Result.Err r = None <->
   Err ctx (t_check env) = None /\ Err ctx (t_done env) = None /\
   exists meta, pass = Ok meta) /\
  (forall meta, Result.Err r = None -> pass = Ok meta ->
     r = Result.mk (Job.FileID job) (Metadata.Hash meta) (Metadata.Size meta)
           (Metadata.Extension meta) (Some (Metadata.Extra meta)) None) /\
  (forall e, Err ctx (t_check env) = None -> Err ctx (t_done env) = Some e ->
     process workerID env job =
       ([Log "INFO" "processing started" workerID (Job.FileID job);
         Analyze (Job.FilePath job);
         Log "WARN" "job context cancelled during processing" workerID (Job.FileID job)],
        Result.mk (Job.FileID job) "" 0 "" None
          (Some (Errorf "job cancelled during processing" e)))) /\
  (In (Analyze (Job.FilePath job)) (fst (process workerID env job)) <->
   Err ctx (t_check env) = None).
Proof.
  intros ctx pass r. unfold r, process. fold ctx. fold pass.
  destruct (Err ctx (t_check env)) as [e1 |] eqn:E1.
  - split; [| split; [| split]].
    + split; [discriminate | intros [? _]; discriminate].
    + discriminate.
    + discriminate.
    + split; [intros [] | discriminate].
  - destruct (Err ctx (t_done env)) as [e2 |] eqn:E2.
    + split; [| split; [| split]].
      * split; [discriminate | intros (_ & ? & _); discriminate].
      * discriminate.
      * intros e _ [= <-]. reflexivity.
      * split; [reflexivity | intros _; right; left; reflexivity].
    + destruct pass as [meta | e3] eqn:Ep.
      * split; [| split; [| split]].
        -- split; [intros _; repeat split; exists meta; reflexivity | reflexivity].
        -- intros m _ [= <-]. reflexivity.
        -- discriminate.
        -- split; [reflexivity | intros _; right; left; reflexivity].
      * split; [| split; [| split]].
        -- split; [discriminate | intros (_ & _ & m & ?); discriminate].
        -- discriminate.
        -- discriminate.
        -- split; [reflexivity | intros _; right; left; reflexivity].
Qed.

End ProcessOutcomes.

(** *** The text analyzer up to a line that does not fit *)

Section LongLines.
Import Go hasher notions.

Local Opaque MaxScanTokenSize.

Lemma Scan_too_long (long tk : list byte) (err : option error) :
  bytes_IndexByte (take MaxScanTokenSize long) x0a = None ->
  (MaxScanTokenSize <=? length long)%nat = true ->
  Scan (mkScanner (Some long) tk err) =
    (false, mkScanner (Some long) [] (Some ErrTooLong)).
Proof.
  intros Hnl Hlen. apply Nat.leb_le in Hlen. unfold Scan. cbn [input].
  replace (length long <? MaxScanTokenSize)%nat with false
    by (symmetry; apply Nat.ltb_ge; exact Hlen).
  unfold ScanLines. cbn [andb]. rewrite Hnl. reflexivity.
Qed.

Lemma whole_lines_cut (s : list byte) :
  s <> [] -> whole_lines s = true ->
  exists rest, snd (cut_line s) = Some rest /\ whole_lines rest = true.
Proof.
  induction s as [| b s IH]; [congruence |]. intros _ Hw.
  cbn [cut_line]. destruct (Byte.eqb b x0a) eqn:E.
  - exists s. split; [reflexivity |].
    destruct s as [| b' s']; [reflexivity | exact Hw].
  - destruct s as [| b' s'].
    + unfold whole_lines in Hw. cbn in Hw. congruence.
    + destruct (IH ltac:(discriminate) Hw) as (rest & Hc & Hr).
      destruct (cut_line (b' :: s')) as [line after]. cbn [snd] in *.
      exists rest. split; assumption.
Qed.

(** The loop of [analyzeText] up to a line that does not fit. *)
Lemma scan_loop_until_long (long : list byte) (fuel : nat) :
  bytes_IndexByte (take MaxScanTokenSize long) x0a = None ->
  (MaxScanTokenSize <=? length long)%nat = true ->
  forall (before tk : list byte) (err : option error) (lines words : Z),
    (length before < fuel)%nat ->
    short_lines before = true ->
    whole_lines before = true ->
    0 <= lines -> 0 <= words ->
    lines + Z.of_nat (length before) < 2 ^ 63 ->
    words + Z.of_nat (length before) < 2 ^ 63 ->
    scan_loop fuel (mkScanner (Some (before ++ long)) tk err) lines words =
      (lines + spec_lines before, words + spec_words before).
Proof.
  intros Hnl Hlong.
  induction fuel as [| fuel IH]; intros before tk err lines words Hf Hs Hwl Hl Hw Hbl Hbw;
    [lia |].
  cbn [scan_loop].
  destruct before as [| b0 before'] eqn:Eb.
  { cbn [app]. rewrite Scan_too_long by assumption.
    unfold spec_words. simpl. rewrite !Z.add_0_r. reflexivity. }
  rewrite <- Eb in *.
  assert (before <> []) as Hne by (rewrite Eb; discriminate).
  destruct (cut_line_spec before) as [Hcat Hnone].
  destruct (short_lines_cut before 0 Hs) as [Hlen Hrest].
  destruct (whole_lines_cut before Hne Hwl) as (rest & Hcut & Hwrest).
  destruct (cut_line before) as [line after]. cbn [fst snd] in *. subst after.
  assert (length line < MaxScanTokenSize)%nat as Hlen'.
  { destruct Hlen as [-> | Hlen]; [apply MaxScanTokenSize_pos | lia]. }
  pose proof (Fields_length line) as Hfl.
  rewrite Hcat, <- app_assoc. cbn [app].
  rewrite Scan_line by assumption. cbn [Go.tok].
  assert (length before = length line + S (length rest))%nat as Hlb.
  { rewrite Hcat at 1. rewrite length_app. reflexivity. }
  rewrite !int_add_small by (rewrite ?Fields_dropCR; lia).
  rewrite IH; try (rewrite ?Fields_dropCR; lia); [| exact Hrest | exact Hwrest].
  rewrite spec_lines_line by exact Hnone.
  rewrite spec_words_line. f_equal; lia.
Qed.

(** X12. What [analyzeText] makes of a line that does not fit the
    scanner's buffer: it stops there without an error. For a text that
    is whole short lines followed by a line of 64 KiB or more, the counts
    are the lines and the words of the part before that line; what
    follows is not counted. *)
Theorem analyzeText_stops_at_the_first_long_line
    (fs : FS) (path : string) (before long : list byte) :
  fs path = Regular (before ++ long) ->
  short_lines before = true ->
  whole_lines before = true ->
  bytes_IndexByte (take MaxScanTokenSize long) x0a = None ->
  (MaxScanTokenSize <=? length long)%nat = true ->
  Z.of_nat (length before) < 2 ^ 63 ->
  analyzeText fs path =
    Ok {[ "lines" := VInt (spec_lines before); "words" := VInt (spec_words before) ]}.
Proof.
  intros Hfs Hs Hw Hnl Hlong Hb. unfold analyzeText, os_Open. rewrite Hfs.
  unfold bufio_NewScanner, file_rest. cbn [data offset]. rewrite drop_0.
  rewrite (scan_loop_until_long long) by (assumption || rewrite ?length_app; lia).
  reflexivity.
Qed.

End LongLines.

(** *** A text analysis that fails *)

Section ScanFailure.
Import Go hasher notions.
Context `{Codecs}.

Local Opaque MaxScanTokenSize.

(** The loop of [analyzeText] ends at a line that does not fit, with
    [ErrTooLong] in the scanner. *)
Lemma scan_rest_until_long (long : list byte) (fuel : nat) :
  bytes_IndexByte (take MaxScanTokenSize long) x0a = None ->
  (MaxScanTokenSize <=? length long)%nat = true ->
  forall (before tk : list byte) (err : option error),
    (length before < fuel)%nat ->
    short_lines before = true ->
    whole_lines before = true ->
    scan_rest fuel (mkScanner (Some (before ++ long)) tk err) =
      mkScanner (Some long) [] (Some ErrTooLong).
Proof.
  intros Hnl Hlong.
  induction fuel as [| fuel IH]; intros before tk err Hf Hs Hwl; [lia |].
  cbn [scan_rest].
  destruct before as [| b0 before'] eqn:Eb.
  { cbn [app]. rewrite Scan_too_long by assumption. reflexivity. }
  rewrite <- Eb in *.
  assert (before <> []) as Hne by (rewrite Eb; discriminate).
  destruct (cut_line_spec before) as [Hcat Hnone].
  destruct (short_lines_cut before 0 Hs) as [Hlen Hrest].
  destruct (whole_lines_cut before Hne Hwl) as (rest & Hcut & Hwrest).
  destruct (cut_line before) as [line after]. cbn [fst snd] in *. subst after.
  assert (length line < MaxScanTokenSize)%nat as Hlen'.
  { destruct Hlen as [-> | Hlen]; [apply MaxScanTokenSize_pos | lia]. }
  assert (length before = length line + S (length rest))%nat as Hlb.
  { rewrite Hcat at 1. rewrite length_app. reflexivity. }
  rewrite Hcat, <- app_assoc. cbn [app].
  rewrite Scan_line by assumption.
  apply IH; [lia | exact Hrest | exact Hwrest].
Qed.

(** C6, as the code has it. A failure inside the text analyzer does
    not take the bundle back to the MIME type alone. Let the text, as
    the analyzer finds it when it opens the path again, be whole short
    lines followed by a line of 64 KiB or more. The scan then fails: the
    scanner ends with [ErrTooLong]. [analyzeText] never asks the scanner
    for its error and returns the counts reached, with a nil error; so
    [ComputeMetadata] succeeds, with the digest and the size of the
    content, and its bundle holds those counts beside the MIME type: it
    is not the bundle of the MIME type alone. *)
Theorem text_scan_failure_stays_in_the_bundle
    (fs fs' : FS) (path : string) (content before long : list byte) :
  fs path = Regular content ->
  Z.of_nat (length content) < 2 ^ 63 ->
  fs' path = Regular (before ++ long) ->
  short_lines before = true ->
  whole_lines before = true ->
  bytes_IndexByte (take MaxScanTokenSize long) x0a = None ->
  (MaxScanTokenSize <=? length long)%nat = true ->
  Z.of_nat (length before) < 2 ^ 63 ->
  let mime := http_DetectContentType (take 512 content) in
  strings_HasPrefix mime "image/" = false ->
  strings_HasPrefix mime "text/" = true ->
  (exists f,
     os_Open fs' path = Ok f /\
     scan_err (scan_rest (S (length (file_rest f))) (bufio_NewScanner f))
       = Some ErrTooLong) /\
  analyzeText fs' path =
    Ok {[ "lines" := VInt (spec_lines before); "words" := VInt (spec_words before) ]} /\
  (exists meta,
     ComputeMetadata fs fs' path = Ok meta /\
     Metadata.Hash meta = hex_EncodeToString (sha256_Sum content) /\
     Metadata.Size meta = Z.of_nat (length content) /\
     Metadata.Extra meta =
       {[ "mime_type" := VString mime;
          "lines" := VInt (spec_lines before);
          "words" := VInt (spec_words before) ]} /\
     Metadata.Extra meta <> {[ "mime_type" := VString mime ]}).
Proof.
  intros Hfs Hb Hfs' Hs Hw Hnl Hlong Hbb mime Hi Ht.
  assert (analyzeText fs' path =
          Ok {[ "lines" := VInt (spec_lines before);
                "words" := VInt (spec_words before) ]}) as Htext.
  { unfold analyzeText, os_Open. rewrite Hfs'.
    unfold bufio_NewScanner, file_rest. cbn [data offset]. rewrite drop_0.
    rewrite (scan_loop_until_long long) by (assumption || rewrite ?length_app; lia).
    reflexivity. }
  split; [| split; [exact Htext |]].
  - eexists. unfold os_Open. rewrite Hfs'. split; [reflexivity |].
    unfold bufio_NewScanner, file_rest. cbn [data offset]. rewrite drop_0.
    rewrite (scan_rest_until_long long) by (assumption || rewrite ?length_app; lia).
    reflexivity.
  - eexists. split.
    + rewrite (ComputeMetadata_regular fs fs' path content Hfs Hb).
      fold mime. unfold enriched. rewrite Hi, Ht, Htext. reflexivity.
    + cbn [Metadata.Hash Metadata.Size Metadata.Extra].
      split; [reflexivity |]. split; [reflexivity |]. split; [reflexivity |].
      intros Heq.
      apply (f_equal (fun m : gmap string value => m !! "lines")) in Heq.
      rewrite lookup_union in Heq.
      rewrite lookup_insert in Heq.
      rewrite lookup_singleton_ne in Heq by discriminate.
      discriminate.
Qed.

End ScanFailure.

(** *** The order of the consumer's calls *)

Section ConsumerProtocol.
Import Go worker repository main notions.
Context {R : Type} `{Repository R}.

Lemma calls_app (evs evs' : list event) : calls (evs ++ evs') = calls evs ++ calls evs'.
Proof. unfold calls. apply filter_app. Qed.

(** What one result adds to the calls. *)
Lemma handle_calls (res : Result.t) (repo : R) :
  let id := Result.FileID res in
  let meta_call :=
    CallUpdateMetadata id (Result.Hash res) (Result.Size res) (Result.Metadata res) in
  (exists e err, Result.Err res = Some e /\
     calls (fst (handle res repo)) = [CallUpdateStatus id "failed" err]) \/
  (exists err, Result.Err res = None /\
     calls (fst (handle res repo)) = [meta_call (Some err)]) \/
  (exists err, Result.Err res = None /\
     calls (fst (handle res repo)) = [meta_call None; CallUpdateStatus id "completed" err]).
Proof.
  intros id meta_call. unfold handle. destruct (Result.Err res) as [e |].
  - left. destruct (UpdateStatus _ _ _) as [repo' [err |]];
      eexists _, _; split; reflexivity.
  - right. destruct (UpdateMetadata _ _ _ _ _) as [repo' [err |]].
    + left. eexists. split; reflexivity.
    + right. destruct (UpdateStatus _ _ _) as [repo'' [err |]];
        eexists; split; reflexivity.
Qed.

(** X13. The consumer keeps to one order of calls, whatever the
    repository answers: for a failure one [UpdateStatus(id, "failed")];
    for a success [UpdateMetadata], and only if that worked
    [UpdateStatus(id, "completed")] for the same id next. So "completed"
    is never written for a file whose metadata was not stored, and a
    success whose metadata update fails gets no status at all. Each
    result costs one or two calls. *)
Theorem consumer_completes_only_after_metadata (results : list Result.t) (repo : R) :
  in_protocol (calls (fst (handleResults results repo))) = true /\
  (length results <= length (calls (fst (handleResults results repo)))
   <= 2 * length results)%nat /\
  (forall res, Result.Err res = None ->
     snd (UpdateMetadata repo (Result.FileID res) (Result.Hash res)
            (Result.Size res) (Result.Metadata res)) <> None ->
     calls (fst (handle res repo)) =
       [CallUpdateMetadata (Result.FileID res) (Result.Hash res) (Result.Size res)
          (Result.Metadata res)
          (snd (UpdateMetadata repo (Result.FileID res) (Result.Hash res)
                  (Result.Size res) (Result.Metadata res)))]).
Proof.
  split; [| split].
  - revert repo. induction results as [| res rest IH]; intros repo; [reflexivity |].
    cbn [handleResults].
    pose proof (handle_calls res repo) as Hc.
    destruct (handle res repo) as [evs repo1]. specialize (IH repo1).
    destruct (handleResults rest repo1) as [evs' repo2].
    cbn [fst] in *. rewrite calls_app.
    destruct Hc as [(e & err & _ & ->) | [(err & _ & ->) | (err & _ & ->)]];
      cbn [app in_protocol]; rewrite ?String.eqb_refl; exact IH.
  - revert repo. induction results as [| res rest IH]; intros repo; [cbn; lia |].
    cbn [handleResults].
    pose proof (handle_calls res repo) as Hc.
    destruct (handle res repo) as [evs repo1]. specialize (IH repo1).
    destruct (handleResults rest repo1) as [evs' repo2].
    cbn [fst] in *. rewrite calls_app, length_app.
    destruct Hc as [(e & err & _ & ->) | [(err & _ & ->) | (err & _ & ->)]];
      cbn [length]; lia.
  - intros res Hok Hfail. unfold handle. rewrite Hok.
    destruct (UpdateMetadata _ _ _ _ _) as [repo' [err |]]; [reflexivity |].
    cbn in Hfail. congruence.
Qed.

End ConsumerProtocol.

(** *** Strings and paths *)

Section Strings.
Import Go grpcserver.

Lemma append_nil_l (s : string) : "" +:+ s = s.
Proof. reflexivity. Qed.

Lemma append_cons (c : ascii) (s t : string) : String c s +:+ t = String c (s +:+ t).
Proof. reflexivity. Qed.

Lemma append_assoc (s t u : string) : (s +:+ t) +:+ u = s +:+ t +:+ u.
Proof.
  induction s as [| c s IH]; [reflexivity |]. rewrite !append_cons, IH. reflexivity.
Qed.

Lemma append_nil_r (s : string) : s +:+ "" = s.
Proof. induction s as [| c s IH]; [reflexivity |]. rewrite append_cons, IH. reflexivity. Qed.

Lemma substring_whole (s t : string) : substring 0 (String.length s) (s +:+ t) = s.
Proof.
  induction s as [| c s IH]; [destruct t; reflexivity |].
  rewrite append_cons. cbn [String.length substring]. rewrite IH. reflexivity.
Qed.

Lemma substring_skip (pre s : string) (m : nat) :
  substring (String.length pre) m (pre +:+ s) = substring 0 m s.
Proof.
  induction pre as [| c pre IH]; [reflexivity |].
  rewrite append_cons. cbn [String.length substring]. exact IH.
Qed.

Lemma substring_found (s : string) :
  forall j m : nat,
    (j + m <= String.length s)%nat ->
    exists pre post, s = pre +:+ substring j m s +:+ post /\ String.length pre = j.
Proof.
  induction s as [| c s IH]; intros j m Hle; simpl in Hle.
  - assert (j = 0%nat) as -> by lia. assert (m = 0%nat) as -> by lia.
    exists "", "". split; reflexivity.
  - destruct j as [| j].
    + destruct m as [| m].
      * exists "", (String c s). split; reflexivity.
      * destruct (IH 0%nat m ltac:(lia)) as (pre & post & Hs & Hp).
        destruct pre; [| discriminate]. rewrite append_nil_l in Hs.
        exists "", post. split; [| reflexivity].
        cbn [substring]. rewrite append_nil_l, append_cons. f_equal. exact Hs.
    + destruct (IH j m ltac:(lia)) as (pre & post & Hs & Hp).
      exists (String c pre), post. split; [| cbn; f_equal; exact Hp].
      cbn [substring]. rewrite append_cons. f_equal. exact Hs.
Qed.

Lemma length_append (s t : string) :
  String.length (s +:+ t) = (String.length s + String.length t)%nat.
Proof.
  induction s as [| c s IH]; [reflexivity |].
  rewrite append_cons. cbn [String.length]. rewrite IH. reflexivity.
Qed.

(** The loop finds the first position at which [substr] stands. *)
Lemma stringContains_from_spec (s substr : string) (rounds : nat) :
  forall k : nat,
    stringContains_from rounds (Z.of_nat k) s substr = true <->
    exists j : nat,
      (k <= j < k + rounds)%nat /\
      (j + String.length substr <= String.length s)%nat /\
      substring j (String.length substr) s = substr.
Proof.
  induction rounds as [| rounds IH]; intros k; cbn [stringContains_from].
  - split; [discriminate | intros (j & Hj & _); lia].
  - unfold len, slice.
    replace (Z.of_nat k + Z.of_nat (String.length substr) - Z.of_nat k)
      with (Z.of_nat (String.length substr)) by lia.
    rewrite !Nat2Z.id.
    destruct (Z.of_nat k <=? Z.of_nat (String.length s) - Z.of_nat (String.length substr))
      eqn:Hin.
    + apply Z.leb_le in Hin.
      destruct (String.eqb (substring k (String.length substr) s) substr) eqn:Heq.
      * apply String.eqb_eq in Heq. split; [intros _ | reflexivity].
        exists k. split; [lia |]. split; [lia | exact Heq].
      * apply String.eqb_neq in Heq.
        replace (Z.of_nat k + 1) with (Z.of_nat (S k)) by lia. rewrite IH.
        split; intros (j & Hj & Hle & Hsub); exists j.
        -- split; [lia |]. split; assumption.
        -- split; [| split; assumption].
           destruct (Nat.eq_dec j k) as [-> | Hne]; [contradiction | lia].
    + apply Z.leb_gt in Hin. split; [discriminate |].
      intros (j & Hj & Hle & _). lia.
Qed.

Lemma stringContains_iff (s substr : string) :
  stringContains s substr = true <->
  exists pre post, s = pre +:+ substr +:+ post.
Proof.
  unfold stringContains.
  rewrite (stringContains_from_spec s substr (S (String.length s)) 0). split.
  - intros (j & _ & Hle & Hsub).
    destruct (substring_found s j (String.length substr) Hle) as (pre & post & Hs & _).
    exists pre, post. rewrite Hsub in Hs. exact Hs.
  - intros (pre & post & ->). exists (String.length pre).
    rewrite !length_append. split; [lia |]. split; [lia |].
    rewrite substring_skip. apply substring_whole.
Qed.

End Strings.

Section Extensions.
Import Go notions.

Lemma list_ascii_append (s t : string) :
  list_ascii_of_string (s +:+ t) = list_ascii_of_string s ++ list_ascii_of_string t.
Proof.
  induction s as [| c s IH]; [reflexivity |].
  rewrite append_cons. cbn [list_ascii_of_string app]. rewrite IH. reflexivity.
Qed.

Lemma string_of_list_app (l k : list ascii) :
  string_of_list_ascii (l ++ k) = string_of_list_ascii l +:+ string_of_list_ascii k.
Proof. induction l as [| c l IH]; [reflexivity |]. cbn. rewrite IH. reflexivity. Qed.

Lemma ext_scan_tail (r : list ascii) :
  forall (before acc : list ascii),
    tail_ok r ->
    ext_scan (rev r ++ before) acc = ext_scan before (r ++ acc).
Proof.
  induction r as [| c r IH] using rev_ind; intros before acc Hr; [reflexivity |].
  apply Forall_app in Hr as [Hr Hc]. apply Forall_cons in Hc as [[Hc1 Hc2] _].
  rewrite rev_app_distr. cbn [rev app ext_scan]. rewrite Hc1, Hc2.
  rewrite IH by exact Hr. rewrite <- app_assoc. reflexivity.
Qed.

(** What [filepath.Ext] gives: nothing, or a dot and what follows it to
    the end, in which there is no dot and no separator. *)
Lemma ext_scan_shape (l : list ascii) :
  forall acc, tail_ok acc ->
    ext_scan l acc = "" \/
    exists r, tail_ok r /\ ext_scan l acc = string_of_list_ascii ("."%char :: r).
Proof.
  induction l as [| c l IH]; intros acc Hacc; cbn [ext_scan]; [left; reflexivity |].
  destruct (Ascii.eqb c "/") eqn:E1; [left; reflexivity |].
  destruct (Ascii.eqb c ".") eqn:E2.
  - right. exists acc. apply Ascii.eqb_eq in E2. subst c. split; [exact Hacc | reflexivity].
  - apply IH. constructor; [split; assumption | exact Hacc].
Qed.

Lemma plain_tail_ok (s : string) : plain s = true -> tail_ok (list_ascii_of_string s).
Proof.
  induction s as [| c s IH]; intros Hp; [constructor |].
  cbn [plain] in Hp. apply andb_true_iff in Hp as [Hp Hs].
  apply andb_true_iff in Hp as [H1 H2].
  constructor; [| apply IH; exact Hs].
  split; [destruct (Ascii.eqb c "/") | destruct (Ascii.eqb c ".")]; (reflexivity || discriminate).
Qed.

(** The extension of [before/fileID.ext] is [.ext]. *)
Lemma Ext_safeFilename (before fileID filename : string) :
  plain fileID = true ->
  (before = "" \/ exists dir, before = dir +:+ "/") ->
  filepath_Ext (before +:+ fileID +:+ filepath_Ext filename) = filepath_Ext filename.
Proof.
  intros Hid Hbefore. unfold filepath_Ext at 1.
  rewrite !list_ascii_append, !rev_app_distr.
  set (id := list_ascii_of_string fileID).
  assert (tail_ok id) as Hok by (apply plain_tail_ok; exact Hid).
  assert (ext_scan (rev id ++ rev (list_ascii_of_string before)) [] = "") as Hnone.
  { rewrite (ext_scan_tail id) by exact Hok.
    destruct Hbefore as [-> | [dir ->]]; [reflexivity |].
    rewrite list_ascii_append, rev_app_distr. reflexivity. }
  destruct (ext_scan_shape (rev (list_ascii_of_string filename)) [] ltac:(constructor))
    as [He | (r & Hr & He)]; fold (filepath_Ext filename) in He; rewrite He.
  - cbn [list_ascii_of_string rev app]. exact Hnone.
  - rewrite list_ascii_of_string_of_list_ascii.
    change ("."%char :: r) with (["."%char] ++ r). rewrite rev_app_distr.
    rewrite <- !app_assoc. rewrite (ext_scan_tail r) by exact Hr.
    cbn [rev app ext_scan]. rewrite app_nil_r. reflexivity.
Qed.

End Extensions.

Section CleanPaths.
Import Go notions.

Lemma elements_nonempty (p : string) : elements p <> [].
Proof.
  destruct p as [| c p]; cbn [elements]; [discriminate |].
  destruct (Ascii.eqb c "/"); [discriminate |].
  destruct (elements p); discriminate.
Qed.

Lemma elements_app_slash (a b : string) :
  elements (a +:+ "/" +:+ b) = elements a ++ elements b.
Proof.
  induction a as [| c a IH]; [reflexivity |].
  rewrite append_cons. cbn [elements]. rewrite IH.
  destruct (Ascii.eqb c "/"); [reflexivity |].
  pose proof (elements_nonempty a) as Hne.
  destruct (elements a) as [| e es]; [congruence | reflexivity].
Qed.

Lemma elements_no_slash (s : string) : no_slash s = true -> elements s = [s].
Proof.
  induction s as [| c s IH]; intros Hs; [reflexivity |].
  cbn [no_slash] in Hs. apply andb_true_iff in Hs as [Hc Hs].
  cbn [elements]. destruct (Ascii.eqb c "/"); [discriminate |].
  rewrite (IH Hs). reflexivity.
Qed.

Lemma elements_all_no_slash (p : string) :
  Forall (fun e => no_slash e = true) (elements p).
Proof.
  induction p as [| c p IH]; cbn [elements]; [repeat constructor |].
  destruct (Ascii.eqb c "/") eqn:Ec; [constructor; [reflexivity | exact IH] |].
  destruct (elements p) as [| e es]; [repeat constructor; cbn; rewrite Ec; reflexivity |].
  apply Forall_cons in IH as [He Hes].
  constructor; [cbn; rewrite Ec, He; reflexivity | exact Hes].
Qed.

Lemma elements_concat (l : list string) :
  l <> [] -> Forall (fun e => no_slash e = true) l ->
  elements (String.concat "/" l) = l.
Proof.
  induction l as [| e l IH]; intros Hne Hl; [congruence |].
  apply Forall_cons in Hl as [He Hl].
  destruct l as [| e' l'].
  - cbn [String.concat]. apply elements_no_slash. exact He.
  - change (String.concat "/" (e :: e' :: l'))
      with (e +:+ "/" +:+ String.concat "/" (e' :: l')).
    rewrite elements_app_slash, (elements_no_slash e He), IH by (congruence || exact Hl).
    reflexivity.
Qed.

Lemma concat_snoc (l : list string) (x : string) :
  l <> [] -> String.concat "/" (l ++ [x]) = String.concat "/" l +:+ "/" +:+ x.
Proof.
  induction l as [| e l IH]; intros Hne; [congruence |].
  destruct l as [| e' l'].
  - reflexivity.
  - change (String.concat "/" ((e :: e' :: l') ++ [x]))
      with (e +:+ "/" +:+ String.concat "/" ((e' :: l') ++ [x])).
    rewrite IH by congruence.
    change (String.concat "/" (e :: e' :: l'))
      with (e +:+ "/" +:+ String.concat "/" (e' :: l')).
    rewrite !append_assoc. reflexivity.
Qed.

Lemma real_inv (e : string) :
  real e = true -> no_slash e = true /\ e <> "" /\ e <> "." /\ e <> "..".
Proof.
  unfold real. intros Hr.
  apply andb_true_iff in Hr as [Hr H4]. apply andb_true_iff in Hr as [Hr H3].
  apply andb_true_iff in Hr as [H1 H2].
  apply negb_true_iff, String.eqb_neq in H2, H3, H4. repeat split; assumption.
Qed.

Lemma real_intro (e : string) :
  no_slash e = true -> e <> "" -> e <> "." -> e <> ".." -> real e = true.
Proof.
  intros H1 H2 H3 H4. unfold real. rewrite H1.
  apply String.eqb_neq in H2, H3, H4. rewrite H2, H3, H4. reflexivity.
Qed.

Lemma clean_step_real (rooted : bool) (out : list string) (e : string) :
  real e = true -> clean_step rooted out e = e :: out.
Proof.
  intros Hr. apply real_inv in Hr as (_ & H2 & H3 & H4).
  apply String.eqb_neq in H2, H3, H4. unfold clean_step. rewrite H2, H3, H4. reflexivity.
Qed.

Lemma clean_step_kept (rooted : bool) (out : list string) (e : string) :
  no_slash e = true -> kept rooted out -> kept rooted (clean_step rooted out e).
Proof.
  intros He (names & n & -> & Hnames & Hn).
  destruct (String.eqb e "") eqn:E1.
  { unfold clean_step. rewrite E1. exists names, n.
    split; [reflexivity | split; assumption]. }
  destruct (String.eqb e ".") eqn:E2.
  { unfold clean_step. rewrite E1, E2. exists names, n.
    split; [reflexivity | split; assumption]. }
  destruct (String.eqb e "..") eqn:E3.
  - unfold clean_step. rewrite E1, E2, E3. cbn [orb].
    apply String.eqb_eq in E3. subst e.
    destruct names as [| top names'].
    + cbn [app]. destruct n as [| n].
      * cbn [replicate]. destruct rooted.
        -- exists [], 0%nat. split; [reflexivity | split; [constructor | reflexivity]].
        -- exists [], 1%nat. split; [reflexivity | split; [constructor | discriminate]].
      * cbn [replicate]. cbn [String.eqb Ascii.eqb Bool.eqb andb].
        exists [], (S (S n)). split; [reflexivity | split; [constructor |]].
        intros Hr. specialize (Hn Hr). discriminate.
    + cbn [app]. apply Forall_cons in Hnames as [Htop Hnames].
      apply real_inv in Htop as (_ & _ & _ & Htop). apply String.eqb_neq in Htop.
      rewrite Htop. exists names', n. split; [reflexivity | split; assumption].
  - assert (real e = true) as Hr
      by (apply real_intro; [exact He | apply String.eqb_neq; assumption ..]).
    rewrite clean_step_real by exact Hr.
    exists (e :: names), n. split; [reflexivity | split; [| exact Hn]].
    constructor; assumption.
Qed.

Lemma fold_kept (rooted : bool) (es : list string) :
  Forall (fun e => no_slash e = true) es ->
  forall out, kept rooted out -> kept rooted (fold_left (clean_step rooted) es out).
Proof.
  induction es as [| e es IH]; intros Hes out Hout; [exact Hout |].
  apply Forall_cons in Hes as [He Hes]. cbn [fold_left].
  apply IH; [exact Hes |]. apply clean_step_kept; assumption.
Qed.

Lemma kept_nil (rooted : bool) : kept rooted [].
Proof. exists [], 0%nat. split; [reflexivity | split; [constructor | reflexivity]]. Qed.

Lemma fold_dots (n : nat) :
  forall k, fold_left (clean_step false) (replicate n "..") (replicate k "..")
            = replicate (n + k) "..".
Proof.
  induction n as [| n IH]; intros k; [reflexivity |].
  cbn [replicate fold_left].
  replace (clean_step false (replicate k "..") "..") with (replicate (S k) "..").
  - rewrite IH. f_equal. lia.
  - destruct k; reflexivity.
Qed.

Lemma fold_names (rooted : bool) (names : list string) :
  Forall (fun e => real e = true) names ->
  forall out, fold_left (clean_step rooted) (rev names) out = names ++ out.
Proof.
  induction names as [| e names IH]; intros Hn out; [reflexivity |].
  apply Forall_cons in Hn as [He Hn]. cbn [rev].
  rewrite fold_left_app, IH by exact Hn. cbn [fold_left].
  apply clean_step_real. exact He.
Qed.

Lemma rev_replicate {A : Type} (n : nat) (x : A) : rev (replicate n x) = replicate n x.
Proof.
  induction n as [| n IH]; [reflexivity |].
  cbn [replicate rev]. rewrite IH. symmetry. apply replicate_S_end.
Qed.

(** Cleaning the elements kept gives them back. *)
Lemma refold (rooted : bool) (out : list string) :
  kept rooted out -> fold_left (clean_step rooted) (rev out) [] = out.
Proof.
  intros (names & n & -> & Hnames & Hn).
  rewrite rev_app_distr, rev_replicate, fold_left_app.
  assert (fold_left (clean_step rooted) (replicate n "..") [] = replicate n "..") as ->.
  { destruct rooted.
    - rewrite (Hn eq_refl). reflexivity.
    - pose proof (fold_dots n 0) as Hd. cbn [replicate] in Hd. rewrite Hd.
      f_equal. lia. }
  apply fold_names. exact Hnames.
Qed.

Lemma Clean_render (p : string) :
  filepath_Clean p =
    render (is_rooted p) (fold_left (clean_step (is_rooted p)) (elements p) []).
Proof. reflexivity. Qed.

Lemma Clean_kept (p : string) :
  kept (is_rooted p) (fold_left (clean_step (is_rooted p)) (elements p) []).
Proof. apply fold_kept; [apply elements_all_no_slash | apply kept_nil]. Qed.

Lemma kept_elements (rooted : bool) (out : list string) :
  kept rooted out -> Forall (fun e => no_slash e = true /\ e <> "") out.
Proof.
  intros (names & n & -> & Hnames & _). apply Forall_app. split.
  - eapply Forall_impl; [exact Hnames |]. intros e He.
    apply real_inv in He as (H1 & H2 & _). split; assumption.
  - apply Forall_forall. intros e He. apply elem_of_replicate in He as [-> _].
    split; [reflexivity | discriminate].
Qed.

Lemma concat_head (e : string) (l : list string) :
  exists rest, String.concat "/" (e :: l) = e +:+ rest.
Proof.
  destruct l as [| e' l]; [exists ""; cbn; symmetry; apply append_nil_r |].
  eexists. reflexivity.
Qed.

Lemma is_rooted_element (e rest : string) :
  no_slash e = true -> e <> "" -> is_rooted (e +:+ rest) = false.
Proof.
  intros Hs Hne. destruct e as [| c e]; [congruence |].
  rewrite append_cons. cbn [no_slash] in Hs. cbn [is_rooted].
  destruct (Ascii.eqb c "/"); [discriminate | reflexivity].
Qed.

Lemma is_rooted_render (rooted : bool) (out : list string) :
  kept rooted out -> is_rooted (render rooted out) = rooted.
Proof.
  intros Hk. unfold render. destruct rooted; [reflexivity |].
  destruct out as [| top below]; [reflexivity |].
  apply kept_elements in Hk. apply Forall_rev in Hk.
  destruct (rev (top :: below)) as [| e l] eqn:Er.
  { apply (f_equal (@length _)) in Er. rewrite length_rev in Er. discriminate. }
  apply Forall_cons in Hk as [[He1 He2] _].
  destruct (concat_head e l) as [rest ->]. apply is_rooted_element; assumption.
Qed.

Lemma elements_render (rooted : bool) (out : list string) :
  kept rooted out ->
  fold_left (clean_step rooted) (elements (render rooted out)) [] = out.
Proof.
  intros Hk. pose proof (kept_elements rooted out Hk) as He.
  assert (Forall (fun e => no_slash e = true) (rev out)) as Hs.
  { apply Forall_rev. eapply Forall_impl; [exact He |]. intros e [H1 _]. exact H1. }
  unfold render. destruct out as [| top below].
  - destruct rooted; reflexivity.
  - assert (rev (top :: below) <> []) as Hne.
    { intros Er. apply (f_equal (@length _)) in Er. rewrite length_rev in Er. discriminate. }
    destruct rooted.
    + change ("/" +:+ String.concat "/" (rev (top :: below)))
        with ("" +:+ "/" +:+ String.concat "/" (rev (top :: below))).
      rewrite elements_app_slash, elements_concat by assumption.
      cbn [elements app fold_left]. change (clean_step true [] "") with (@nil string).
      apply refold. exact Hk.
    + rewrite elements_concat by assumption. apply refold. exact Hk.
Qed.

(** [filepath.Clean] changes nothing in a clean path. *)
Lemma render_clean (rooted : bool) (out : list string) :
  kept rooted out -> filepath_Clean (render rooted out) = render rooted out.
Proof.
  intros Hk. rewrite Clean_render, (is_rooted_render rooted out Hk).
  rewrite (elements_render rooted out Hk). reflexivity.
Qed.

Lemma Clean_idempotent (p : string) :
  filepath_Clean (filepath_Clean p) = filepath_Clean p.
Proof. rewrite (Clean_render p). apply render_clean, Clean_kept. Qed.

Lemma is_rooted_append (dir rest : string) :
  dir <> "" -> is_rooted (dir +:+ rest) = is_rooted dir.
Proof. destruct dir; [congruence | reflexivity]. Qed.

(** Cleaning [dir/name] keeps what is kept of [dir] and adds [name]. *)
Lemma Clean_child (dir name : string) :
  dir <> "" -> real name = true ->
  filepath_Clean (dir +:+ "/" +:+ name) =
    render (is_rooted dir)
      (name :: fold_left (clean_step (is_rooted dir)) (elements dir) []).
Proof.
  intros Hdir Hname. rewrite Clean_render, is_rooted_append by exact Hdir.
  rewrite elements_app_slash, fold_left_app.
  rewrite (elements_no_slash name) by (apply real_inv in Hname; tauto).
  cbn [fold_left]. rewrite clean_step_real by exact Hname. reflexivity.
Qed.

Lemma rev_nonempty {A : Type} (x : A) (l : list A) : rev (x :: l) <> [].
Proof.
  intros Er. apply (f_equal (@length _)) in Er. rewrite length_rev in Er. discriminate.
Qed.

Lemma render_push (rooted : bool) (out : list string) (name : string) :
  render rooted (name :: out) =
    match out with
    | [] => if rooted then "/" +:+ name else name
    | _ => render rooted out +:+ "/" +:+ name
    end.
Proof.
  unfold render. destruct out as [| top below]; [destruct rooted; reflexivity |].
  change (rev (name :: top :: below)) with (rev (top :: below) ++ [name]).
  rewrite concat_snoc by apply rev_nonempty.
  destruct rooted; [rewrite append_assoc |]; reflexivity.
Qed.

Lemma render_named (rooted : bool) (out : list string) :
  kept rooted out -> out <> [] ->
  render rooted out <> "." /\ render rooted out <> "/".
Proof.
  intros Hk Hne. destruct out as [| top below]; [congruence |]. clear Hne.
  assert (Forall (fun e => no_slash e = true /\ e <> "" /\ e <> ".") (top :: below)) as He.
  { destruct Hk as (names & n & -> & Hnames & _). apply Forall_app. split.
    - eapply Forall_impl; [exact Hnames |]. intros e He.
      apply real_inv in He as (H1 & H2 & H3 & _). repeat split; assumption.
    - apply Forall_forall. intros e He. apply elem_of_replicate in He as [-> _].
      repeat split; discriminate. }
  apply Forall_rev in He. unfold render.
  destruct (rev (top :: below)) as [| e l] eqn:Er; [exfalso; revert Er; apply rev_nonempty |].
  apply Forall_cons in He as [(H1 & H2 & H3) _].
  destruct (concat_head e l) as [rest Hc].
  assert (String.concat "/" (e :: l) <> "" /\ String.concat "/" (e :: l) <> "."
          /\ String.concat "/" (e :: l) <> "/") as (Ha & Hb & Hc').
  { rewrite Hc. destruct e as [| c e]; [congruence |]. rewrite append_cons.
    cbn [no_slash] in H1. apply andb_true_iff in H1 as [Hc1 _].
    repeat split; intros [= -> Hr].
    - destruct e; [congruence | discriminate].
    - discriminate. }
  destruct rooted.
  - change ("/" +:+ String.concat "/" (e :: l))
      with (String "/"%char (String.concat "/" (e :: l))).
    split; [discriminate |]. intros [= Hr]. apply Ha. exact Hr.
  - split; assumption.
Qed.

(** The model of [filepath.Clean] and [filepath.Join] on the tables of
    the library's own tests. *)
Example Clean_vectors :
  map filepath_Clean
    ["abc"; "abc/def"; "a/b/c"; "."; ".."; "../.."; "../../abc"; "/abc"; "/";
     ""; "abc/"; "abc/def/"; "a/b/c/"; "./"; "../"; "../../"; "/abc/";
     "abc//def//ghi"; "abc//"; "abc/./def"; "/./abc/def"; "abc/.";
     "abc/def/ghi/../jkl"; "abc/def/../ghi/../jkl"; "abc/def/.."; "abc/def/../..";
     "/abc/def/../.."; "abc/def/../../.."; "/abc/def/../../..";
     "abc/def/../../../ghi/jkl/../../../mno"; "/../abc";
     "abc/./../def"; "abc//./../def"; "abc/../../././../def"; "//abc"; "///abc"; "./data"]
  = ["abc"; "abc/def"; "a/b/c"; "."; ".."; "../.."; "../../abc"; "/abc"; "/";
     "."; "abc"; "abc/def"; "a/b/c"; "."; ".."; "../.."; "/abc";
     "abc/def/ghi"; "abc"; "abc/def"; "/abc/def"; "abc";
     "abc/def/jkl"; "abc/jkl"; "abc"; ".";
     "/"; ".."; "/";
     "../../mno"; "/abc";
     "def"; "def"; "../../def"; "/abc"; "/abc"; "data"].
Proof. vm_compute. reflexivity. Qed.

Example Join_vectors :
  map filepath_Join
    [["a"; "b"]; ["a"; ""]; [""; "b"]; ["/"; "a"]; ["/"; ""]; ["a/"; "b"]; ["a/"; ""];
     [""; ""]; ["."; "x.txt"]; ["./data"; "f.png"]; []; ["a"; "b"; "c"]; ["/"; "a/b"]]
  = ["a/b"; "a"; "b"; "/a"; "/"; "a/b"; "a"; ""; "x.txt"; "data/f.png"; ""; "a/b/c"; "/a/b"].
Proof. vm_compute. reflexivity. Qed.

End CleanPaths.

(** *** The REST gateway and the gRPC service *)

Section UploadPlace.
Import Go notions restapi.

Lemma no_slash_append (s t : string) :
  no_slash (s +:+ t) = no_slash s && no_slash t.
Proof.
  induction s as [| c s IH]; [reflexivity |].
  rewrite append_cons. cbn [no_slash]. rewrite IH, andb_assoc. reflexivity.
Qed.

Lemma plain_no_slash (s : string) : plain s = true -> no_slash s = true.
Proof.
  induction s as [| c s IH]; [reflexivity |]. cbn [plain no_slash]. intros Hp.
  apply andb_true_iff in Hp as [Hp Hs]. apply andb_true_iff in Hp as [H1 _].
  rewrite H1, (IH Hs). reflexivity.
Qed.

Lemma Ext_no_slash (path : string) : no_slash (filepath_Ext path) = true.
Proof.
  unfold filepath_Ext.
  destruct (ext_scan_shape (rev (list_ascii_of_string path)) [] ltac:(constructor))
    as [-> | (r & Hr & ->)]; [reflexivity |].
  cbn [string_of_list_ascii no_slash Ascii.eqb Bool.eqb andb negb].
  induction Hr as [| c r [Hc _] Hr IH]; [reflexivity |].
  cbn [string_of_list_ascii no_slash]. rewrite Hc, IH. reflexivity.
Qed.

(** The name given to an upload is a path element of its own. *)
Lemma safeFilename_real (fileID filename : string) :
  fileID <> "" -> plain fileID = true ->
  real (safeFilename fileID filename) = true /\
  exists c rest, safeFilename fileID filename = String c rest /\
                 Ascii.eqb c "/" = false /\ Ascii.eqb c "." = false.
Proof.
  intros Hne Hp. unfold safeFilename.
  destruct fileID as [| c id]; [congruence |].
  assert (Ascii.eqb c "/" = false /\ Ascii.eqb c "." = false) as [Hc1 Hc2].
  { cbn [plain] in Hp. apply andb_true_iff in Hp as [Hp _].
    apply andb_true_iff in Hp as [H1 H2].
    split; [destruct (Ascii.eqb c "/") | destruct (Ascii.eqb c ".")];
      (reflexivity || discriminate). }
  split.
  - apply real_intro.
    + rewrite no_slash_append, (plain_no_slash _ Hp), Ext_no_slash. reflexivity.
    + rewrite append_cons. discriminate.
    + rewrite append_cons. intros [= -> _]. discriminate.
    + rewrite append_cons. intros [= -> _]. discriminate.
  - rewrite append_cons. eexists _, _. split; [reflexivity |]. split; assumption.
Qed.

Lemma prefix_append (a b : string) : String.prefix a (a +:+ b) = true.
Proof.
  induction a as [| c a IH]; [destruct b; reflexivity |].
  rewrite append_cons. cbn [String.prefix].
  destruct (ascii_dec c c); [exact IH | congruence].
Qed.

(** Where an upload goes, by what [filepath.Clean] makes of the upload
    directory. *)
Lemma destPath_shape (uploadDir fileID filename : string) :
  fileID <> "" -> plain fileID = true ->
  let dir := filepath_Clean uploadDir in
  let name := safeFilename fileID filename in
  (dir = "." /\ destPath uploadDir fileID filename = name) \/
  (dir = "/" /\ destPath uploadDir fileID filename = "/" +:+ name) \/
  (dir <> "." /\ dir <> "/" /\ destPath uploadDir fileID filename = dir +:+ "/" +:+ name).
Proof.
  intros Hne Hp dir name.
  destruct (safeFilename_real fileID filename Hne Hp) as [Hreal (c & rest & Hname & _)].
  fold name in Hreal, Hname. unfold destPath. fold name. cbn [filepath_Join].
  destruct (String.eqb uploadDir "") eqn:Ed.
  - apply String.eqb_eq in Ed. left. split; [unfold dir; rewrite Ed; reflexivity |].
    assert (String.eqb name "" = false) as -> by (rewrite Hname; reflexivity).
    cbn [String.concat]. rewrite Clean_idempotent, Clean_render.
    rewrite (elements_no_slash name) by (apply real_inv in Hreal; tauto).
    cbn [fold_left]. rewrite clean_step_real by exact Hreal.
    rewrite Hname at 1. cbn [is_rooted].
    destruct (Ascii.eqb c "/") eqn:Ec.
    + apply real_inv in Hreal as (Hs & _). rewrite Hname in Hs. cbn [no_slash] in Hs.
      rewrite Ec in Hs. discriminate.
    + reflexivity.
  - apply String.eqb_neq in Ed.
    change (String.concat "/" [uploadDir; name]) with (uploadDir +:+ "/" +:+ name).
    rewrite Clean_idempotent, (Clean_child uploadDir name Ed Hreal), render_push.
    pose proof (Clean_kept uploadDir) as Hk.
    unfold dir. rewrite (Clean_render uploadDir).
    destruct (fold_left (clean_step (is_rooted uploadDir)) (elements uploadDir) [])
      as [| top below] eqn:Eo.
    + destruct (is_rooted uploadDir); [right; left | left]; split; reflexivity.
    + right. right.
      destruct (render_named _ _ Hk ltac:(discriminate)) as [H1 H2].
      split; [exact H1 |]. split; [exact H2 | reflexivity].
Qed.

End UploadPlace.

Section ErrorMapping.
Import Go grpcserver restapi.

Lemma bool_eq_iff (a b : bool) : (a = true <-> b = true) -> a = b.
Proof. destruct a, b; intros [H1 H2]; try reflexivity; [symmetry |]; auto. Qed.

Lemma stringContains_cons (c : ascii) (s substr : string) :
  stringContains s substr = true -> stringContains (String c s) substr = true.
Proof.
  rewrite !stringContains_iff. intros (pre & post & ->).
  exists (String c pre), post. reflexivity.
Qed.

(** A prefix in which the first byte of [substr] does not occur cannot
    hold the start of an occurrence. *)
Lemma stringContains_skip (p s : string) (d : ascii) (substr : string) :
  stringContains p (String d "") = false ->
  stringContains (p +:+ s) (String d substr) = stringContains s (String d substr).
Proof.
  induction p as [| c p IH]; intros Hp; [reflexivity |].
  assert (c <> d) as Hc.
  { intros ->. rewrite (proj2 (stringContains_iff (String d p) (String d ""))) in Hp;
      [discriminate |]. exists "", p. reflexivity. }
  assert (stringContains p (String d "") = false) as Hp'.
  { destruct (stringContains p (String d "")) eqn:E; [| reflexivity].
    rewrite (stringContains_cons c p _ E) in Hp. discriminate. }
  rewrite append_cons, <- (IH Hp'). apply bool_eq_iff. split.
  - rewrite !stringContains_iff. intros (pre & post & Heq).
    destruct pre as [| c' pre].
    + rewrite append_nil_l, append_cons in Heq. injection Heq as Heq _. congruence.
    + rewrite append_cons in Heq. injection Heq as _ Heq. exists pre, post. exact Heq.
  - apply stringContains_cons.
Qed.

Lemma containsDuplicate_contains (err : dberr.error) :
  containsDuplicate (Some err) = stringContains (dberr.Error err) "Duplicate entry".
Proof.
  unfold containsDuplicate. set (msg := dberr.Error err).
  destruct (stringContains msg "Duplicate entry") eqn:Hc.
  - rewrite orb_true_r, andb_true_r.
    apply stringContains_iff in Hc as (pre & post & ->).
    unfold len. rewrite !length_append. cbn [String.length]. apply Z.ltb_lt. lia.
  - rewrite orb_false_r.
    assert (String.eqb msg "Duplicate entry" = false) as ->.
    { destruct (String.eqb msg "Duplicate entry") eqn:E; [| reflexivity].
      apply String.eqb_eq in E.
      rewrite (proj2 (stringContains_iff msg "Duplicate entry")) in Hc; [discriminate |].
      exists "", "". rewrite E. reflexivity. }
    assert ((15 <? len msg) && String.eqb (slice msg 0 15) "Duplicate entry" = false) as ->.
    { destruct (15 <? len msg) eqn:El; [| reflexivity].
      destruct (String.eqb (slice msg 0 15) "Duplicate entry") eqn:E; [| reflexivity].
      apply String.eqb_eq in E. apply Z.ltb_lt in El. unfold len in El.
      rewrite (proj2 (stringContains_iff msg "Duplicate entry")) in Hc; [discriminate |].
      destruct (substring_found msg 0 15 ltac:(lia)) as (pre & post & Hm & Hpre).
      exists pre, post. change (slice msg 0 15) with (substring 0 15 msg) in E.
      rewrite E in Hm. exact Hm. }
    apply andb_false_r.
Qed.

Lemma wrapped_message (msg : string) (err : dberr.error) :
  String.eqb (dberr.Error (dberr.Errorf msg err)) "" = false.
Proof.
  cbn [dberr.Error]. destruct msg as [| c msg]; reflexivity.
Qed.

(** The repository's [%w] wrapper does not hide the cause of an error
    from [mapDBError]. *)
Lemma mapDBError_wrapped (msg : string) (err : dberr.error) (method : string) :
  stringContains (msg +:+ ": ") "D" = false ->
  Code (mapDBError (dberr.Errorf msg err) method) =
    if dberr.errors_Is err dberr.ErrNoRows then codes.NotFound
    else if dberr.errors_As_Number err
            || stringContains (dberr.Error err) "Duplicate entry"
         then codes.AlreadyExists
    else if dberr.errors_Is err dberr.DeadlineExceeded then codes.DeadlineExceeded
    else codes.Internal.
Proof.
  intros Hmsg. unfold mapDBError, isDuplicateEntry.
  rewrite wrapped_message, containsDuplicate_contains.
  cbn [dberr.errors_Is dberr.errors_As_Number dberr.Error negb andb].
  rewrite <- append_assoc.
  rewrite (stringContains_skip (msg +:+ ": ") (dberr.Error err) "D" "uplicate entry" Hmsg).
  destruct (dberr.errors_Is err dberr.ErrNoRows); [reflexivity |].
  destruct (dberr.errors_As_Number err || stringContains _ _); [reflexivity |].
  destruct (dberr.errors_Is err dberr.DeadlineExceeded); reflexivity.
Qed.

End ErrorMapping.

Section Gateway.
Import Go hasher worker notions grpcserver restapi.

(** X14. [stringContains] is substring search: it answers true exactly
    when [substr] stands somewhere in [s]. The empty string is found in
    every string, and nothing longer than [s] is found in [s] (the loop
    bound [len(s)-len(substr)] is then negative and no slice is taken). *)
Theorem stringContains_finds_substrings (s substr : string) :
  (stringContains s substr = true <-> exists pre post, s = pre +:+ substr +:+ post) /\
  stringContains s "" = true /\
  (len s < len substr -> stringContains s substr = false).
Proof.
  split; [apply stringContains_iff |]. split.
  - apply stringContains_iff. exists "", s. reflexivity.
  - intros Hlen. destruct (stringContains s substr) eqn:E; [| reflexivity].
    apply stringContains_iff in E as (pre & post & ->).
    unfold len in Hlen. rewrite !length_append in Hlen. lia.
Qed.

(** X15. [containsDuplicate] is the substring search for "Duplicate
    entry" in the message and nothing more: its tests for the whole
    message and for the first 15 bytes never decide. A nil error is no
    duplicate. *)
Theorem containsDuplicate_is_substring_search (err : dberr.error) :
  containsDuplicate None = false /\
  containsDuplicate (Some err) = stringContains (dberr.Error err) "Duplicate entry" /\
  (containsDuplicate (Some err) = true <->
   exists pre post, dberr.Error err = pre +:+ "Duplicate entry" +:+ post).
Proof.
  split; [reflexivity |]. split; [apply containsDuplicate_contains |].
  rewrite containsDuplicate_contains. apply stringContains_iff.
Qed.

(** X16. [mapDBError] classifies an error the repository has wrapped
    by its cause: not found for [sql.ErrNoRows]; else already exists
    when the cause has a [Number()] method or its message mentions
    "Duplicate entry"; else deadline exceeded for
    [context.DeadlineExceeded]; else internal. It never answers [OK]. *)
Theorem mapDBError_classifies_the_cause
    (msg : string) (err : dberr.error) (method : string) :
  stringContains (msg +:+ ": ") "D" = false ->
  Code (mapDBError (dberr.Errorf msg err) method) =
    (if dberr.errors_Is err dberr.ErrNoRows then codes.NotFound
     else if dberr.errors_As_Number err
             || stringContains (dberr.Error err) "Duplicate entry"
          then codes.AlreadyExists
     else if dberr.errors_Is err dberr.DeadlineExceeded then codes.DeadlineExceeded
     else codes.Internal) /\
  Code (mapDBError (dberr.Errorf msg err) method) <> codes.OK.
Proof.
  intros Hmsg. rewrite (mapDBError_wrapped msg err method Hmsg).
  split; [reflexivity |].
  destruct (dberr.errors_Is err dberr.ErrNoRows); [discriminate |].
  destruct (_ || _); [discriminate |].
  destruct (dberr.errors_Is err dberr.DeadlineExceeded); discriminate.
Qed.

(** X17. The traversal check of [uploadFile] depends on the upload
    directory alone. For a file id without dots and separators, the
    upload goes to [Clean(uploadDir)/id.ext] and passes the check, unless
    the upload directory cleans to [.] or [/]: then every upload is
    refused. *)
Theorem traversal_check_depends_on_the_directory (dir fileID filename : string) :
  fileID <> "" -> plain fileID = true ->
  let dest := destPath dir fileID filename in
  inside dir dest =
    negb (String.eqb (filepath_Clean dir) "." || String.eqb (filepath_Clean dir) "/") /\
  (inside dir dest = true ->
   dest = filepath_Clean dir +:+ "/" +:+ safeFilename fileID filename).
Proof.
  intros Hne Hp dest.
  destruct (safeFilename_real fileID filename Hne Hp) as [_ (c & rest & Hname & Hc1 & Hc2)].
  assert (inside dir dest =
          negb (String.eqb (filepath_Clean dir) "." || String.eqb (filepath_Clean dir) "/") /\
          (inside dir dest = true ->
           dest = filepath_Clean dir +:+ "/" +:+ safeFilename fileID filename));
    [| assumption].
  unfold inside, strings_HasPrefix.
  destruct (destPath_shape dir fileID filename Hne Hp) as [[Hd He] | [[Hd He] | (H1 & H2 & He)]];
    fold dest in He; rewrite He.
  - rewrite Hd, Hname. cbn [String.eqb Ascii.eqb Bool.eqb andb orb negb].
    change ("." +:+ "/") with "./". cbn [String.prefix].
    destruct (ascii_dec "." c) as [<- | _]; [discriminate |]. split; [reflexivity | discriminate].
  - rewrite Hd, Hname. change ("/" +:+ "/") with "//".
    change ("/" +:+ String c rest) with (String "/" (String c rest)).
    cbn [String.prefix]. destruct (ascii_dec "/" "/"); [| congruence].
    destruct (ascii_dec "/" c) as [<- | _]; [discriminate |]. split; [reflexivity | discriminate].
  - apply String.eqb_neq in H1, H2. rewrite H1, H2. cbn [orb negb].
    rewrite <- append_assoc, prefix_append. split; [reflexivity |].
    intros _. rewrite append_assoc. reflexivity.
Qed.

(** X18. The extension survives the renaming: the place an upload is
    given has the extension of the name it was uploaded under, and that
    is the extension [ComputeMetadata] reports for it. *)
Theorem upload_keeps_the_extension
    `{Codecs} (dir fileID filename : string) (fs fs' : FS) (meta : Metadata.t) :
  fileID <> "" -> plain fileID = true ->
  filepath_Ext (destPath dir fileID filename) = filepath_Ext filename /\
  (ComputeMetadata fs fs' (destPath dir fileID filename) = Ok meta ->
   Metadata.Extension meta = filepath_Ext filename).
Proof.
  intros Hne Hp.
  assert (filepath_Ext (destPath dir fileID filename) = filepath_Ext filename) as Hext.
  { destruct (destPath_shape dir fileID filename Hne Hp)
      as [[_ ->] | [[_ ->] | (_ & _ & ->)]]; unfold safeFilename.
    - apply (Ext_safeFilename "" fileID filename Hp). left. reflexivity.
    - apply (Ext_safeFilename "/" fileID filename Hp). right. exists "". reflexivity.
    - rewrite <- !append_assoc. rewrite append_assoc.
      apply (Ext_safeFilename _ fileID filename Hp). right. eexists. reflexivity. }
  split; [exact Hext |]. intros Hm. rewrite <- Hext.
  exact (ComputeMetadata_Extension fs fs' _ meta Hm).
Qed.

Lemma grpcToHTTPStatus_is_an_error (err : rpc_error) :
  400 <= grpcToHTTPStatus err /\ grpcToHTTPStatus err <> StatusAccepted.
Proof. destruct err as [[[] m] | e]; cbn; split; (lia || discriminate). Qed.

Lemma choose_nil {A : Type} (ready : list A) (n : nat) :
  choose ready n = None <-> ready = [].
Proof.
  unfold choose. split.
  - intros Hn. destruct ready as [| x l]; [reflexivity |].
    apply lookup_ge_None in Hn.
    pose proof (Nat.mod_upper_bound n (length (x :: l)) ltac:(discriminate)). lia.
  - intros ->. reflexivity.
Qed.

Lemma choose_one {A : Type} (x : A) (n : nat) : choose [x] n = Some x.
Proof. unfold choose. cbn [length]. rewrite Nat.mod_1_r. reflexivity. Qed.

(** What [Submit] does in a state the pool reaches while its callers
    keep to the rule of graceful shutdown. *)
Lemma Submit_reachable (w : Z) (s : System) (job : Job.t) :
  Inv w s ->
  Submit (pool s) job =
    if not_called (shutdown_pc s)
    then if Z.of_nat (length (buf (jobs (pool s)))) <? 2 * w
         then [Accepted (with_jobs (pool s)
                           (mkChan (buf (jobs (pool s)) ++ [job]) (2 * w) false))]
         else []
    else [SubmitPanics].
Proof.
  intros HI. unfold Submit, chan_send, with_jobs.
  rewrite (inv_ctx w s HI), (inv_cap_jobs w s HI), (inv_jobs_closed w s HI), app_nil_r.
  destruct (not_called (shutdown_pc s)); [| reflexivity].
  cbn [negb]. destruct (_ <? _); reflexivity.
Qed.

(** X19. [uploadFile] writes 202 only after it has called [Submit],
    and then exactly when [Submit] returns. The job runs under
    [context.Background()], has the id of the upload and the path the
    upload was renamed to, which passed the traversal check and is the
    path registered, with status "pending"; the call ends with 202 when
    [Submit] returns, true or false, with a panic and no response when
    [Submit] panics, and waits while no case of [Submit] can proceed.
    So in a pool whose [Shutdown] has begun the upload is saved and
    registered and the handler panics; before that it answers 202 when
    the queue has room and waits when it is full. When the registration
    fails the answer is the HTTP status of the gRPC error, 400 or above;
    the upload stays where it was renamed to, and no job is submitted.
    Whenever a worker gets to the job, [process] answers with the
    analysis of the file or the analyzer's error, never with a
    cancellation. *)
Theorem upload_submits_what_it_registered
    `{Codecs} (dir : string) (p : Pool) (u : Upload) :
  let effects := fst (fst (uploadFile dir p u)) in
  let answer := snd (fst (uploadFile dir p u)) in
  (answer = Responds StatusAccepted -> exists job, In (CallSubmit job) effects) /\
  (forall job, In (CallSubmit job) effects ->
     Job.Ctx job = Some Background /\
     Job.FileID job = new_id u /\
     inside dir (Job.FilePath job) = true /\
     In (Rename (Job.FilePath job)) effects /\
     In (CallRegisterFile
           (mkRegisterFileRequest (new_id u) (Job.FilePath job) "pending")) effects /\
     (answer, snd (uploadFile dir p u)) =
       match choose (Submit p job) (pick u) with
       | Some (Accepted p') => (Responds StatusAccepted, p')
       | Some Refused => (Responds StatusAccepted, p)
       | Some SubmitPanics => (Panics, p)
       | None => (Blocks, p)
       end /\
     (forall w s0 acts s,
        0 <= w < 2 ^ 63 -> boot w = Some s0 -> graceful acts = true ->
        run acts s0 = Some s -> p = pool s ->
        answer =
          if not_called (shutdown_pc s)
          then if Z.of_nat (length (buf (jobs p))) <? 2 * w
               then Responds StatusAccepted
               else Blocks
          else Panics) /\
     forall workerID env,
       snd (process workerID env job) =
         match ComputeMetadata (fs_hash env) (fs_extra env) (Job.FilePath job) with
         | Ok meta =>
             Result.mk (new_id u) (Metadata.Hash meta) (Metadata.Size meta)
               (Metadata.Extension meta) (Some (Metadata.Extra meta)) None
         | Fail e => Result.mk (new_id u) "" 0 "" None (Some e)
         end) /\
  (forall req err, In (CallRegisterFile req) effects -> register u req = Some err ->
     answer = Responds (grpcToHTTPStatus err) /\ 400 <= grpcToHTTPStatus err /\
     In (Rename (req_FilePath req)) effects /\
     ~ In RemoveTemp effects /\
     forall job, ~ In (CallSubmit job) effects).
Proof.
  cbv zeta. unfold uploadFile.
  assert (forall (P : Job.t -> Prop) (Q : RegisterFileRequest -> rpc_error -> Prop)
                 (status : Z) (effects : list effect),
            status <> StatusAccepted ->
            (forall job, ~ In (CallSubmit job) effects) ->
            (forall req, ~ In (CallRegisterFile req) effects) ->
            (Responds status = Responds StatusAccepted ->
             exists job, In (CallSubmit job) effects) /\
            (forall job, In (CallSubmit job) effects -> P job) /\
            (forall req err, In (CallRegisterFile req) effects ->
               register u req = Some err -> Q req err)) as Hearly.
  { intros P Q status effects Hs Hj Hr. split; [| split].
    - intros [= Heq]. contradiction.
    - intros job Hin. destruct (Hj job Hin).
    - intros req err Hin. destruct (Hr req Hin). }
  assert (forall job, ~ In (CallSubmit job) [CreateTemp; RemoveTemp]) as Hd1
    by (intros job [Hj | [Hj | []]]; discriminate).
  assert (forall req, ~ In (CallRegisterFile req) [CreateTemp; RemoveTemp]) as Hd2
    by (intros req [Hj | [Hj | []]]; discriminate).
  destruct (form_file u) as [filename |]; cbn [fst snd];
    [| apply Hearly; [discriminate | intros job [] | intros req []]].
  set (dest := destPath dir (new_id u) filename).
  destruct (inside dir dest) eqn:Hin; cbn [negb fst snd];
    [| apply Hearly; [discriminate | intros job [] | intros req []]].
  destruct (create_temp u); cbn [negb fst snd];
    [| apply Hearly; [discriminate | intros job [] | intros req []]].
  destruct (copy u); cbn [negb fst snd];
    [| apply Hearly; [discriminate | exact Hd1 | exact Hd2]].
  destruct (flush u); cbn [negb fst snd];
    [| apply Hearly; [discriminate | exact Hd1 | exact Hd2]].
  destruct (rename u); cbn [negb fst snd];
    [| apply Hearly; [discriminate | exact Hd1 | exact Hd2]].
  clear Hearly Hd1 Hd2.
  set (req0 := mkRegisterFileRequest (new_id u) dest "pending").
  set (job0 := Job.mk (Some Background) (new_id u) dest).
  destruct (register u req0) as [err |] eqn:Hreg; cbn [fst snd].
  - destruct (grpcToHTTPStatus_is_an_error err) as [Hge Hne].
    split; [| split].
    + intros [= Hs]. contradiction.
    + intros job [Hj | [Hj | [Hj | []]]]; discriminate.
    + intros req err' [Hj | [Hj | [Hj | []]]] Hreg'; try discriminate.
      injection Hj as <-. rewrite Hreg in Hreg'. injection Hreg' as <-.
      split; [reflexivity |]. split; [exact Hge |].
      split; [right; left; reflexivity |]. split.
      * intros [Hj | [Hj | [Hj | []]]]; discriminate.
      * intros job [Hj | [Hj | [Hj | []]]]; discriminate.
  - assert (In (CallSubmit job0)
              [CreateTemp; Rename dest; CallRegisterFile req0; CallSubmit job0]) as Hsub
      by (right; right; right; left; reflexivity).
    assert (fst (fst (match choose (Submit p job0) (pick u) with
                      | Some (Accepted p') =>
                          ([CreateTemp; Rename dest; CallRegisterFile req0; CallSubmit job0],
                           Responds StatusAccepted, p')
                      | Some Refused =>
                          ([CreateTemp; Rename dest; CallRegisterFile req0; CallSubmit job0],
                           Responds StatusAccepted, p)
                      | Some SubmitPanics =>
                          ([CreateTemp; Rename dest; CallRegisterFile req0; CallSubmit job0],
                           Panics, p)
                      | None =>
                          ([CreateTemp; Rename dest; CallRegisterFile req0; CallSubmit job0],
                           Blocks, p)
                      end))
            = [CreateTemp; Rename dest; CallRegisterFile req0; CallSubmit job0]) as ->
      by (destruct (choose _ _) as [[p' | |] |]; reflexivity).
    split; [| split].
    + intros _. exists job0. exact Hsub.
    + intros job [Hj | [Hj | [Hj | [Hj | []]]]]; try discriminate.
      injection Hj as <-. cbn [Job.Ctx Job.FileID Job.FilePath].
      split; [reflexivity |]. split; [reflexivity |]. split; [exact Hin |].
      split; [right; left; reflexivity |]. split; [right; right; left; reflexivity |].
      split; [| split].
      * destruct (choose _ _) as [[p' | |] |]; reflexivity.
      * intros w s0 acts s Hw Hboot Hg Hrun ->.
        pose proof (graceful_run_Inv w s0 acts s Hw Hboot Hg Hrun) as HI.
        rewrite (Submit_reachable w s job0 HI).
        destruct (not_called (shutdown_pc s)).
        -- destruct (_ <? _); [rewrite choose_one; reflexivity | reflexivity].
        -- rewrite choose_one. reflexivity.
      * intros workerID env. unfold process.
        cbn [Job.Ctx Job.FileID Job.FilePath Err Background].
        destruct (ComputeMetadata _ _ _); reflexivity.
    + intros req err [Hj | [Hj | [Hj | [Hj | []]]]] Hreg'; try discriminate.
      injection Hj as <-. rewrite Hreg in Hreg'. discriminate.
Qed.

(** X20. From the driver and the pool to the client. When the upload
    itself went well, how the call ends is decided by what the [INSERT]
    answered and, when it worked, by the pool: 404 for [sql.ErrNoRows];
    else 409 when the error has a [Number()] method or its message
    mentions "Duplicate entry"; else 504 for a deadline that passed; else
    500; and when the [INSERT] worked, 202 if the pool has not been shut
    down and its queue has room, a wait if the queue is full, and a panic
    without a response once [Shutdown] has begun. *)
Theorem upload_status_follows_the_insert
    `{Codecs} (dir : string) (u : Upload) (filename : string)
    (exec : repository.FileRecord.t -> option dberr.error)
    (w : Z) (s0 : System) (acts : list action) (s : System) :
  form_file u = Some filename ->
  inside dir (destPath dir (new_id u) filename) = true ->
  create_temp u = true -> copy u = true -> flush u = true -> rename u = true ->
  register u = entry.RegisterFile exec ->
  0 <= w < 2 ^ 63 -> boot w = Some s0 -> graceful acts = true -> run acts s0 = Some s ->
  snd (fst (uploadFile dir (pool s) u)) =
    match exec (repository.FileRecord.mk (new_id u) "" 0 "pending"
                  (destPath dir (new_id u) filename) 0%nat None) with
    | None =>
        if not_called (shutdown_pc s)
        then if Z.of_nat (length (buf (jobs (pool s)))) <? 2 * w
             then Responds StatusAccepted
             else Blocks
        else Panics
    | Some err =>
        Responds
          (if dberr.errors_Is err dberr.ErrNoRows then StatusNotFound
           else if dberr.errors_As_Number err
                   || stringContains (dberr.Error err) "Duplicate entry"
                then StatusConflict
           else if dberr.errors_Is err dberr.DeadlineExceeded then StatusGatewayTimeout
           else StatusInternalServerError)
    end.
Proof.
  intros Hform Hin Ht Hc Hf Hr Hreg Hw Hboot Hg Hrun. unfold uploadFile.
  rewrite Hform, Hin, Ht, Hc, Hf, Hr, Hreg. cbn [negb].
  unfold entry.RegisterFile, RegisterFile, mysql.Create.
  cbn [req_Id req_Status req_FilePath].
  destruct (exec _) as [err |].
  - cbn [fst snd grpcToHTTPStatus].
    rewrite (mapDBError_wrapped "repo create" err "RegisterFile" ltac:(vm_compute; reflexivity)).
    destruct (dberr.errors_Is err dberr.ErrNoRows); [reflexivity |].
    destruct (_ || _); [reflexivity |].
    destruct (dberr.errors_Is err dberr.DeadlineExceeded); reflexivity.
  - pose proof (graceful_run_Inv w s0 acts s Hw Hboot Hg Hrun) as HI.
    rewrite (Submit_reachable w s _ HI).
    destruct (not_called (shutdown_pc s)).
    + destruct (_ <? _); [rewrite choose_one; reflexivity | reflexivity].
    + rewrite choose_one. reflexivity.
Qed.

(** X21. [getFile] answers 400 for an empty id without asking the
    repository; for another id, 404 exactly when the row scan ended in
    [sql.ErrNoRows], which the repository's wrapper does not hide, 500
    for any other error, and 200 with the record found. *)
Theorem getFile_status_follows_the_scan
    (scan : string -> dberr.error + repository.FileRecord.t) (id : string) :
  let answer := getFile (entry.GetByID scan) id in
  (id = "" -> answer = (StatusBadRequest, None)) /\
  (id <> "" -> forall err, scan id = inl err ->
     answer =
       (if dberr.errors_Is err dberr.ErrNoRows then StatusNotFound
        else StatusInternalServerError, None)) /\
  (id <> "" -> forall rec, scan id = inr rec -> answer = (StatusOK, Some rec)).
Proof.
  cbv zeta. unfold getFile, entry.GetByID, mysql.GetByID. split; [| split].
  - intros ->. reflexivity.
  - intros Hid err Hs. apply String.eqb_neq in Hid. rewrite Hid, Hs.
    cbn [dberr.errors_Is]. destruct (dberr.errors_Is err dberr.ErrNoRows); reflexivity.
  - intros Hid rec Hs. apply String.eqb_neq in Hid. rewrite Hid, Hs. reflexivity.
Qed.

End Gateway.

(** *** The further theorems at work on the examples *)

Section FurtherWitnesses.
Import Go hasher worker repository main notions grpcserver restapi fixtures.

Lemma text_scan_failure_witness :
  exists meta,
    ComputeMetadata disk disk "/data/long.txt" = Ok meta /\
    Metadata.Extra meta =
      {[ "mime_type" := VString "text/plain; charset=utf-8";
         "lines" := VInt 0; "words" := VInt 0 ]} /\
    Metadata.Extra meta <> {[ "mime_type" := VString "text/plain; charset=utf-8" ]}.
Proof.
  destruct (text_scan_failure_stays_in_the_bundle disk disk "/data/long.txt"
              long_line [] long_line
              eq_refl ltac:(vm_compute; reflexivity) eq_refl eq_refl eq_refl
              ltac:(vm_compute; reflexivity) ltac:(vm_compute; reflexivity)
              ltac:(vm_compute; reflexivity)
              ltac:(vm_compute; reflexivity) ltac:(vm_compute; reflexivity))
    as (_ & _ & meta & Hm & _ & _ & Hextra & Hne).
  exists meta. split; [exact Hm |]. split; [exact Hextra | exact Hne].
Defined.

Lemma pool_holds_bounded_work_witness :
  run schedule booted = Some drained /\
  Z.of_nat (length (buf (jobs (pool drained)))) <= 2 /\
  Z.of_nat (length (held (goroutines drained))) <= 1 /\
  Z.of_nat (length (buf (results (pool drained)))) <= 2 /\
  Z.of_nat (length (accepted drained)) <= Z.of_nat (length (observed drained)) + 5.
Proof.
  assert (run schedule booted = Some drained) as Hrun by (vm_compute; reflexivity).
  split; [exact Hrun |].
  exact (pool_holds_bounded_work 1 booted schedule drained ltac:(lia) eq_refl Hrun).
Defined.

Lemma single_worker_witness :
  run schedule booted = Some drained /\
  map Job.FileID (accepted drained) = ["id-1"; "id-2"] /\
  map Result.FileID (observed drained) `prefix_of` map Job.FileID (accepted drained).
Proof.
  assert (run schedule booted = Some drained) as Hrun by (vm_compute; reflexivity).
  split; [exact Hrun |]. split; [reflexivity |].
  exact (proj2 (single_worker_keeps_submission_order booted schedule drained eq_refl Hrun)).
Defined.

Lemma Submit_blocks_witness :
  run [ASubmit job1 0; ASubmit job2 0]%nat booted = Some full1 /\
  Submit (pool full1) job3 = [].
Proof.
  assert (run [ASubmit job1 0; ASubmit job2 0]%nat booted = Some full1) as Hrun
    by (vm_compute; reflexivity).
  split; [exact Hrun |].
  exact (proj2 (Submit_accepts_or_blocks 1 booted [ASubmit job1 0; ASubmit job2 0]%nat
                  full1 job3 ltac:(lia) eq_refl eq_refl Hrun) eq_refl).
Defined.

Lemma workers_exit_witness :
  run schedule booted = Some drained /\
  Forall (fun g => g = WExited) (goroutines drained) /\
  buf (jobs (pool drained)) = [] /\ wg (pool drained) = 0.
Proof.
  assert (run schedule booted = Some drained) as Hrun by (vm_compute; reflexivity).
  split; [exact Hrun |].
  exact (proj2 (proj2 (workers_exit_at_shutdown_only 1 booted schedule drained
                         ltac:(lia) eq_refl eq_refl Hrun))
           (or_intror eq_refl)).
Defined.

Lemma second_Shutdown_witness :
  boot entry.numWorkers = Some booted5 /\
  run [AShutdown] booted5 = Some closing5 /\
  Shutdown (with_shutdown closing5 NotCalled) =
    Some (panic (with_shutdown closing5 NotCalled)).
Proof.
  assert (run [AShutdown] booted5 = Some closing5) as Hrun by (vm_compute; reflexivity).
  split; [reflexivity |]. split; [exact Hrun |].
  exact (second_Shutdown_panics 5 booted5 [AShutdown] closing5
           ltac:(lia) eq_refl eq_refl Hrun ltac:(discriminate)).
Defined.

Lemma every_result_witness :
  run schedule booted = Some drained /\
  NoDup (map Result.FileID (emitted drained)).
Proof.
  assert (run schedule booted = Some drained) as Hrun by (vm_compute; reflexivity).
  split; [exact Hrun |].
  apply (proj2 (proj2 (every_result_answers_an_accepted_job 1 booted schedule drained
                         ltac:(lia) eq_refl eq_refl Hrun))).
  apply NoDup_cons. split; [vm_compute; intros Hin; inversion Hin as [| ? ? ? Hin']; inversion Hin' |].
  apply NoDup_cons. split; [intros Hin; inversion Hin |]. apply NoDup_nil. exact I.
Defined.

Lemma idle_pool_witness :
  run one_job booted = Some idle1 /\
  shutdown_pc idle1 = NotCalled /\
  map Result.FileID (observed idle1) = ["id-1"] /\
  map Result.FileID (emitted idle1) ≡ₚ map Job.FileID (accepted idle1) /\
  observed idle1 = emitted idle1.
Proof.
  assert (run one_job booted = Some idle1) as Hrun by (vm_compute; reflexivity).
  destruct (proj2 (idle_pool_has_answered_every_job 1 booted one_job idle1
                     ltac:(lia) eq_refl eq_refl Hrun)) as (_ & _ & Hperm & Hobs).
  - intros [| id] pick env; reflexivity.
  - reflexivity.
  - split; [exact Hrun |]. split; [reflexivity |]. split; [reflexivity |].
    split; [exact Hperm | exact Hobs].
Defined.

Lemma bundle_witness :
  exists content,
    disk "/data/notes.txt" = Regular content /\
    Metadata.Extension notes_meta = ".txt" /\
    Metadata.Extra notes_meta !! "mime_type" = Some (VString "text/plain; charset=utf-8").
Proof.
  assert (ComputeMetadata disk disk "/data/notes.txt" = Ok notes_meta) as Hm
    by (vm_compute; reflexivity).
  destruct (bundle_has_mime_type_and_one_block disk disk "/data/notes.txt" notes_meta Hm)
    as (content & Hfs & Hext & Hmime & _).
  exists content. split; [exact Hfs |]. split; [reflexivity |]. reflexivity.
Defined.

Lemma text_counts_witness :
  ComputeMetadata disk disk "/data/notes.txt" =
    Ok (Metadata.mk (hex_EncodeToString (sha256_Sum notes)) 57 ".txt"
          {[ "mime_type" := VString "text/plain; charset=utf-8";
             "lines" := VInt 3; "words" := VInt 10 ]}).
Proof.
  exact (text_counts_are_of_the_reopened_file disk disk "/data/notes.txt" notes notes
           eq_refl eq_refl ltac:(vm_compute; reflexivity) ltac:(vm_compute; reflexivity)
           ltac:(vm_compute; reflexivity) eq_refl eq_refl).
Defined.

Lemma long_line_witness :
  analyzeText (fun _ => Regular (bytes "first line" ++ [x0a] ++ long_line)) "/data/mixed.txt" =
    Ok {[ "lines" := VInt 1; "words" := VInt 2 ]}.
Proof.
  exact (analyzeText_stops_at_the_first_long_line
           (fun _ => Regular (bytes "first line" ++ [x0a] ++ long_line)) "/data/mixed.txt"
           (bytes "first line" ++ [x0a]) long_line
           ltac:(rewrite <- app_assoc; reflexivity)
           ltac:(vm_compute; reflexivity) ltac:(vm_compute; reflexivity)
           ltac:(vm_compute; reflexivity) ltac:(vm_compute; reflexivity)
           ltac:(vm_compute; reflexivity)).
Defined.

Lemma mapDBError_witness :
  Code (mapDBError (dberr.Errorf "repo create" duplicate_key) "RegisterFile")
    = codes.AlreadyExists.
Proof.
  exact (proj1 (mapDBError_classifies_the_cause "repo create" duplicate_key "RegisterFile"
                  ltac:(vm_compute; reflexivity))).
Defined.

Lemma traversal_check_witness :
  inside entry.uploadDir (destPath entry.uploadDir uuid1 "report.final.pdf") = true /\
  destPath entry.uploadDir uuid1 "report.final.pdf"
    = "data/550e8400-e29b-41d4-a716-446655440000.pdf" /\
  inside "." (destPath "." uuid1 "report.final.pdf") = false.
Proof.
  split; [| split].
  - exact (proj1 (traversal_check_depends_on_the_directory entry.uploadDir uuid1
                    "report.final.pdf" ltac:(discriminate) ltac:(vm_compute; reflexivity))).
  - exact (proj2 (traversal_check_depends_on_the_directory entry.uploadDir uuid1
                    "report.final.pdf" ltac:(discriminate) ltac:(vm_compute; reflexivity))
             ltac:(vm_compute; reflexivity)).
  - exact (proj1 (traversal_check_depends_on_the_directory "." uuid1
                    "report.final.pdf" ltac:(discriminate) ltac:(vm_compute; reflexivity))).
Defined.

Lemma upload_keeps_the_extension_witness :
  filepath_Ext (destPath entry.uploadDir uuid1 "report.final.pdf") = ".pdf".
Proof.
  exact (proj1 (upload_keeps_the_extension entry.uploadDir uuid1 "report.final.pdf"
                  disk disk notes_meta ltac:(discriminate) ltac:(vm_compute; reflexivity))).
Defined.

Lemma upload_after_Shutdown_witness :
  run [AShutdown] booted5 = Some closing5 /\
  snd (fst (uploadFile entry.uploadDir (pool closing5) upload2)) = Panics /\
  snd (fst (uploadFile entry.uploadDir (pool booted5) upload2)) = Responds StatusAccepted.
Proof.
  assert (run [AShutdown] booted5 = Some closing5) as Hrun by (vm_compute; reflexivity).
  split; [exact Hrun |]. split.
  - destruct (proj1 (proj2 (upload_submits_what_it_registered
                              entry.uploadDir (pool closing5) upload2))
                (Job.mk (Some Background) uuid1
                   (destPath entry.uploadDir uuid1 "report.final.pdf"))
                ltac:(vm_compute; tauto))
      as (_ & _ & _ & _ & _ & _ & Hpool & _).
    exact (Hpool 5 booted5 [AShutdown] closing5 ltac:(lia) eq_refl eq_refl Hrun eq_refl).
  - vm_compute. reflexivity.
Defined.

Lemma upload_status_witness :
  run [AShutdown] booted5 = Some closing5 /\
  snd (fst (uploadFile entry.uploadDir (pool closing5) upload1)) = Responds StatusConflict /\
  snd (fst (uploadFile entry.uploadDir (pool closing5) upload2)) = Panics.
Proof.
  assert (run [AShutdown] booted5 = Some closing5) as Hrun by (vm_compute; reflexivity).
  split; [exact Hrun |]. split.
  - exact (upload_status_follows_the_insert entry.uploadDir upload1 "report.final.pdf"
             (fun _ => Some duplicate_key) 5 booted5 [AShutdown] closing5
             eq_refl ltac:(vm_compute; reflexivity) eq_refl eq_refl eq_refl eq_refl eq_refl
             ltac:(lia) eq_refl eq_refl Hrun).
  - exact (upload_status_follows_the_insert entry.uploadDir upload2 "report.final.pdf"
             (fun _ => None) 5 booted5 [AShutdown] closing5
             eq_refl ltac:(vm_compute; reflexivity) eq_refl eq_refl eq_refl eq_refl eq_refl
             ltac:(lia) eq_refl eq_refl Hrun).
Defined.

End FurtherWitnesses.
